(** * NotMyAppYet: the news ingestion core, embedded and verified

    A shallow embedding of the parts of the repository that the
    specification's testable properties are about:

    - [utils/textUtils.ts]: entity decoding and tweet clean-up
      (module [TextUtils]);
    - [services/notificationService.ts]: keyword matching and the
      de-duplicating dispatcher (module [Notification]);
    - [store/newsStore.ts]: the bounded, ordered, de-duplicated store
      (module [Store]);
    - [services/websocketService.ts]: the two format adapters (module
      [Adapter]) and the close and reconnect handling of a connection
      (module [Actor]).

    Module [Spec] holds the vocabulary in which the properties are stated.

    Modelling conventions.
    - A JavaScript string is a [string]: the sequence of bytes of the
      UTF-8 encoding of its text.  [indexOf]/[substring] indices are
      therefore byte offsets; the source only ever feeds an index obtained
      from [indexOf] back to [substring], so the split points agree.
    - The white space of [trim] and of the regular-expression classes
      [\s] and [\S], and the line terminators that [.] does not match,
      are the characters of the tables [JS.white_space] and
      [JS.line_terminators], each given by its encoding.  No encoding of
      a character is a part of another's, so in the encoding of a text
      the bytes of a character are found exactly where the character
      stands.
    - The case mappings of [toLowerCase] and [toUpperCase] belong to the
      Unicode database, not to the program: they are a parameter (the
      class [JS.CaseMapping]) of which only the behaviour on ASCII text is
      fixed, and the theorems hold for every such mapping.
    - A number that may be [NaN] is a [number]; the time of an event is
      one, since the adapters store what [getTime()] returns.
    - [Date.now()] and [Math.random()] are read from an explicit [Clock]
      the caller passes in; what [new Date(v).getTime()] returns and what
      [document], where the runtime has one, does for
      [decodeHtmlEntities] are fields of [Adapter.Env].
    - An exception is a value: [Throw] in the [Res] type.
    - [Array.prototype.sort] is stable, and an insertion sort: with a
      comparator that is no order (it returns [NaN], read as 0, where a
      time is [NaN]) the result of the engine is implementation-defined,
      and the insertion sort is one of the results it may give. *)

From Stdlib Require Import ZArith QArith Qminmax Bool List Ascii String Lia Permutation Sorted.
From stdpp Require Import base decidable option list gmap sets strings pretty.

Set Warnings "-register-all".

Local Open Scope Z_scope.
Local Open Scope string_scope.

(** ** JavaScript string primitives *)

Module JS.

Definition is_upper (c : ascii) : bool :=
  let n := nat_of_ascii c in (65 <=? n)%nat && (n <=? 90)%nat.

Definition is_lower (c : ascii) : bool :=
  let n := nat_of_ascii c in (97 <=? n)%nat && (n <=? 122)%nat.

Definition lower_char (c : ascii) : ascii :=
  if is_upper c then ascii_of_nat (nat_of_ascii c + 32) else c.

Definition upper_char (c : ascii) : ascii :=
  if is_lower c then ascii_of_nat (nat_of_ascii c - 32) else c.

(** Case folding of the letters [A] to [Z] and [a] to [z]; every other
    byte is kept. *)
Fixpoint ascii_lower (s : string) : string :=
  match s with
  | EmptyString => EmptyString
  | String c r => String (lower_char c) (ascii_lower r)
  end.

Fixpoint ascii_upper (s : string) : string :=
  match s with
  | EmptyString => EmptyString
  | String c r => String (upper_char c) (ascii_upper r)
  end.

(** Every byte of [s] is below 128: the text is ASCII. *)
Fixpoint is_ascii (s : string) : bool :=
  match s with
  | EmptyString => true
  | String c r => (nat_of_ascii c <? 128)%nat && is_ascii r
  end.

(** [String.prototype.toLowerCase] and [String.prototype.toUpperCase]
    apply the case mappings of the Unicode character database.  The
    database is not part of the program: the two functions are taken as
    they are, and all that is used of them is what they do to ASCII text. *)
Class CaseMapping := {
  toLowerCase : string -> string;
  toUpperCase : string -> string;
  toLowerCase_ascii : forall s, is_ascii s = true -> toLowerCase s = ascii_lower s;
  toUpperCase_ascii : forall s, is_ascii s = true -> toUpperCase s = ascii_upper s
}.

(** The mapping that folds the ASCII letters and nothing else.  On ASCII
    text every case mapping agrees with it; the sample data below is
    ASCII text and is evaluated with it. *)
Definition ascii_case : CaseMapping :=
  {| toLowerCase := ascii_lower;
     toUpperCase := ascii_upper;
     toLowerCase_ascii := fun _ _ => eq_refl;
     toUpperCase_ascii := fun _ _ => eq_refl |}.

(** [s.startsWith(p)] *)
Fixpoint startsWith (s p : string) {struct p} : bool :=
  match p, s with
  | EmptyString, _ => true
  | String a p', String b s' => if Ascii.eqb a b then startsWith s' p' else false
  | String _ _, EmptyString => false
  end.

(** [s.includes(needle)] *)
Fixpoint includes (s needle : string) : bool :=
  startsWith s needle ||
  match s with
  | EmptyString => false
  | String _ r => includes r needle
  end.

Fixpoint indexOf_from (i : Z) (s needle : string) : Z :=
  if startsWith s needle then i
  else match s with
       | EmptyString => -1
       | String _ r => indexOf_from (i + 1) r needle
       end.

(** [s.indexOf(needle)]: the offset of the first occurrence, or -1. *)
Definition indexOf (s needle : string) : Z := indexOf_from 0 s needle.

Fixpoint drop (n : nat) (s : string) : string :=
  match n, s with
  | O, _ => s
  | S n', String _ r => drop n' r
  | S _, EmptyString => EmptyString
  end.

Fixpoint take (n : nat) (s : string) : string :=
  match n, s with
  | O, _ => EmptyString
  | S n', String c r => String c (take n' r)
  | S _, EmptyString => EmptyString
  end.

(** [s.substring(a, b)]: negative arguments count as 0, arguments beyond
    the length as the length, and the two are swapped when [a > b]. *)
Definition substring (s : string) (a b : Z) : string :=
  let lo := Z.to_nat (Z.min a b) in
  let hi := Z.to_nat (Z.max a b) in
  take (hi - lo) (drop lo s).

(** [s.substring(a)] *)
Definition substring_from (s : string) (a : Z) : string :=
  drop (Z.to_nat a) s.

(** The string made of the bytes [l]. *)
Definition bytes (l : list Z) : string :=
  fold_right (fun n s => String (ascii_of_nat (Z.to_nat n)) s) EmptyString l.

(** The white space of ECMAScript (WhiteSpace and LineTerminator), which
    [trim()] strips and the class [\s] matches, each character in its
    UTF-8 encoding: U+0009 to U+000D, U+0020, U+00A0, U+1680, U+2000 to
    U+200A, U+2028, U+2029, U+202F, U+205F, U+3000 and U+FEFF. *)
Definition white_space : list string :=
  map bytes
    [[9]; [10]; [11]; [12]; [13]; [32]; [194; 160]; [225; 154; 128];
     [226; 128; 128]; [226; 128; 129]; [226; 128; 130]; [226; 128; 131];
     [226; 128; 132]; [226; 128; 133]; [226; 128; 134]; [226; 128; 135];
     [226; 128; 136]; [226; 128; 137]; [226; 128; 138];
     [226; 128; 168]; [226; 128; 169]; [226; 128; 175]; [226; 129; 159];
     [227; 128; 128]; [239; 187; 191]].

(** The line terminators, which [.] does not match: U+000A, U+000D,
    U+2028 and U+2029. *)
Definition line_terminators : list string :=
  map bytes [[10]; [13]; [226; 128; 168]; [226; 128; 169]].

(** The length in bytes of the first string of [ps] that [s] starts with;
    0 when it starts with none. *)
Fixpoint prefix_len (ps : list string) (s : string) : nat :=
  match ps with
  | [] => O
  | p :: rest => if startsWith s p then String.length p else prefix_len rest s
  end.

(** The length in bytes of the white-space character [s] starts with; 0
    when it starts with none. *)
Definition ws_len (s : string) : nat := prefix_len white_space s.

(** The same for a line terminator. *)
Definition lt_len (s : string) : nat := prefix_len line_terminators s.

(** The leading white space is dropped; [skip] counts the bytes of the
    current character still to be dropped. *)
Fixpoint trimStart_go (skip : nat) (s : string) : string :=
  match s with
  | EmptyString => EmptyString
  | String _ r =>
      match skip with
      | S k => trimStart_go k r
      | O =>
          match ws_len s with
          | S k => trimStart_go k r
          | O => s
          end
      end
  end.

Definition trimStart (s : string) : string := trimStart_go O s.

(** [s] is white space from end to end. *)
Definition all_space (s : string) : bool :=
  match trimStart s with
  | EmptyString => true
  | String _ _ => false
  end.

Fixpoint trimEnd (s : string) : string :=
  match s with
  | EmptyString => EmptyString
  | String c r => if all_space s then EmptyString else String c (trimEnd r)
  end.

(** [s.trim()] *)
Definition trim (s : string) : string := trimEnd (trimStart s).

(** [s.replace(/pat/g, rep)] for a pattern without metacharacters: the
    occurrences are replaced from left to right and do not overlap.
    [skip] counts the bytes of the current occurrence still to be
    dropped. *)
Fixpoint replaceAll_go (pat rep : string) (skip : nat) (s : string) : string :=
  match s with
  | EmptyString => EmptyString
  | String c r =>
      match skip with
      | S k => replaceAll_go pat rep k r
      | O =>
          match pat with
          | EmptyString => String c (replaceAll_go pat rep O r)
          | String _ pat' =>
              if startsWith s pat
              then rep +:+ replaceAll_go pat rep (String.length pat') r
              else String c (replaceAll_go pat rep O r)
          end
      end
  end.

Definition replaceAll (s pat rep : string) : string := replaceAll_go pat rep O s.

(** [s.replace(pat, rep)] with a string pattern: the first occurrence
    only. *)
Fixpoint replaceFirst (s pat rep : string) : string :=
  if startsWith s pat then rep +:+ drop (String.length pat) s
  else match s with
       | EmptyString => EmptyString
       | String c r => String c (replaceFirst r pat rep)
       end.

(** [Array.prototype.sort(cmp)].  The sort is stable, and for a comparator
    that is a total preorder the stable sorted arrangement is unique; it
    is computed here by insertion: an element goes in front of the first
    one it does not have to follow. *)
Fixpoint sort_insert {A} (cmp : A -> A -> Z) (x : A) (l : list A) : list A :=
  match l with
  | [] => [x]
  | y :: r => if (cmp x y <=? 0)%Z then x :: l else y :: sort_insert cmp x r
  end.

Fixpoint sort {A} (cmp : A -> A -> Z) (l : list A) : list A :=
  match l with
  | [] => []
  | x :: r => sort_insert cmp x (sort cmp r)
  end.

(** JavaScript truthiness of a string: the empty string is falsy. *)
Definition truthy (s : string) : bool := negb (String.eqb s "").

(** Truthiness of an optional string property: [undefined] is falsy. *)
Definition truthy_opt (o : option string) : bool :=
  match o with
  | Some s => truthy s
  | None => false
  end.

End JS.

(** ** The data model ([types/news.ts]) *)

Inductive NewsSource := tree | phoenix.

Inductive NewsSourceType := twitter | news_type | blog | announcement | exchange_type | other.

Record SymbolInfo := { exchange : string; symbol : string }.

Record Suggestion := {
  coin : string;
  found : list string;
  symbols : list SymbolInfo;
  supply : option Z
}.

Record QuotedUser := {
  qu_name : option string;
  qu_screen_name : option string;
  qu_icon : option string;
  qu_text : option string;
  qu_image : option string
}.

Record TwitterInfo := {
  twitterId : option string;
  isReply : option bool;
  isRetweet : option bool;
  isQuote : option bool;
  isSelfReply : option bool;
  username : option string;
  name : option string;
  quotedUser : option QuotedUser
}.

(** A JavaScript number, as far as a [time] goes: a whole number of
    milliseconds, which is what the data model asks for and what
    [Date.now()] and [getTime()] return, or [NaN], which [getTime()]
    returns for an invalid date.  An integer is read as the number it
    is. *)
Inductive number :=
| Num (z : Z)
| NaN.

Coercion Num : Z >-> number.

(** [a <= b] on numbers: a comparison with [NaN] is false. *)
Definition num_le (a b : number) : Prop :=
  match a, b with
  | Num x, Num y => x <= y
  | _, _ => False
  end.

#[global] Instance number_eq_dec : EqDecision number.
Proof. solve_decision. Defined.

(** [a < b] on numbers. *)
Definition num_lt (a b : number) : Prop :=
  match a, b with
  | Num x, Num y => x < y
  | _, _ => False
  end.

Definition is_num (a : number) : bool :=
  match a with
  | Num _ => true
  | NaN => false
  end.

(** A [NewsItem].  [title] and [newsSource] are required by the interface,
    but the store reads both defensively ([title?.], [!newsItem.newsSource]),
    so they are optional here. *)
Record NewsItem := {
  _id : string;
  title : option string;
  body : option string;
  source : string;
  url : option string;
  time : number;
  symbols_of : option (list string);
  suggestions : option (list Suggestion);
  icon : option string;
  image : option string;
  info : option TwitterInfo;
  isHighlighted : option bool;
  requireInteraction : option bool;
  type_of : option NewsSourceType;
  coin_of : option string;
  matchedKeyword : option string;
  newsSource : option NewsSource
}.

Record FilterKeyword := { fk_id : string; keyword : string }.

Record ServerConfig := {
  treeWebsocketUrl : string;
  treeApiUrl : string;
  treeToken : string;
  phoenixWebsocketUrl : string;
  phoenixApiUrl : string;
  phoenixToken : string
}.

(** [Date.now()] and the suffix [Math.random().toString(36).substring(2, 9)]. *)
Record Clock := { now : Z; rnd : string }.

(** ** Keyword matching *)

Module Notification.

Section WithCase.

Context {U : JS.CaseMapping}.

(** The loop [for (const filter of filterKeywords)] with its early
    [return]. *)
Fixpoint first_match (titleLower bodyLower : string) (fs : list FilterKeyword)
  : option string :=
  match fs with
  | [] => None
  | f :: rest =>
      if JS.includes titleLower (keyword f) || JS.includes bodyLower (keyword f)
      then Some (keyword f)
      else first_match titleLower bodyLower rest
  end.

(** [title?.toLowerCase() || ''] *)
Definition lower_or_empty (o : option string) : string :=
  match o with
  | Some s => JS.toLowerCase s
  | None => ""
  end.

(** [notificationService.checkForKeywordMatch]; [None] is [null]. *)
Definition checkForKeywordMatch (newsItem : NewsItem) (filterKeywords : list FilterKeyword)
  : option string :=
  match filterKeywords with
  | [] => None
  | _ =>
      let titleLower := lower_or_empty (title newsItem) in
      let bodyLower := lower_or_empty (body newsItem) in
      first_match titleLower bodyLower filterKeywords
  end.

(** *** The dispatcher ([scheduleNotification]) *)

Record Stats := { success : nat; failed : nat; retried : nat; skipped : nat }.

(** One call of the platform notifier: [new Notification(title, options)]
    on the web, [Notifications.scheduleNotificationAsync] on a phone. *)
Record Dispatch := { d_title : string; d_body : string; d_item : NewsItem }.

(** A callback waiting in [setTimeout]. *)
Inductive Callback :=
| Expire (notificationId : string)
| Retry (d : Dispatch) (retryCount : nat).

(** The service object, the pending timers (due time and callback, in the
    order they were set) and the calls that reached the platform
    notifier. *)
Record Service := {
  isInitialized : bool;
  webNotificationsSupported : bool;
  webNotificationsPermission : string;
  recentNotifications : gset string;
  notificationStats : Stats;
  timers : list (Z * Callback);
  sink : list Dispatch
}.

Definition NOTIFICATION_DEDUPE_WINDOW : Z := 60000.

(** What one call reads from the platform: whether [Platform.OS] is
    ['web'], whether [initialize()] succeeds if it has to run, the
    answer of [getPermissionStatus()], and whether the platform notifier
    accepts the call. *)
Record Ambient := {
  is_web : bool;
  initializes : bool;
  permissionStatus : string;
  delivered : bool
}.

Definition set_stats (f : Stats -> Stats) (s : Service) : Service :=
  {| isInitialized := isInitialized s;
     webNotificationsSupported := webNotificationsSupported s;
     webNotificationsPermission := webNotificationsPermission s;
     recentNotifications := recentNotifications s;
     notificationStats := f (notificationStats s);
     timers := timers s; sink := sink s |}.

Definition set_recent (r : gset string) (s : Service) : Service :=
  {| isInitialized := isInitialized s;
     webNotificationsSupported := webNotificationsSupported s;
     webNotificationsPermission := webNotificationsPermission s;
     recentNotifications := r;
     notificationStats := notificationStats s;
     timers := timers s; sink := sink s |}.

Definition set_timers (t : list (Z * Callback)) (s : Service) : Service :=
  {| isInitialized := isInitialized s;
     webNotificationsSupported := webNotificationsSupported s;
     webNotificationsPermission := webNotificationsPermission s;
     recentNotifications := recentNotifications s;
     notificationStats := notificationStats s;
     timers := t; sink := sink s |}.

Definition push_sink (d : Dispatch) (s : Service) : Service :=
  {| isInitialized := isInitialized s;
     webNotificationsSupported := webNotificationsSupported s;
     webNotificationsPermission := webNotificationsPermission s;
     recentNotifications := recentNotifications s;
     notificationStats := notificationStats s;
     timers := timers s; sink := sink s ++ [d] |}.

Definition success_incr (st : Stats) : Stats :=
  {| success := S (success st); failed := failed st;
     retried := retried st; skipped := skipped st |}.
Definition failed_incr (st : Stats) : Stats :=
  {| success := success st; failed := S (failed st);
     retried := retried st; skipped := skipped st |}.
Definition retried_incr (st : Stats) : Stats :=
  {| success := success st; failed := failed st;
     retried := S (retried st); skipped := skipped st |}.
Definition skipped_incr (st : Stats) : Stats :=
  {| success := success st; failed := failed st;
     retried := retried st; skipped := S (skipped st) |}.

(** [setTimeout(cb, delay)] called at time [t]. *)
Definition setTimeout (t : Z) (delay : Z) (cb : Callback) (s : Service) : Service :=
  set_timers (timers s ++ [(t + delay, cb)]) s.

(** [initialize()], as far as [scheduleNotification] depends on it: a
    successful set-up on a phone runs [cleanup()], which empties the
    de-duplication cache; on the web it records the permission. *)
Definition initialize (a : Ambient) (s : Service) : Service :=
  if isInitialized s then s
  else if negb (initializes a) then s
  else
    {| isInitialized := true;
       webNotificationsSupported := if is_web a then true else webNotificationsSupported s;
       webNotificationsPermission :=
         if is_web a then permissionStatus a else webNotificationsPermission s;
       recentNotifications := if is_web a then recentNotifications s else ∅;
       notificationStats := notificationStats s;
       timers := timers s; sink := sink s |}.

(** [showWebNotification] *)
Definition showWebNotification (ok : bool) (d : Dispatch) (s : Service) : Service :=
  if negb (webNotificationsSupported s) ||
     negb (String.eqb (webNotificationsPermission s) "granted")
  then set_stats skipped_incr s
  else
    let s := push_sink d s in
    if ok then set_stats success_incr s else set_stats failed_incr s.

(** [showMobileNotification], called at time [t]: a failed call is retried
    after 1s and then after 2s. *)
Definition showMobileNotification (t : Z) (ok : bool) (d : Dispatch) (retryCount : nat)
    (s : Service) : Service :=
  let s := push_sink d s in
  if ok then set_stats success_incr s
  else
    let s :=
      match retryCount with
      | O => set_stats failed_incr s
      | S _ => set_stats retried_incr s
      end in
    if (retryCount <? 2)%nat
    then setTimeout t (2 ^ Z.of_nat retryCount * 1000) (Retry d (S retryCount)) s
    else s.

(** [`${newsItem._id || ''}-${matchedKeyword}`] *)
Definition notificationId (newsItem : NewsItem) (matchedKeyword : string) : string :=
  _id newsItem +:+ "-" +:+ matchedKeyword.

(** [scheduleNotification], called at time [t]. *)
Definition scheduleNotification (a : Ambient) (t : Z) (newsItem : NewsItem)
    (matchedKeyword : string) (s : Service) : Service :=
  let s := if isInitialized s then s else initialize a s in
  if negb (isInitialized s) then set_stats skipped_incr s
  else if negb (String.eqb (permissionStatus a) "granted")
  then set_stats skipped_incr s
  else
    let id := notificationId newsItem matchedKeyword in
    if bool_decide (id ∈ recentNotifications s) then set_stats skipped_incr s
    else
      let s := set_recent ({[id]} ∪ recentNotifications s) s in
      let s := setTimeout t NOTIFICATION_DEDUPE_WINDOW (Expire id) s in
      let d :=
        {| d_title := source newsItem +:+ ": " +:+ JS.toUpperCase matchedKeyword +:+ " Alert";
           d_body := match title newsItem with
                     | Some x => if JS.truthy x then x else "New crypto alert"
                     | None => "New crypto alert"
                     end;
           d_item := newsItem |} in
      if is_web a then showWebNotification (delivered a) d s
      else showMobileNotification t (delivered a) d O s.

(** A timer callback runs, at time [t]. *)
Definition run_callback (a : Ambient) (t : Z) (cb : Callback) (s : Service) : Service :=
  match cb with
  | Expire id => set_recent (recentNotifications s ∖ {[id]}) s
  | Retry d retryCount => showMobileNotification t (delivered a) d retryCount s
  end.

(** Time reaches [t]: the timers due by then fire, earliest first, and
    those due at the same time in the order they were set.  A timer that
    one of these callbacks sets stays pending: a run that is to see it
    fire steps on to the time at which it is due. *)
Definition advance (a : Ambient) (t : Z) (s : Service) : Service :=
  let due := JS.sort (fun p q => fst p - fst q) (filter (fun p => fst p <= t) (timers s)) in
  let later := filter (fun p => ¬ (fst p <= t)) (timers s) in
  foldl (fun acc p => run_callback a (fst p) (snd p) acc) (set_timers later s) due.


End WithCase.

End Notification.

(** [findMatchedKeyword] of [apiService.ts]; [None] is [undefined]. *)
Definition findMatchedKeyword {U : JS.CaseMapping} (newsItem : NewsItem)
    (filterKeywords : list FilterKeyword) : option string :=
  match filterKeywords with
  | [] => None
  | _ =>
      let titleLower := Notification.lower_or_empty (title newsItem) in
      let bodyLower := Notification.lower_or_empty (body newsItem) in
      Notification.first_match titleLower bodyLower filterKeywords
  end.

(** ** The reconciled store ([store/newsStore.ts]) *)

Module Store.

Section WithCase.

Context {U : JS.CaseMapping}.

Record NewsState := {
  news : list NewsItem;
  isLoading : bool;
  error : option string;
  treeConnected : bool;
  phoenixConnected : bool;
  filterKeywords : list FilterKeyword;
  serverConfig : ServerConfig;
  showTwitterPosts : bool;
  disableApiRequests : bool
}.

(** [set({ news })]: the store merges the partial state, every other
    field is kept. *)
Definition set_news (l : list NewsItem) (s : NewsState) : NewsState :=
  {| news := l; isLoading := isLoading s; error := error s;
     treeConnected := treeConnected s; phoenixConnected := phoenixConnected s;
     filterKeywords := filterKeywords s; serverConfig := serverConfig s;
     showTwitterPosts := showTwitterPosts s;
     disableApiRequests := disableApiRequests s |}.

(** [newsItem._id = ...] *)
Definition with_id (i : string) (n : NewsItem) : NewsItem :=
  {| _id := i; title := title n; body := body n; source := source n;
     url := url n; time := time n; symbols_of := symbols_of n;
     suggestions := suggestions n; icon := icon n; image := image n;
     info := info n; isHighlighted := isHighlighted n;
     requireInteraction := requireInteraction n; type_of := type_of n;
     coin_of := coin_of n; matchedKeyword := matchedKeyword n;
     newsSource := newsSource n |}.

(** [newsItem.newsSource = ...] *)
Definition with_newsSource (src : NewsSource) (n : NewsItem) : NewsItem :=
  {| _id := _id n; title := title n; body := body n; source := source n;
     url := url n; time := time n; symbols_of := symbols_of n;
     suggestions := suggestions n; icon := icon n; image := image n;
     info := info n; isHighlighted := isHighlighted n;
     requireInteraction := requireInteraction n; type_of := type_of n;
     coin_of := coin_of n; matchedKeyword := matchedKeyword n;
     newsSource := Some src |}.

(** [{ ...newsItem, isHighlighted: h, matchedKeyword: k }] *)
Definition enhance (h : option bool) (k : option string) (n : NewsItem) : NewsItem :=
  {| _id := _id n; title := title n; body := body n; source := source n;
     url := url n; time := time n; symbols_of := symbols_of n;
     suggestions := suggestions n; icon := icon n; image := image n;
     info := info n; isHighlighted := h;
     requireInteraction := requireInteraction n; type_of := type_of n;
     coin_of := coin_of n; matchedKeyword := k;
     newsSource := newsSource n |}.

(** [`generated-${Date.now()}-${Math.random().toString(36).substring(2, 9)}`] *)
Definition generated_id (c : Clock) : string :=
  "generated-" +:+ pretty (now c) +:+ "-" +:+ rnd c.

(** [a === b] on two optional strings. *)
Definition opt_eqb (a b : option string) : bool :=
  match a, b with
  | Some x, Some y => String.eqb x y
  | None, None => true
  | _, _ => false
  end.

(** [source === 'X' || source === 'Twitter' ||
    (info?.twitterId && title?.includes('@'))], read as a condition. *)
Definition isTwitterOrXPost (n : NewsItem) : bool :=
  String.eqb (source n) "X" || String.eqb (source n) "Twitter" ||
  (match info n with
   | Some i => JS.truthy_opt (twitterId i)
   | None => false
   end &&
   match title n with
   | Some t => JS.includes t "@"
   | None => false
   end).

(** The predicate handed to [state.news.some]. *)
Definition duplicate_of (newsItem item : NewsItem) : bool :=
  String.eqb (_id item) (_id newsItem) ||
  (JS.truthy_opt (url item) && JS.truthy_opt (url newsItem) &&
     opt_eqb (url item) (url newsItem)) ||
  (JS.truthy_opt (title item) && JS.truthy_opt (title newsItem) &&
     opt_eqb (title item) (title newsItem)).

(** The comparator [(a, b) => b.time - a.time], as [sort] reads it: a
    result that is [NaN] counts as 0.  With a [NaN] among the times the
    comparator is not consistent, and the order [sort] then produces is
    left to the engine; [JS.sort] gives the order of an insertion sort. *)
Definition by_time_desc (a b : NewsItem) : Z :=
  match time b, time a with
  | Num y, Num x => y - x
  | _, _ => 0
  end.

(** The highlight heuristics of [addNews], without the inherited flag. *)
Definition highlight_rule (newsItem : NewsItem) (newMatchedKeyword : option string) : bool :=
  match title newsItem with
  | Some t => String.eqb (JS.toUpperCase t) t
  | None => true
  end ||
  String.eqb (source newsItem) "Terminal" ||
  match suggestions newsItem with
  | Some l => existsb (fun s => String.eqb (coin s) "BTC" || String.eqb (coin s) "ETH") l
  | None => false
  end ||
  match newMatchedKeyword with
  | Some _ => true
  | None => false
  end.

(** What [addNews] hands to [notificationService.scheduleNotification]. *)
Definition Scheduled : Type := (NewsItem * string)%type.

(** The two defaults [addNews] writes into the item it was given: a
    generated [_id] and the [newsSource] ['tree']. *)
Definition with_defaults (c : Clock) (newsItem : NewsItem) : NewsItem :=
  let newsItem :=
    if negb (JS.truthy (_id newsItem)) then with_id (generated_id c) newsItem
    else newsItem in
  match newsSource newsItem with
  | Some _ => newsItem
  | None => with_newsSource tree newsItem
  end.

(** [enhancedNewsItem] *)
Definition enhancedNewsItem (state : NewsState) (newsItem : NewsItem) : NewsItem :=
  let newMatchedKeyword :=
    Notification.checkForKeywordMatch newsItem (filterKeywords state) in
  let isHighlighted' := highlight_rule newsItem newMatchedKeyword in
  let matchedKeyword' :=
    if JS.truthy_opt (matchedKeyword newsItem)
    then matchedKeyword newsItem else newMatchedKeyword in
  enhance
    (if isHighlighted' then Some true else isHighlighted newsItem)
    (if JS.truthy_opt matchedKeyword' then matchedKeyword' else None)
    newsItem.

(** The calls of [notificationService.scheduleNotification] an insert
    makes. *)
Definition scheduled (state : NewsState) (newsItem : NewsItem) : list Scheduled :=
  let newMatchedKeyword :=
    Notification.checkForKeywordMatch newsItem (filterKeywords state) in
  match newMatchedKeyword with
  | Some k =>
      if JS.truthy k &&
         (negb (JS.truthy_opt (matchedKeyword newsItem)) ||
          negb (opt_eqb (matchedKeyword newsItem) newMatchedKeyword))
      then [(enhancedNewsItem state newsItem, k)]
      else []
  | None => []
  end.

(** [addNews]: the new state and the notifications it asked for. *)
Definition addNews (c : Clock) (newsItem : NewsItem) (state : NewsState)
  : NewsState * list Scheduled :=
  if disableApiRequests state && String.eqb (source newsItem) "api"
  then (state, [])
  else
    let newsItem := with_defaults c newsItem in
    if negb (showTwitterPosts state) && isTwitterOrXPost newsItem
    then (state, [])
    else if existsb (duplicate_of newsItem) (news state)
    then (state, [])
    else
      (set_news
         (take 100 (JS.sort by_time_desc
                         (enhancedNewsItem state newsItem :: news state)))
         state,
       scheduled state newsItem).

(** [resetNews] *)
Definition resetNews (state : NewsState) : NewsState := set_news [] state.

(** A run of insertions; each one reads its own clock. *)
Fixpoint addNews_all (ins : list (Clock * NewsItem)) (state : NewsState) : NewsState :=
  match ins with
  | [] => state
  | (c, n) :: rest => addNews_all rest (fst (addNews c n state))
  end.

(** [setIsLoading], [setError], [setTreeConnected], [setPhoenixConnected] *)
Definition setIsLoading (b : bool) (s : NewsState) : NewsState :=
  {| news := news s; isLoading := b; error := error s;
     treeConnected := treeConnected s; phoenixConnected := phoenixConnected s;
     filterKeywords := filterKeywords s; serverConfig := serverConfig s;
     showTwitterPosts := showTwitterPosts s;
     disableApiRequests := disableApiRequests s |}.

Definition setError (e : option string) (s : NewsState) : NewsState :=
  {| news := news s; isLoading := isLoading s; error := e;
     treeConnected := treeConnected s; phoenixConnected := phoenixConnected s;
     filterKeywords := filterKeywords s; serverConfig := serverConfig s;
     showTwitterPosts := showTwitterPosts s;
     disableApiRequests := disableApiRequests s |}.

Definition setTreeConnected (b : bool) (s : NewsState) : NewsState :=
  {| news := news s; isLoading := isLoading s; error := error s;
     treeConnected := b; phoenixConnected := phoenixConnected s;
     filterKeywords := filterKeywords s; serverConfig := serverConfig s;
     showTwitterPosts := showTwitterPosts s;
     disableApiRequests := disableApiRequests s |}.

Definition setPhoenixConnected (b : bool) (s : NewsState) : NewsState :=
  {| news := news s; isLoading := isLoading s; error := error s;
     treeConnected := treeConnected s; phoenixConnected := b;
     filterKeywords := filterKeywords s; serverConfig := serverConfig s;
     showTwitterPosts := showTwitterPosts s;
     disableApiRequests := disableApiRequests s |}.

End WithCase.

End Store.

(** ** Text normalisation ([utils/textUtils.ts]) *)

Module TextUtils.

(** The double quote, as a one-character string. *)
Definition dquote : string := String (ascii_of_nat 34) EmptyString.

(** The line feed, as a one-character string. *)
Definition newline : string := String (ascii_of_nat 10) EmptyString.

(** The fallback branch of [decodeHtmlEntities], taken where there is no
    [document] (the React Native runtime) or where the browser method
    throws: the chain of [replace] calls on a non-empty string. *)
Definition decode_chain (text : string) : string :=
  let t := JS.replaceAll text "&gt;" ">" in
  let t := JS.replaceAll t "&lt;" "<" in
  let t := JS.replaceAll t "&amp;" "&" in
  let t := JS.replaceAll t "&quot;" dquote in
  let t := JS.replaceAll t "&apos;" "'" in
  let t := JS.replaceAll t "&#39;" "'" in
  let t := JS.replaceAll t "&#x2F;" "/" in
  let t := JS.replaceAll t "&#x27;" "'" in
  let t := JS.replaceAll t "&#x2B;" "+" in
  let t := JS.replaceAll t "&nbsp;" " " in
  let t := JS.replaceAll t "&ndash;" "–" in
  let t := JS.replaceAll t "&mdash;" "—" in
  let t := JS.replaceAll t "&ldquo;" dquote in
  let t := JS.replaceAll t "&rdquo;" dquote in
  let t := JS.replaceAll t "&bull;" "•" in
  let t := JS.replaceAll t "&hellip;" "…" in
  JS.replaceAll t newline " ".

(** What [document] does for [decodeHtmlEntities], where there is one:
    the [value] a fresh [textarea] has after [innerHTML] was set to the
    text, or [None] when the browser throws on the way. *)
Definition Document : Type := string -> option string.

(** [decodeHtmlEntities(text: string | undefined)].  [document] is [None]
    where [typeof document === 'undefined']. *)
Definition decodeHtmlEntities (document : option Document) (text : option string) : string :=
  match text with
  | Some t =>
      if JS.truthy t then
        match document with
        | Some dom =>
            match dom t with
            | Some value => JS.replaceAll value newline " "
            | None => decode_chain t
            end
        | None => decode_chain t
        end
      else ""
  | None => ""
  end.

(** [text.replace(/^RT:\s*/i, '')].  Under the flag [i] a pattern
    character below 128 matches itself and its other ASCII case only. *)
Definition strip_rt (text : string) : string :=
  if String.eqb (JS.ascii_lower (JS.take 3 text)) "rt:"
  then JS.trimStart (JS.drop 3 text)
  else text.

(** The number of leading bytes of [s] that [\S+] matches: the bytes in
    front of the first white-space character. *)
Fixpoint nonspace_run (s : string) : nat :=
  match s with
  | EmptyString => O
  | String _ r =>
      match JS.ws_len s with
      | O => S (nonspace_run r)
      | S _ => O
      end
  end.

(** The length of the match of [lit\S+] at the start of [s], for the
    first [lit] of [lits] that has one. *)
Fixpoint link_at (lits : list string) (s : string) : option nat :=
  match lits with
  | [] => None
  | lit :: rest =>
      if JS.startsWith s lit
      then match nonspace_run (JS.drop (String.length lit) s) with
           | O => link_at rest s
           | S k => Some (String.length lit + S k)%nat
           end
      else link_at rest s
  end.

(** [s.replace(/lit\S+/g, '')]: every match is deleted, left to right. *)
Fixpoint remove_links_go (lits : list string) (skip : nat) (s : string) : string :=
  match s with
  | EmptyString => EmptyString
  | String c r =>
      match skip with
      | S k => remove_links_go lits k r
      | O =>
          match link_at lits s with
          | Some (S k) => remove_links_go lits k r
          | _ => String c (remove_links_go lits O r)
          end
      end
  end.

Definition remove_links (lits : list string) (s : string) : string :=
  remove_links_go lits O s.

(** [s.replace(/…\s*$/, '')]: the leftmost ellipsis that only white space
    follows is cut off together with that white space. *)
Fixpoint strip_trailing_ellipsis (s : string) : string :=
  if JS.startsWith s "…" && JS.all_space (JS.drop (String.length "…") s)
  then EmptyString
  else match s with
       | EmptyString => EmptyString
       | String c r => String c (strip_trailing_ellipsis r)
       end.

(** [s.replace(/\s{2,}/g, ' ')]: a run of two or more white-space
    characters becomes one space, a single one is kept.  [skip] counts the
    bytes of the current run still to be dropped. *)
Fixpoint collapse_spaces_go (skip : nat) (s : string) : string :=
  match s with
  | EmptyString => EmptyString
  | String c r =>
      match skip with
      | S k => collapse_spaces_go k r
      | O =>
          match JS.ws_len s with
          | O => String c (collapse_spaces_go O r)
          | S k =>
              if (0 <? JS.ws_len (JS.drop (S k) s))%nat
              then String " "%char
                     (collapse_spaces_go
                        (String.length s - String.length (JS.trimStart s) - 1) r)
              else String c (collapse_spaces_go O r)
          end
      end
  end.

Definition collapse_spaces (s : string) : string := collapse_spaces_go O s.

(** [cleanupTweetContent] *)
Definition cleanupTweetContent (text : string) : string :=
  if negb (JS.truthy text) then ""
  else
    let cleanedText := strip_rt text in
    let quoteIndex := JS.indexOf cleanedText "Quote [@" in
    let cleanedText :=
      if negb (quoteIndex =? -1)%Z
      then JS.trim (JS.substring cleanedText 0 quoteIndex)
      else cleanedText in
    let cleanedText := remove_links ["https://"; "http://"] cleanedText in
    let cleanedText := remove_links ["t.co/"] cleanedText in
    let cleanedText := remove_links ["x.com/"] cleanedText in
    let cleanedText := remove_links ["twitter.com/"] cleanedText in
    let cleanedText := strip_trailing_ellipsis cleanedText in
    let cleanedText := collapse_spaces cleanedText in
    JS.trim cleanedText.

End TextUtils.

(** ** Format adapters ([websocketService.ts]) *)

Module Adapter.

(** A parsed JSON payload, as [JSON.parse] hands it to the adapters, plus
    [undefined] and [NaN], which arise while the adapters run.  The
    properties of an object have distinct keys.  Numbers are only tested
    for truthiness and copied, so integers stand for them. *)
Inductive JValue :=
| JUndefined
| JNull
| JBool (b : bool)
| JNum (n : Z)
| JNaN
| JStr (s : string)
| JArr (elems : list JValue)
| JObj (props : list (string * JValue)).

(** The outcome of a block that may throw. *)
Inductive Res (A : Type) :=
| Ok (a : A)
| Throw.
Arguments Ok {A} a.
Arguments Throw {A}.

Definition bind {A B} (r : Res A) (k : A -> Res B) : Res B :=
  match r with
  | Ok a => k a
  | Throw => Throw
  end.

Notation "'let!' x := r 'in' k" := (bind r (fun x => k))
  (at level 10, x name, r at level 100, k at level 200).

(** [try { body } catch { handler }] *)
Definition try_catch {A} (body : Res A) (handler : A) : A :=
  match body with
  | Ok a => a
  | Throw => handler
  end.

(** The readings one call of an adapter takes from its environment:
    one [Date.now()] per call site, the random suffix, what
    [new Date(v).getTime()] returns where [new Date(v)] does not throw
    ([None] is [NaN]), and what [document], where there is one, does for
    [decodeHtmlEntities] with the value assigned to [innerHTML] ([None]:
    the browser method throws). *)
Record Env := {
  now_id : Z;
  rnd_id : string;
  now_time : Z;
  now_err_id : Z;
  now_err_time : Z;
  dateGetTime : JValue -> option Z;
  document : option (JValue -> option string)
}.

(** [document], as it serves a string. *)
Definition text_document (e : Env) : option TextUtils.Document :=
  match document e with
  | Some dom => Some (fun t => dom (JStr t))
  | None => None
  end.

Definition truthy (v : JValue) : bool :=
  match v with
  | JUndefined | JNull | JNaN => false
  | JBool b => b
  | JNum n => negb (n =? 0)%Z
  | JStr s => JS.truthy s
  | JArr _ | JObj _ => true
  end.

(** [typeof v === 'object'] *)
Definition typeof_object (v : JValue) : bool :=
  match v with
  | JNull | JArr _ | JObj _ => true
  | _ => false
  end.

Fixpoint lookup (k : string) (ps : list (string * JValue)) : JValue :=
  match ps with
  | [] => JUndefined
  | (k', v) :: rest => if String.eqb k k' then v else lookup k rest
  end.

(** The property read [v.k], for a key that is neither an array index nor
    a built-in method name.  The source reads properties only from values
    it has found truthy or guards the read with [?.], so the read of a
    property of [undefined] or [null], which would throw, does not occur;
    it is given the value of the guarded read. *)
Definition prop (v : JValue) (k : string) : JValue :=
  match v with
  | JObj ps => lookup k ps
  | JArr l => if String.eqb k "length" then JNum (Z.of_nat (length l)) else JUndefined
  | JStr s => if String.eqb k "length" then JNum (Z.of_nat (String.length s)) else JUndefined
  | _ => JUndefined
  end.

Fixpoint update (k : string) (v : JValue) (ps : list (string * JValue))
  : list (string * JValue) :=
  match ps with
  | [] => [(k, v)]
  | (k', v') :: rest =>
      if String.eqb k k' then (k, v) :: rest else (k', v') :: update k v rest
  end.

(** The assignment [o.k = v] on an object. *)
Definition set_prop (o : JValue) (k : string) (v : JValue) : JValue :=
  match o with
  | JObj ps => JObj (update k v ps)
  | _ => o
  end.

(** [a || b] *)
Definition or_else (a b : JValue) : JValue := if truthy a then a else b.

(** [v === 's'] *)
Definition is_str (v : JValue) (s : string) : bool :=
  match v with
  | JStr t => String.eqb t s
  | _ => false
  end.

(** [Array.isArray(v)] *)
Definition isArray (v : JValue) : bool :=
  match v with
  | JArr _ => true
  | _ => false
  end.

(** [v?.includes(s)], read as a condition: a string searches for a
    substring, an array for an element, [undefined] and [null] stop the
    chain, and every other value has no [includes] to call. *)
Definition includes_opt (v : JValue) (s : string) : Res bool :=
  match v with
  | JUndefined | JNull => Ok false
  | JStr t => Ok (JS.includes t s)
  | JArr l => Ok (existsb (fun e => is_str e s) l)
  | _ => Throw
  end.

(** [decodeHtmlEntities(v)] applied to an unvalidated value: a falsy value
    gives ['']; where there is a [document] and the browser method does
    not throw, its result is returned with every line feed replaced;
    otherwise a string goes through the chain of [replace] calls, and any
    other value has no [replace] to call. *)
Definition decodeHtmlEntities (e : Env) (v : JValue) : Res string :=
  if negb (truthy v) then Ok ""
  else
    let fallback :=
      match v with
      | JStr s => Ok (TextUtils.decode_chain s)
      | _ => Throw
      end in
    match document e with
    | Some dom =>
        match dom v with
        | Some value => Ok (JS.replaceAll value TextUtils.newline " ")
        | None => fallback
        end
    | None => fallback
    end.

(** The conversion of [v] to a string raises a [TypeError]: [v] is an
    object with a property [toString] of its own, which in a parsed
    payload is never a function, or an array that holds such a value. *)
Fixpoint unprintable (v : JValue) : bool :=
  match v with
  | JObj ps => existsb (fun p => String.eqb (fst p) "toString") ps
  | JArr l => existsb unprintable l
  | _ => false
  end.

(** [new Date(v).getTime()]: the constructor converts an object or array
    to a primitive first, which can throw. *)
Definition getTime (e : Env) (v : JValue) : Res JValue :=
  if unprintable v then Throw
  else Ok match dateGetTime e v with
          | Some n => JNum n
          | None => JNaN
          end.

(** [`tree-${Date.now()}-${Math.random().toString(36).substring(2, 9)}`]
    and its siblings. *)
Definition synthetic_id (prefix : string) (e : Env) : string :=
  prefix +:+ "-" +:+ pretty (now_id e) +:+ "-" +:+ rnd_id e.

(** The object the [catch] block of an adapter returns. *)
Definition placeholder (label : string) (e : Env) : JValue :=
  JObj [("_id", JStr ("error-" +:+ label +:+ "-" +:+ pretty (now_err_id e)));
        ("title", JStr "Error processing news item");
        ("source", JStr "Error");
        ("time", JNum (now_err_time e));
        ("newsSource", JStr label)].

(** The [try] block of [convertTreeFormat].  The assignments to [item._id],
    [item.source] and [item.info.quotedUser.text] are carried by [id],
    [source'] and [info']. *)
Definition convertTreeFormat_try (e : Env) (item : JValue) : Res JValue :=
  if negb (truthy item) || negb (typeof_object item) then Throw
  else
    let id :=
      if negb (truthy (prop item "_id")) then JStr (synthetic_id "tree" e)
      else prop item "_id" in
    let! isTwitterOrXPost :=
      (if is_str (prop item "source") "X" then Ok true
       else if is_str (prop item "source") "Twitter" then Ok true
       else if truthy (prop (prop item "info") "twitterId")
            then includes_opt (prop item "title") "@"
            else Ok false) in
    let! title := decodeHtmlEntities e (or_else (prop item "title") (JStr "")) in
    let! body := decodeHtmlEntities e (or_else (prop item "body") (JStr "")) in
    let title :=
      if isTwitterOrXPost && JS.truthy title
      then TextUtils.cleanupTweetContent title else title in
    let source' := if isTwitterOrXPost then JStr "X" else prop item "source" in
    let quoted := prop (prop item "info") "quotedUser" in
    let! info' :=
      (if truthy (prop quoted "text")
       then let! text := decodeHtmlEntities e (prop quoted "text") in
            Ok (set_prop (prop item "info") "quotedUser"
                  (set_prop quoted "text" (JStr text)))
       else Ok (prop item "info")) in
    Ok (JObj [("_id", id);
              ("title", JStr title);
              ("body", JStr body);
              ("source", or_else source' (if isTwitterOrXPost then JStr "X" else JStr "News"));
              ("url", or_else (prop item "url") (prop item "link"));
              ("time", or_else (prop item "time") (JNum (now_time e)));
              ("suggestions",
                if isArray (prop item "suggestions") then prop item "suggestions" else JArr []);
              ("icon", prop item "icon");
              ("image", prop item "image");
              ("info", info');
              ("isHighlighted", prop item "isHighlighted");
              ("requireInteraction", prop item "requireInteraction");
              ("type", prop item "type");
              ("coin", prop item "coin");
              ("newsSource", JStr "tree")]).

Definition convertTreeFormat (e : Env) (item : JValue) : JValue :=
  try_catch (convertTreeFormat_try e item) (placeholder "tree" e).

(** The marker that introduces quoted content in a Phoenix body. *)
Definition quoteMarker : string := "&gt;&gt;QUOTE ".

(** [(.*?)\)] from the start of [s]: the shortest run of bytes holding
    no line terminator that a closing parenthesis follows. *)
Fixpoint lazy_until_close (s : string) : option string :=
  match s with
  | EmptyString => None
  | String c r =>
      if Ascii.eqb c ")" then Some EmptyString
      else if (0 <? JS.lt_len s)%nat then None
      else match lazy_until_close r with
           | Some g => Some (String c g)
           | None => None
           end
  end.

(** [\s*\((.*?)\)] from the start of [s].  The greedy [\s*] can only stop
    in front of the opening parenthesis after the whole run of white
    space. *)
Definition spaces_then_group (s : string) : option string :=
  match JS.trimStart s with
  | String c r => if Ascii.eqb c "(" then lazy_until_close r else None
  | EmptyString => None
  end.

(** [(.*?)\s*\((.*?)\)] anchored at the start of [s]: the lazy first
    group grows until the rest matches, and cannot grow over a line
    terminator. *)
Fixpoint match_here (s : string) : option (string * string) :=
  match spaces_then_group s with
  | Some g2 => Some (EmptyString, g2)
  | None =>
      match s with
      | EmptyString => None
      | String c r =>
          if (0 <? JS.lt_len s)%nat then None
          else match match_here r with
               | Some (g1, g2) => Some (String c g1, g2)
               | None => None
               end
      end
  end.

(** [s.match(/(.*?)\s*\((.*?)\)/)]: the two groups of the leftmost
    match.  The next start after a line terminator is the character
    behind it; [skip] counts the bytes of the terminator still to be
    passed. *)
Fixpoint username_match_go (skip : nat) (s : string) : option (string * string) :=
  match skip with
  | S k =>
      match s with
      | EmptyString => None
      | String _ r => username_match_go k r
      end
  | O =>
      match match_here s with
      | Some m => Some m
      | None =>
          match s with
          | EmptyString => None
          | String _ r => username_match_go (JS.lt_len s - 1) r
          end
      end
  end.

Definition username_match (s : string) : option (string * string) :=
  username_match_go O s.

(** The statements of the quote-parsing [try] block of
    [convertPhoenixFormat] on a string body: the new [title] and
    [quotedUser].  The innermost [try] calls string methods on strings
    only, so its [catch] is never entered. *)
Definition split_quote (body : string) : string * JValue :=
  let quoteIndex := JS.indexOf body quoteMarker in
  if negb (quoteIndex =? -1)%Z then
    let mainContent := JS.trim (JS.substring body 0 quoteIndex) in
    let quoteContent :=
      JS.substring_from body (quoteIndex + Z.of_nat (String.length quoteMarker)) in
    let usernameEndIndex := JS.indexOf quoteContent ")" in
    if negb (usernameEndIndex =? -1)%Z &&
       (usernameEndIndex <? Z.of_nat (String.length quoteContent))%Z
    then
      let quotedUserInfo := JS.substring quoteContent 0 (usernameEndIndex + 1) in
      let quotedContent := JS.trim (JS.substring_from quoteContent (usernameEndIndex + 1)) in
      let quotedUser :=
        try_catch
          (Ok match username_match quotedUserInfo with
              | Some (g1, g2) =>
                  let name := JS.trim g1 in
                  let screenName := JS.replaceFirst (JS.trim g2) "@" "" in
                  JObj [("name", JStr name);
                        ("screen_name", JStr screenName);
                        ("text", JStr quotedContent);
                        ("icon", JUndefined);
                        ("image", JNull)]
              | None =>
                  JObj [("name", JStr quotedUserInfo);
                        ("screen_name", JStr "");
                        ("text", JStr quotedContent);
                        ("icon", JNull);
                        ("image", JNull)]
              end)
          (JObj [("name", JStr "Unknown User");
                 ("screen_name", JStr "");
                 ("text", JStr quotedContent);
                 ("icon", JNull);
                 ("image", JNull)]) in
      (mainContent, quotedUser)
    else (body, JNull)
  else (body, JNull).

(** The quote-parsing [try] block on an unvalidated truthy [body]: a
    string is split; an array answers [indexOf] but has no [substring];
    any other value has no [indexOf]. *)
Definition quote_try (body : JValue) : Res (JValue * JValue) :=
  match body with
  | JStr b => let '(t, q) := split_quote b in Ok (JStr t, q)
  | JArr l =>
      if existsb (fun v => is_str v quoteMarker) l then Throw
      else Ok (body, JNull)
  | _ => Throw
  end.

(** [item.source === 'X' || item.source === 'Twitter' ||
    (item.twitterId && item.username)], read as a condition. *)
Definition phoenix_isTwitterOrXPost (item : JValue) : bool :=
  is_str (prop item "source") "X" ||
  is_str (prop item "source") "Twitter" ||
  (truthy (prop item "twitterId") && truthy (prop item "username")).

(** The first part of the [try] block of [convertPhoenixFormat]: [title],
    [body] and [quotedUser] before the entities are decoded. *)
Definition phoenix_text (isTwitterOrXPost : bool) (item : JValue)
  : JValue * JValue * JValue :=
  let title := or_else (prop item "title") (JStr "") in
  let body := or_else (prop item "body") (JStr "") in
  if isTwitterOrXPost && truthy body
  then let '(t, q) := try_catch (quote_try body) (body, JNull) in
       (t, JStr "", q)
  else (title, body, JNull).

(** [item.time || (item.createdAt ? new Date(item.createdAt).getTime() :
    (item.receivedAt ? new Date(item.receivedAt).getTime() : Date.now()))] *)
Definition phoenix_timestamp (e : Env) (item : JValue) : Res JValue :=
  if truthy (prop item "time") then Ok (prop item "time")
  else if truthy (prop item "createdAt") then getTime e (prop item "createdAt")
  else if truthy (prop item "receivedAt") then getTime e (prop item "receivedAt")
  else Ok (JNum (now_time e)).

(** The object literal [newsItem]. *)
Definition phoenix_fields (e : Env) (item : JValue) (isTwitterOrXPost : bool)
    (title body : string) (timestamp : JValue) : list (string * JValue) :=
  [("_id", or_else (prop item "_id") (JStr (synthetic_id "phoenix" e)));
   ("title", JStr title);
   ("body", JStr body);
   ("source",
     if isTwitterOrXPost then JStr "X"
     else or_else (prop item "sourceName") (or_else (prop item "source") (JStr "Unknown")));
   ("url", or_else (prop item "url") (JStr ""));
   ("time", timestamp);
   ("suggestions",
     if isArray (prop item "suggestions") then prop item "suggestions" else JArr []);
   ("icon", prop item "icon");
   ("image", prop item "image");
   ("newsSource", JStr "phoenix")].

(** [newsItem.info] of a Twitter/X post, with the quoted content
    attached when [item.isQuote] is set. *)
Definition phoenix_info (e : Env) (item quotedUser : JValue) : Res JValue :=
  let info :=
    JObj [("twitterId",
            or_else (prop item "twitterId") (or_else (prop item "tweetId") (JStr "")));
          ("isReply", JBool (truthy (prop item "isReply")));
          ("isRetweet", JBool (truthy (prop item "isRetweet")));
          ("isQuote", JBool (truthy (prop item "isQuote")));
          ("isSelfReply", JBool (truthy (prop item "isSelfReply")));
          ("username", or_else (prop item "username") (JStr ""));
          ("name", or_else (prop item "name") (JStr ""))] in
  if truthy (prop item "isQuote") then
    if truthy quotedUser then Ok (set_prop info "quotedUser" quotedUser)
    else if truthy (prop item "quotedUser") then
      let q := prop item "quotedUser" in
      let! text := decodeHtmlEntities e (or_else (prop q "text") (JStr "")) in
      Ok (set_prop info "quotedUser"
            (JObj [("name", or_else (prop q "name") (JStr ""));
                   ("screen_name", or_else (prop q "screen_name") (JStr ""));
                   ("icon", prop q "icon");
                   ("text", JStr text);
                   ("image", prop q "image")]))
    else Ok info
  else Ok info.

(** The [try] block of [convertPhoenixFormat]. *)
Definition convertPhoenixFormat_try (e : Env) (item : JValue) : Res JValue :=
  if negb (truthy item) || negb (typeof_object item) then Throw
  else
    let isTwitterOrXPost := phoenix_isTwitterOrXPost item in
    let '(title, body, quotedUser) := phoenix_text isTwitterOrXPost item in
    let! title := decodeHtmlEntities e title in
    let! body := decodeHtmlEntities e body in
    let title :=
      if isTwitterOrXPost then TextUtils.cleanupTweetContent title else title in
    let! timestamp := phoenix_timestamp e item in
    let newsItem := phoenix_fields e item isTwitterOrXPost title body timestamp in
    if isTwitterOrXPost then
      let! info := phoenix_info e item quotedUser in
      Ok (set_prop (JObj newsItem) "info" info)
    else Ok (JObj newsItem).

Definition convertPhoenixFormat (e : Env) (item : JValue) : JValue :=
  try_catch (convertPhoenixFormat_try e item) (placeholder "phoenix" e).

End Adapter.

(** ** The connection actor ([websocketService.ts]) *)

Module Actor.

(** [WebSocket.readyState] *)
Inductive ReadyState := CONNECTING | OPEN | CLOSING | CLOSED.

(** The fields of a [WebSocketService] that its close, error and
    reconnect handlers read or write.  [socket] holds the ready state of
    the transport, [reconnectTimeout] the delay in milliseconds of the
    pending reconnect timer.  Delays are rationals: with the attempt
    counter between 1 and 10 every value [1000 * 1.5^(n-1)] is a dyadic
    rational that a double holds exactly. *)
Record WebSocketService := {
  socket : option ReadyState;
  reconnectTimeout : option Q;
  heartbeatInterval : bool;
  url : string;
  isConnecting : bool;
  reconnectAttempts : Z;
  sourceType : NewsSource;
  authToken : option string;
  wasConnectedBefore : bool;
  isCleaned : bool;
  isHandlingErrorOrClose : bool;
  isCleanDisconnect : bool
}.

Definition maxReconnectAttempts : Z := 10.

(** [isConnected()] *)
Definition isConnected (w : WebSocketService) : bool :=
  match socket w with
  | Some OPEN => true
  | _ => false
  end.

Definition label (t : NewsSource) : string :=
  match t with
  | tree => "tree"
  | phoenix => "phoenix"
  end.

(** [setConnectionStatus] *)
Definition setConnectionStatus (w : WebSocketService) (b : bool)
    (st : Store.NewsState) : Store.NewsState :=
  match sourceType w with
  | tree => Store.setTreeConnected b st
  | phoenix => Store.setPhoenixConnected b st
  end.

(** [Math.min(1000 * Math.pow(1.5, attempts - 1), 60000)] *)
Definition backoff_delay (attempts : Z) : Q :=
  Qred (Qmin (1000 * Qpower (3 # 2) (attempts - 1)) 60000).

(** [scheduleReconnect] *)
Definition scheduleReconnect (w : WebSocketService) : WebSocketService :=
  match reconnectTimeout w with
  | Some _ => w
  | None =>
      if negb (JS.truthy (url w)) then w
      else
        let attempts := reconnectAttempts w + 1 in
        let attempts :=
          if (attempts >? maxReconnectAttempts)%Z then maxReconnectAttempts else attempts in
        let delay := backoff_delay attempts in
        {| socket := socket w;
           reconnectTimeout := Some delay;
           heartbeatInterval := heartbeatInterval w;
           url := url w;
           isConnecting := isConnecting w;
           reconnectAttempts := attempts;
           sourceType := sourceType w;
           authToken := authToken w;
           wasConnectedBefore := wasConnectedBefore w;
           isCleaned := isCleaned w;
           isHandlingErrorOrClose := isHandlingErrorOrClose w;
           isCleanDisconnect := isCleanDisconnect w |}
  end.

(** The reconnect timer fires and the connection attempt fails before the
    socket opens: [this.reconnectTimeout = null], nothing resets the
    attempt counter. *)
Definition reconnect_fails (w : WebSocketService) : WebSocketService :=
  {| socket := None;
     reconnectTimeout := None;
     heartbeatInterval := heartbeatInterval w;
     url := url w;
     isConnecting := false;
     reconnectAttempts := reconnectAttempts w;
     sourceType := sourceType w;
     authToken := authToken w;
     wasConnectedBefore := wasConnectedBefore w;
     isCleaned := isCleaned w;
     isHandlingErrorOrClose := isHandlingErrorOrClose w;
     isCleanDisconnect := isCleanDisconnect w |}.

(** The delays of [n] consecutive failures: each one schedules a
    reconnect, whose attempt fails in turn.  A failure that could not
    schedule contributes no delay. *)
Fixpoint failure_delays (n : nat) (w : WebSocketService) : list Q :=
  match n with
  | O => []
  | S k =>
      let w' := scheduleReconnect w in
      match reconnectTimeout w' with
      | Some d => d :: failure_delays k (reconnect_fails w')
      | None => failure_delays k (reconnect_fails w')
      end
  end.

(** A [WebSocketCloseEvent]. *)
Record CloseEvent := { code : option Z; reason : option string }.

(** The explanation [handleClose] derives from the event. *)
Definition close_reason (event : option CloseEvent) : string :=
  match event with
  | None => "Unknown reason"
  | Some ev =>
      let base :=
        match code ev with
        | Some 1000 => "Normal closure"
        | Some 1001 => "Server going down or client navigating away"
        | Some 1006 => "Abnormal closure, connection lost"
        | Some 1008 => "Policy violation"
        | Some 1011 => "Server error"
        | Some 1012 => "Server restarting"
        | Some 1013 => "Try again later"
        | _ => "Unknown reason"
        end in
      match reason ev with
      | Some r => if JS.truthy r then base +:+ ": " +:+ r else base
      | None => base
      end
  end.

(** What became of a close event. *)
Inductive Handling :=
| Ignored   (* the instance was cleaned up *)
| Requeued  (* another handler is running: retried after 100 ms *)
| Handled.

Definition set_handling (b : bool) (w : WebSocketService) : WebSocketService :=
  {| socket := socket w;
     reconnectTimeout := reconnectTimeout w;
     heartbeatInterval := heartbeatInterval w;
     url := url w;
     isConnecting := isConnecting w;
     reconnectAttempts := reconnectAttempts w;
     sourceType := sourceType w;
     authToken := authToken w;
     wasConnectedBefore := wasConnectedBefore w;
     isCleaned := isCleaned w;
     isHandlingErrorOrClose := b;
     isCleanDisconnect := isCleanDisconnect w |}.

(** [this.socket = null], then [this.isConnecting = false] when
    [reconnecting], then [this.isCleanDisconnect = false]. *)
Definition closed (reconnecting : bool) (w : WebSocketService) : WebSocketService :=
  {| socket := None;
     reconnectTimeout := reconnectTimeout w;
     heartbeatInterval := heartbeatInterval w;
     url := url w;
     isConnecting := if reconnecting then false else isConnecting w;
     reconnectAttempts := reconnectAttempts w;
     sourceType := sourceType w;
     authToken := authToken w;
     wasConnectedBefore := wasConnectedBefore w;
     isCleaned := isCleaned w;
     isHandlingErrorOrClose := isHandlingErrorOrClose w;
     isCleanDisconnect := isCleanDisconnect w |}.

Definition clear_clean_flag (w : WebSocketService) : WebSocketService :=
  {| socket := socket w;
     reconnectTimeout := reconnectTimeout w;
     heartbeatInterval := heartbeatInterval w;
     url := url w;
     isConnecting := isConnecting w;
     reconnectAttempts := reconnectAttempts w;
     sourceType := sourceType w;
     authToken := authToken w;
     wasConnectedBefore := wasConnectedBefore w;
     isCleaned := isCleaned w;
     isHandlingErrorOrClose := isHandlingErrorOrClose w;
     isCleanDisconnect := false |}.

(** [handleClose] *)
Definition handleClose (event : option CloseEvent) (w : WebSocketService)
    (st : Store.NewsState) : WebSocketService * Store.NewsState * Handling :=
  if isCleaned w then (w, st, Ignored)
  else if isHandlingErrorOrClose w then (w, st, Requeued)
  else
    let w := set_handling true w in
    let reason := close_reason event in
    let st :=
      if negb (isCleanDisconnect w)
      then Store.setError
             (Some ("[" +:+ label (sourceType w) +:+ "] Connection closed: " +:+ reason)) st
      else st in
    let st := setConnectionStatus w false st in
    let w :=
      if negb (isCleanDisconnect w)
      then scheduleReconnect (closed true w)
      else closed false w in
    let w := clear_clean_flag w in
    let st := Store.setIsLoading false st in
    (set_handling false w, st, Handled).

(** The states of the specification's connection state machine, read off
    the fields. *)
Inductive ConnectionState :=
| Disconnected | Connecting | Connected | Closing | ReconnectPending.

Definition state_of (w : WebSocketService) : ConnectionState :=
  match socket w with
  | Some OPEN => Connected
  | Some CLOSING => Closing
  | _ =>
      if isConnecting w then Connecting
      else match reconnectTimeout w with
           | Some _ => ReconnectPending
           | None => Disconnected
           end
  end.

End Actor.

(** ** The vocabulary of the properties *)

Module Spec.

Section WithCase.

Context {U : JS.CaseMapping}.

(** A case-insensitive substring test: both sides are folded to lower
    case. *)
Definition ci_includes (text k : string) : bool :=
  JS.includes (JS.toLowerCase text) (JS.toLowerCase k).

(** The text of an optional field, empty when the field is missing. *)
Definition text_of (o : option string) : string :=
  match o with
  | Some s => s
  | None => ""
  end.

(** [findMatch(event, keywords)]: the first keyword of the list, in list
    order, that occurs in the title or in the body, letter case ignored. *)
Definition findMatch (event : NewsItem) (keywords : list FilterKeyword) : option string :=
  match List.find (fun f => ci_includes (text_of (title event)) (keyword f) ||
                            ci_includes (text_of (body event)) (keyword f)) keywords with
  | Some f => Some (keyword f)
  | None => None
  end.

(** The keywords as [addFilterKeyword] stores them: in lower case. *)
Definition lower_case (keywords : list FilterKeyword) : Prop :=
  Forall (fun f => JS.toLowerCase (keyword f) = keyword f) keywords.

(** An item is a Twitter/X post. *)
Definition twitter_post (n : NewsItem) : Prop :=
  source n = "X" \/ source n = "Twitter" \/
  (exists i tid t a b,
      info n = Some i /\ twitterId i = Some tid /\ tid <> "" /\
      title n = Some t /\ t = a +:+ "@" +:+ b).

(** Two events share a de-duplication key: the same [_id], the same
    non-empty [url], or the same non-empty [title]. *)
Definition share_key (a b : NewsItem) : Prop :=
  _id a = _id b \/
  (exists u, u <> "" /\ url a = Some u /\ url b = Some u) \/
  (exists t, t <> "" /\ title a = Some t /\ title b = Some t).

(** The de-duplication invariant: no two entries share a key. *)
Inductive dedup : list NewsItem -> Prop :=
| dedup_nil : dedup []
| dedup_cons x l : Forall (fun y => ~ share_key x y) l -> dedup l -> dedup (x :: l).

(** Sorted by [time], newest first. *)
Definition sorted_desc (l : list NewsItem) : Prop :=
  StronglySorted (fun a b => num_le (time b) (time a)) l.

(** Every [time] of the list is a number. *)
Definition timed (l : list NewsItem) : Prop :=
  Forall (fun a => is_num (time a) = true) l.

(** The highlight heuristics, as the specification lists them: the title
    is fully upper case, or the source is the priority source, or a tag
    names a major coin, or a keyword matched. *)
Definition highlight (n : NewsItem) (k : option string) : Prop :=
  (exists t, title n = Some t /\ JS.toUpperCase t = t) \/
  source n = "Terminal" \/
  (exists l s, suggestions n = Some l /\ In s l /\ (coin s = "BTC" \/ coin s = "ETH")) \/
  k <> None.










(** [s] splits as [a], then the first occurrence of [n], then [b]. *)
Definition first_at (s n a b : string) : Prop :=
  s = a +:+ n +:+ b /\
  forall a' b', s = a' +:+ n +:+ b' -> (String.length a <= String.length a')%nat.

(** Every byte of [s] passes the test [f]. *)
Fixpoint all_chars (f : ascii -> bool) (s : string) : bool :=
  match s with
  | EmptyString => true
  | String c r => f c && all_chars f r
  end.

(** [s] does not hold the byte [c]. *)
Definition without (c : ascii) (s : string) : bool :=
  all_chars (fun x => negb (Ascii.eqb x c)) s.

(** A continuation byte of UTF-8: 128 to 191. *)
Definition continuation (c : ascii) : bool :=
  let n := nat_of_ascii c in (128 <=? n)%nat && (n <? 192)%nat.

(** [x] is empty or starts at a character boundary: its first byte is no
    continuation byte. *)
Definition at_boundary (x : string) : bool :=
  match x with
  | EmptyString => true
  | String c _ => negb (continuation c)
  end.

(** A lead byte followed by continuation bytes only. *)
Definition one_char (w : string) : bool :=
  match w with
  | EmptyString => false
  | String c r => negb (continuation c) && all_chars continuation r
  end.

(** The decoder of the browser, where there is one, returns a text
    without [&], [<], carriage return, line feed and NUL as it is. *)
Definition plain_text (s : string) : bool :=
  without "&" s && without "<" s && without (ascii_of_nat 13) s &&
  without (ascii_of_nat 10) s && without (ascii_of_nat 0) s.

Definition plain_decoder (e : Adapter.Env) : Prop :=
  forall dom s, Adapter.document e = Some dom -> plain_text s = true ->
                dom (Adapter.JStr s) = Some s.

(** The offset of the first occurrence of [n] in [s], if there is one. *)
Fixpoint find_index (s n : string) : option nat :=
  if JS.startsWith s n then Some O
  else match s with
       | EmptyString => None
       | String _ r =>
           match find_index r n with
           | Some k => Some (S k)
           | None => None
           end
       end.

(** [s] does not end in white space. *)
Definition no_trailing_space (s : string) : bool := String.eqb (JS.trimEnd s) s.

(** [s] holds no line terminator. *)
Definition one_line (s : string) : bool :=
  forallb (fun t => negb (JS.includes s t)) JS.line_terminators.

(** A run of repeated requests to notify one event and keyword: before
    the request made at time [t], the timers due by [t] fire. *)
Fixpoint replay (newsItem : NewsItem) (matchedKeyword : string)
    (reqs : list (Z * Notification.Ambient)) (s : Notification.Service)
  : Notification.Service :=
  match reqs with
  | [] => s
  | (t, a) :: rest =>
      replay newsItem matchedKeyword rest
        (Notification.scheduleNotification a t newsItem matchedKeyword
           (Notification.advance a t s))
  end.

(** The platform notifier takes the call and does not ask for a retry:
    on the web the service knows notifications to be supported and
    granted, on a phone the call succeeds. *)
Definition accepts (a : Notification.Ambient) (s : Notification.Service) : bool :=
  if Notification.is_web a
  then Notification.webNotificationsSupported s &&
       String.eqb (Notification.webNotificationsPermission s) "granted"
  else Notification.delivered a.

(** A pending timer that expires the cache entry of another
    notification. *)
Definition other_expiry (id : string) (p : Z * Notification.Callback) : Prop :=
  exists id', snd p = Notification.Expire id' /\ id' <> id.

(** While the entry of [id] is in the cache: the service is initialised,
    and the pending timers are the expiry of [id], due at the end of the
    window that opened at [t0], and expiries of other entries. *)
Definition in_window (id : string) (t0 : Z) (s : Notification.Service) : Prop :=
  id ∈ Notification.recentNotifications s /\
  Notification.isInitialized s = true /\
  Forall (fun p => p = (t0 + Notification.NOTIFICATION_DEDUPE_WINDOW, Notification.Expire id)
                   \/ other_expiry id p)
         (Notification.timers s).

(** The invariant of the store: no shared keys, and every [_id] is a
    non-empty string. *)
Definition store_ok (l : list NewsItem) : Prop :=
  dedup l /\ Forall (fun x => _id x <> "") l.

(** The attempt counter after [scheduleReconnect] has Spec.capped it. *)
Definition capped (attempts : Z) : Z :=
  if (attempts >? Actor.maxReconnectAttempts)%Z then Actor.maxReconnectAttempts else attempts.

End WithCase.

End Spec.

(** * Further code of the same files *)

(** ** The keyword actions of the store ([store/newsStore.ts]) *)

Module Keywords.

Section WithCase.

Context {U : JS.CaseMapping}.

(** [set({ filterKeywords })] *)
Definition set_filterKeywords (l : list FilterKeyword) (s : Store.NewsState) : Store.NewsState :=
  {| Store.news := Store.news s; Store.isLoading := Store.isLoading s;
     Store.error := Store.error s;
     Store.treeConnected := Store.treeConnected s;
     Store.phoenixConnected := Store.phoenixConnected s;
     Store.filterKeywords := l; Store.serverConfig := Store.serverConfig s;
     Store.showTwitterPosts := Store.showTwitterPosts s;
     Store.disableApiRequests := Store.disableApiRequests s |}.

(** [addFilterKeyword]; the id of a new entry is [Date.now().toString()]. *)
Definition addFilterKeyword (c : Clock) (kw : string) (state : Store.NewsState)
  : Store.NewsState :=
  let normalizedKeyword := JS.trim (JS.toLowerCase kw) in
  if negb (JS.truthy normalizedKeyword) then state
  else if existsb (fun k => String.eqb (keyword k) normalizedKeyword)
                  (Store.filterKeywords state)
  then state
  else set_filterKeywords
         (Store.filterKeywords state ++
            [{| fk_id := pretty (now c); keyword := normalizedKeyword |}])
         state.

(** [removeFilterKeyword] *)
Definition removeFilterKeyword (id : string) (state : Store.NewsState) : Store.NewsState :=
  set_filterKeywords
    (List.filter (fun k => negb (String.eqb (fk_id k) id)) (Store.filterKeywords state))
    state.

(** What the keyword screen can do to the list. *)
Inductive Action :=
| Add (c : Clock) (kw : string)
| Remove (id : string).

Definition act (a : Action) (state : Store.NewsState) : Store.NewsState :=
  match a with
  | Add c kw => addFilterKeyword c kw state
  | Remove id => removeFilterKeyword id state
  end.

Fixpoint run (l : list Action) (state : Store.NewsState) : Store.NewsState :=
  match l with
  | [] => state
  | a :: rest => run rest (act a state)
  end.

(** The keyword list is as [addFilterKeyword] makes it: every keyword
    trimmed and not empty, and no keyword twice. *)
Definition normalized (l : list FilterKeyword) : Prop :=
  Forall (fun f => JS.trim (keyword f) = keyword f /\ keyword f <> "") l /\
  NoDup (map keyword l).

(** The keywords that a run of actions adds, as typed. *)
Fixpoint added (l : list Action) : list string :=
  match l with
  | [] => []
  | Add _ kw :: rest => kw :: added rest
  | Remove _ :: rest => added rest
  end.

End WithCase.

End Keywords.

(** ** Ingestion paths into the store *)

Module Ingest.

Section WithCase.

Context {U : JS.CaseMapping}.

(** [newsItem.matchedKeyword = ...] *)
Definition with_matchedKeyword (k : option string) (n : NewsItem) : NewsItem :=
  {| _id := _id n; title := title n; body := body n; source := source n;
     url := url n; time := time n; symbols_of := symbols_of n;
     suggestions := suggestions n; icon := icon n; image := image n;
     info := info n; isHighlighted := isHighlighted n;
     requireInteraction := requireInteraction n; type_of := type_of n;
     coin_of := coin_of n; matchedKeyword := k;
     newsSource := newsSource n |}.

(** [processNewsItem] of [websocketService.ts]: the path of every item that
    arrives over a socket. *)
Definition processNewsItem (c : Clock) (newsItem : NewsItem) (st : Store.NewsState)
  : Store.NewsState * list Store.Scheduled :=
  if negb (Store.showTwitterPosts st) && Store.isTwitterOrXPost newsItem
  then (st, [])
  else
    let matchedKeyword :=
      match Store.filterKeywords st with
      | [] => None
      | _ =>
          Notification.first_match
            (Notification.lower_or_empty (title newsItem))
            (Notification.lower_or_empty (body newsItem))
            (Store.filterKeywords st)
      end in
    let newsItem :=
      if JS.truthy_opt matchedKeyword then with_matchedKeyword matchedKeyword newsItem
      else newsItem in
    Store.addNews c newsItem st.

(** The end of [fetchTreeNews] and [fetchPhoenixNews] of [apiService.ts]:
    the processed response is merged into the list and stored.  [snapshot]
    is the state read by [getState()] before the request was sent,
    [current] the state of the store when the response is stored. *)
Definition mergeFetched (processedNews : list NewsItem)
    (snapshot current : Store.NewsState) : Store.NewsState :=
  let existingNews := Store.news snapshot in
  let newNews :=
    List.filter (fun newItem => negb (existsb (Store.duplicate_of newItem) existingNews))
                processedNews in
  let combinedNews :=
    take 100 (JS.sort Store.by_time_desc (existingNews ++ newNews)) in
  Store.setIsLoading false (Store.set_news combinedNews current).

End WithCase.

End Ingest.

(** A decision procedure for [Spec.sorted_desc]. *)
Fixpoint sorted_descb (l : list NewsItem) : bool :=
  match l with
  | [] => true
  | x :: r =>
      forallb (fun y => match time y, time x with
                        | Num a, Num b => (a <=? b)%Z
                        | _, _ => false
                        end) r && sorted_descb r
  end.

(** ** The HTTP client ([services/apiService.ts]) *)

Module Api.

(** How one [Promise.race] of [fetch] against the timer ends: with a
    response, with a rejection of [fetch] (an error of that message), or
    with the timer's [Error('Request timeout')]. *)
Inductive Attempt :=
| Responded (ok : bool) (status : Z)
| Rejected (message : string)
| TimedOut.

(** How [fetchWithRetry] ends: it returns the response or throws an error
    of that message. *)
Inductive Outcome :=
| Returned (status : Z)
| Threw (message : string).

(** The [try] block of one attempt: it returns the response ([inl], with
    its status) or throws an error of that message ([inr]). *)
Definition attempt_result (a : Attempt) : Z + string :=
  match a with
  | Responded true status => inl status
  | Responded false status => inr ("HTTP error! Status: " +:+ pretty status)
  | Rejected message => inr message
  | TimedOut => inr "Request timeout"
  end.

(** [Math.min(1000 * Math.pow(2, attempt - 1), 10000)] *)
Definition retry_delay (attempt : Z) : Z := Z.min (1000 * 2 ^ (attempt - 1)) 10000.

(** The delays slept before an attempt. *)
Definition wait_before (attempt : Z) : list Z :=
  if (attempt >? 0)%Z then [retry_delay attempt] else [].

(** [message.includes('CORS') || message.includes('cross-origin')] *)
Definition is_cors (message : string) : bool :=
  JS.includes message "CORS" || JS.includes message "cross-origin".

(** The [for] loop of [fetchWithRetry] with [remaining] iterations to go;
    [net] tells how the attempt of each number ends.  The result is the
    outcome and the delays slept, in order. *)
Fixpoint attempts_from (remaining : nat) (attempt : Z) (net : Z -> Attempt)
    (lastError : option string) : Outcome * list Z :=
  match remaining with
  | O =>
      (Threw (match lastError with
              | Some m => m
              | None => "All retry attempts failed"
              end), [])
  | S k =>
      match attempt_result (net attempt) with
      | inl status => (Returned status, wait_before attempt)
      | inr m =>
          if is_cors m then (Threw m, wait_before attempt)
          else
            let (o, w) := attempts_from k (attempt + 1) net (Some m) in
            (o, (wait_before attempt ++ w)%list)
      end
  end.

(** [fetchWithRetry(url, options, retries)]: the loop runs for
    [attempt = 0, ..., retries]. *)
Definition fetchWithRetry (retries : Z) (net : Z -> Attempt) : Outcome * list Z :=
  attempts_from (Z.to_nat (retries + 1)) 0 net None.

(** The [label] of a source in the messages. *)
Definition label (src : NewsSource) : string :=
  match src with
  | tree => "Tree"
  | phoenix => "Phoenix"
  end.

(** The message the [catch] block of a fetch shows for an [Error]. *)
Definition errorMessage (src : NewsSource) (message : string) : string :=
  if JS.includes message "timeout"
  then label src +:+ " API request timed out. Server may be unavailable."
  else if JS.includes message "Network request failed"
  then "Network connection issue. Check your internet."
  else if JS.includes message "CORS" || JS.includes message "cross-origin"
  then "CORS error: " +:+ label src +:+
       " API not accessible from web browser. Try using the mobile app."
  else label src +:+ " API error: " +:+ message.

(** What the awaited part of a fetch delivers: how the attempts end, what
    [data.map] makes of the body of a response ([inl m]: reading or
    mapping the body threw an [Error] of message [m]), and what the rest of
    the program does to the store in the meantime. *)
Record Exchange := {
  net : Z -> Attempt;
  processedNews : string + list NewsItem;
  during : Store.NewsState -> Store.NewsState
}.

(** The [catch] block of a fetch. *)
Definition failed (src : NewsSource) (message : string) (current : Store.NewsState)
  : Store.NewsState :=
  Store.setIsLoading false (Store.setError (Some (errorMessage src message)) current).

(** [fetchTreeNews]; [store] is the state read by [getState()] on entry. *)
Definition fetchTreeNews (mockNews : list NewsItem) (x : Exchange) (store : Store.NewsState)
  : Store.NewsState :=
  let current := during x (Store.setError None (Store.setIsLoading true store)) in
  let catch message :=
    let s := failed tree message current in
    if (List.length (Store.news store) =? 0)%nat then Store.set_news mockNews s else s in
  match fst (fetchWithRetry 2 (net x)) with
  | Returned _ =>
      match processedNews x with
      | inr processed => Ingest.mergeFetched processed store current
      | inl message => catch message
      end
  | Threw message => catch message
  end.

(** [fetchPhoenixNews] *)
Definition fetchPhoenixNews (x : Exchange) (store : Store.NewsState) : Store.NewsState :=
  let current := during x (Store.setIsLoading true store) in
  match fst (fetchWithRetry 2 (net x)) with
  | Returned _ =>
      match processedNews x with
      | inr processed => Ingest.mergeFetched processed store current
      | inl message => failed phoenix message current
      end
  | Threw message => failed phoenix message current
  end.

(** The delays of the retries [1, ..., k] after attempt [a]. *)
Definition delays (a : Z) (k : nat) : list Z :=
  map (fun i => retry_delay (a + Z.of_nat i)) (seq 1 k).

(** What one attempt decides: a response is returned, an error that
    mentions CORS is thrown at once, any other error leads to the next
    iteration. *)
Definition decided (a : Attempt) : option Outcome :=
  match attempt_result a with
  | inl status => Some (Returned status)
  | inr m => if is_cors m then Some (Threw m) else None
  end.

End Api.

(** ** The background task ([backgroundService.ts]) *)

Module Background.

(** The module-level object [reconnectAttempts]. *)
Record Attempts := { tree_attempts : Z; phoenix_attempts : Z }.

Definition MAX_RECONNECT_ATTEMPTS : Z := 10.
Definition INITIAL_RECONNECT_DELAY : Z := 1000.
Definition MAX_RECONNECT_DELAY : Z := 60000.

(** [Math.min(INITIAL_RECONNECT_DELAY * Math.pow(2, attempts),
    MAX_RECONNECT_DELAY)] *)
Definition reconnect_delay (attempts : Z) : Z :=
  Z.min (INITIAL_RECONNECT_DELAY * 2 ^ attempts) MAX_RECONNECT_DELAY.

(** [config || globalThis.config] *)
Definition or_global (config : string) (global : option string) : option string :=
  if JS.truthy config then Some config else global.

(** The branch of one source: the new value of its counter and the delay
    of the timer it sets, if it sets one.  When the timer fires it calls
    [resetReconnectAttempts()] and [connect(url, token)] on the service. *)
Definition check_source (connected : bool) (wsUrl : option string) (attempts : Z)
  : Z * option Z :=
  if negb connected && JS.truthy_opt wsUrl
  then
    if (attempts <? MAX_RECONNECT_ATTEMPTS)%Z
    then (attempts + 1, Some (reconnect_delay attempts))
    else (attempts, None)
  else if connected then (0, None)
  else (attempts, None).

(** What the function reads: the server configuration of the store, the
    globals it falls back on, and [isConnected()] of the two services. *)
Record World := {
  config : ServerConfig;
  global_treeWebsocketUrl : option string;
  global_phoenixWebsocketUrl : option string;
  tree_connected : bool;
  phoenix_connected : bool
}.

(** [checkAndReconnectWebSockets]: the counters afterwards and the timers
    set, in order. *)
Definition checkAndReconnectWebSockets (env : World) (r : Attempts)
  : Attempts * list (NewsSource * Z) :=
  let treeWsUrl := or_global (treeWebsocketUrl (config env)) (global_treeWebsocketUrl env) in
  let phoenixWsUrl :=
    or_global (phoenixWebsocketUrl (config env)) (global_phoenixWebsocketUrl env) in
  if negb (JS.truthy_opt treeWsUrl) || negb (JS.truthy_opt phoenixWsUrl) then (r, [])
  else
    let (t, td) := check_source (tree_connected env) treeWsUrl (tree_attempts r) in
    let (p, pd) := check_source (phoenix_connected env) phoenixWsUrl (phoenix_attempts r) in
    ({| tree_attempts := t; phoenix_attempts := p |},
     (match td with Some d => [(tree, d)] | None => [] end ++
      match pd with Some d => [(phoenix, d)] | None => [] end)%list).

(** The task runs [n] times; [env k] is what the [k]-th run reads.  The
    result is the counters afterwards and the timers of each run. *)
Fixpoint runs (n : nat) (k : nat) (env : nat -> World) (r : Attempts)
  : Attempts * list (list (NewsSource * Z)) :=
  match n with
  | O => (r, [])
  | S m =>
      let (r1, timers) := checkAndReconnectWebSockets (env k) r in
      let (r2, rest) := runs m (S k) env r1 in
      (r2, timers :: rest)
  end.

(** The counter of a source, what a run reads about it, and the delays
    of the timers a run set for it. *)
Definition attempts_of (src : NewsSource) (r : Attempts) : Z :=
  match src with
  | tree => tree_attempts r
  | phoenix => phoenix_attempts r
  end.

Definition connected_of (src : NewsSource) (env : World) : bool :=
  match src with
  | tree => tree_connected env
  | phoenix => phoenix_connected env
  end.

Fixpoint timers_of (src : NewsSource) (timers : list (NewsSource * Z)) : list Z :=
  match timers with
  | [] => []
  | (s, d) :: rest =>
      match src, s with
      | tree, tree | phoenix, phoenix => d :: timers_of src rest
      | _, _ => timers_of src rest
      end
  end.

(** Both URLs are configured, in the store or in the globals. *)
Definition urls_known (env : World) : bool :=
  JS.truthy_opt (or_global (treeWebsocketUrl (config env)) (global_treeWebsocketUrl env)) &&
  JS.truthy_opt (or_global (phoenixWebsocketUrl (config env))
                           (global_phoenixWebsocketUrl env)).

End Background.

(** ** The calls of the platform notifier *)

Module Notify.

Section WithCase.

Context {U : JS.CaseMapping}.

(** The call [scheduleNotification] makes for an event and a keyword: the
    title [`${newsItem.source}: ${matchedKeyword.toUpperCase()} Alert`] and
    the body [newsItem.title || 'New crypto alert']. *)
Definition dispatch_of (newsItem : NewsItem) (matchedKeyword : string)
  : Notification.Dispatch :=
  {| Notification.d_title :=
       source newsItem +:+ ": " +:+ JS.toUpperCase matchedKeyword +:+ " Alert";
     Notification.d_body :=
       match title newsItem with
       | Some x => if JS.truthy x then x else "New crypto alert"
       | None => "New crypto alert"
       end;
     Notification.d_item := newsItem |}.

(** A pending timer that expires a cache entry. *)
Definition is_expiry (p : Z * Notification.Callback) : Prop :=
  exists id, snd p = Notification.Expire id.

End WithCase.

End Notify.

(** ** The shape of cleaned text *)

Module Text.

(** No two white-space characters stand next to each other. *)
Fixpoint single_spaced (s : string) : bool :=
  match s with
  | EmptyString => true
  | String _ r =>
      negb ((0 <? JS.ws_len s)%nat && (0 <? JS.ws_len (JS.drop (JS.ws_len s) s))%nat)
      && single_spaced r
  end.

(** The literal heads of the links [cleanupTweetContent] removes: the
    patterns are such a head followed by [\S+]. *)
Definition url_heads : list string :=
  ["https://"; "http://"; "t.co/"; "x.com/"; "twitter.com/"].

(** [s] is empty or starts with white space: [\S] does not match at its
    head. *)
Definition head_space (s : string) : bool :=
  match s with
  | EmptyString => true
  | String _ _ => (0 <? JS.ws_len s)%nat
  end.

(** A byte that neither continues a character nor starts a white-space
    character. *)
Definition plain (c : ascii) : bool :=
  negb (Spec.continuation c) &&
  forallb (fun w => negb (JS.startsWith w (String c EmptyString))) JS.white_space.

(** A literal made of such bytes. *)
Definition word (w : string) : bool :=
  negb (String.eqb w "") && Spec.all_chars plain w.

(** [lit\S+] matches at the head of [s]. *)
Definition linked (lit s : string) : bool :=
  JS.startsWith s lit && negb (head_space (JS.drop (String.length lit) s)).

(** [lit\S+] matches somewhere in [s]. *)
Fixpoint has_link (lit s : string) : bool :=
  linked lit s ||
  match s with
  | EmptyString => false
  | String _ r => has_link lit r
  end.

End Text.

(** ** The other handlers of the connection actor ([websocketService.ts]) *)

Module Lifecycle.

Import Actor.

(** Assignments to single fields. *)
Definition with_socket (x : option ReadyState) (w : WebSocketService) : WebSocketService :=
  {| socket := x; reconnectTimeout := reconnectTimeout w;
     heartbeatInterval := heartbeatInterval w; url := url w;
     isConnecting := isConnecting w; reconnectAttempts := reconnectAttempts w;
     sourceType := sourceType w; authToken := authToken w;
     wasConnectedBefore := wasConnectedBefore w; isCleaned := isCleaned w;
     isHandlingErrorOrClose := isHandlingErrorOrClose w;
     isCleanDisconnect := isCleanDisconnect w |}.

Definition with_reconnectTimeout (x : option Q) (w : WebSocketService) : WebSocketService :=
  {| socket := socket w; reconnectTimeout := x;
     heartbeatInterval := heartbeatInterval w; url := url w;
     isConnecting := isConnecting w; reconnectAttempts := reconnectAttempts w;
     sourceType := sourceType w; authToken := authToken w;
     wasConnectedBefore := wasConnectedBefore w; isCleaned := isCleaned w;
     isHandlingErrorOrClose := isHandlingErrorOrClose w;
     isCleanDisconnect := isCleanDisconnect w |}.

Definition with_heartbeatInterval (x : bool) (w : WebSocketService) : WebSocketService :=
  {| socket := socket w; reconnectTimeout := reconnectTimeout w;
     heartbeatInterval := x; url := url w;
     isConnecting := isConnecting w; reconnectAttempts := reconnectAttempts w;
     sourceType := sourceType w; authToken := authToken w;
     wasConnectedBefore := wasConnectedBefore w; isCleaned := isCleaned w;
     isHandlingErrorOrClose := isHandlingErrorOrClose w;
     isCleanDisconnect := isCleanDisconnect w |}.

(** [this.url = url; this.authToken = token] *)
Definition with_target (u : string) (token : option string) (w : WebSocketService)
  : WebSocketService :=
  {| socket := socket w; reconnectTimeout := reconnectTimeout w;
     heartbeatInterval := heartbeatInterval w; url := u;
     isConnecting := isConnecting w; reconnectAttempts := reconnectAttempts w;
     sourceType := sourceType w; authToken := token;
     wasConnectedBefore := wasConnectedBefore w; isCleaned := isCleaned w;
     isHandlingErrorOrClose := isHandlingErrorOrClose w;
     isCleanDisconnect := isCleanDisconnect w |}.

Definition with_isConnecting (x : bool) (w : WebSocketService) : WebSocketService :=
  {| socket := socket w; reconnectTimeout := reconnectTimeout w;
     heartbeatInterval := heartbeatInterval w; url := url w;
     isConnecting := x; reconnectAttempts := reconnectAttempts w;
     sourceType := sourceType w; authToken := authToken w;
     wasConnectedBefore := wasConnectedBefore w; isCleaned := isCleaned w;
     isHandlingErrorOrClose := isHandlingErrorOrClose w;
     isCleanDisconnect := isCleanDisconnect w |}.

Definition with_reconnectAttempts (x : Z) (w : WebSocketService) : WebSocketService :=
  {| socket := socket w; reconnectTimeout := reconnectTimeout w;
     heartbeatInterval := heartbeatInterval w; url := url w;
     isConnecting := isConnecting w; reconnectAttempts := x;
     sourceType := sourceType w; authToken := authToken w;
     wasConnectedBefore := wasConnectedBefore w; isCleaned := isCleaned w;
     isHandlingErrorOrClose := isHandlingErrorOrClose w;
     isCleanDisconnect := isCleanDisconnect w |}.

Definition with_wasConnectedBefore (x : bool) (w : WebSocketService) : WebSocketService :=
  {| socket := socket w; reconnectTimeout := reconnectTimeout w;
     heartbeatInterval := heartbeatInterval w; url := url w;
     isConnecting := isConnecting w; reconnectAttempts := reconnectAttempts w;
     sourceType := sourceType w; authToken := authToken w;
     wasConnectedBefore := x; isCleaned := isCleaned w;
     isHandlingErrorOrClose := isHandlingErrorOrClose w;
     isCleanDisconnect := isCleanDisconnect w |}.

Definition with_isCleaned (x : bool) (w : WebSocketService) : WebSocketService :=
  {| socket := socket w; reconnectTimeout := reconnectTimeout w;
     heartbeatInterval := heartbeatInterval w; url := url w;
     isConnecting := isConnecting w; reconnectAttempts := reconnectAttempts w;
     sourceType := sourceType w; authToken := authToken w;
     wasConnectedBefore := wasConnectedBefore w; isCleaned := x;
     isHandlingErrorOrClose := isHandlingErrorOrClose w;
     isCleanDisconnect := isCleanDisconnect w |}.

Definition with_isCleanDisconnect (x : bool) (w : WebSocketService) : WebSocketService :=
  {| socket := socket w; reconnectTimeout := reconnectTimeout w;
     heartbeatInterval := heartbeatInterval w; url := url w;
     isConnecting := isConnecting w; reconnectAttempts := reconnectAttempts w;
     sourceType := sourceType w; authToken := authToken w;
     wasConnectedBefore := wasConnectedBefore w; isCleaned := isCleaned w;
     isHandlingErrorOrClose := isHandlingErrorOrClose w;
     isCleanDisconnect := x |}.

(** [stopHeartbeat], [startHeartbeat] *)
Definition stopHeartbeat (w : WebSocketService) : WebSocketService :=
  with_heartbeatInterval false w.

Definition startHeartbeat (w : WebSocketService) : WebSocketService :=
  with_heartbeatInterval true (stopHeartbeat w).

(** [if (this.reconnectTimeout) { clearTimeout(...); this.reconnectTimeout
    = null; }] *)
Definition clearReconnectTimeout (w : WebSocketService) : WebSocketService :=
  with_reconnectTimeout None w.

(** [resetReconnectAttempts] *)
Definition resetReconnectAttempts (w : WebSocketService) : WebSocketService :=
  clearReconnectTimeout (with_reconnectAttempts 0 w).

(** [handleOpen], run when the socket has opened; the third component
    tells whether [fetchLatestNews()] is called. *)
Definition handleOpen (w : WebSocketService) (st : Store.NewsState)
  : WebSocketService * Store.NewsState * bool :=
  let w := with_isConnecting false w in
  let w := with_reconnectAttempts 0 w in
  let st := setConnectionStatus w true st in
  let st := Store.setIsLoading false st in
  let st := Store.setError None st in
  let w := startHeartbeat w in
  let fetch := wasConnectedBefore w in
  (with_wasConnectedBefore true w, st, fetch).

(** The [open] event of the current socket. *)
Definition opened (w : WebSocketService) (st : Store.NewsState)
  : WebSocketService * Store.NewsState * bool :=
  handleOpen (with_socket (Some OPEN) w) st.

(** [handleError] *)
Definition handleError (w : WebSocketService) (st : Store.NewsState)
  : WebSocketService * Store.NewsState * Handling :=
  if isCleaned w then (w, st, Ignored)
  else if isHandlingErrorOrClose w then (w, st, Requeued)
  else
    let w := set_handling true w in
    let st := Store.setError (Some ("[" +:+ label (sourceType w) +:+ "] WebSocket error")) st in
    let st := setConnectionStatus w false st in
    let w := with_isConnecting false w in
    let w := scheduleReconnect w in
    (set_handling false w, st, Handled).

(** [closeExistingSocket]: the handlers of the old socket are removed, it
    is closed unless it is closing or closed already, and the reference is
    dropped. *)
Definition closeExistingSocket (w : WebSocketService) : WebSocketService :=
  with_socket None w.

(** [connect(url, token)].  [thrown] is [None] when [new WebSocket(url)]
    returns, and the readable message of the error it throws otherwise.
    The 15 s connection timer set on the way is not part of the state. *)
Definition connect (u : string) (token : option string) (thrown : option string)
    (w : WebSocketService) (st : Store.NewsState) : WebSocketService * Store.NewsState :=
  if isCleaned w then (w, st)
  else if isConnecting w then (w, st)
  else if isConnected w then (w, st)
  else
    let w := with_isConnecting true (with_target u token w) in
    let st := Store.setError None (Store.setIsLoading true st) in
    let w := closeExistingSocket w in
    match thrown with
    | None => (with_socket (Some CONNECTING) w, st)
    | Some errorMessage =>
        let w := with_isConnecting false w in
        let st :=
          Store.setError
            (Some ("[" +:+ label (sourceType w) +:+ "] Failed to connect: " +:+ errorMessage))
            st in
        let st := setConnectionStatus w false st in
        let st := Store.setIsLoading false st in
        (scheduleReconnect w, st)
    end.

(** The callback of the reconnect timer: [this.connect(this.url,
    this.authToken); this.reconnectTimeout = null]. *)
Definition reconnect_timer (thrown : option string) (w : WebSocketService)
    (st : Store.NewsState) : WebSocketService * Store.NewsState :=
  let (w, st) := connect (url w) (authToken w) thrown w st in
  (with_reconnectTimeout None w, st).

(** The callback of the 15 s connection timer. *)
Definition connection_timer (w : WebSocketService) (st : Store.NewsState)
  : WebSocketService * Store.NewsState :=
  if isConnecting w then
    let st :=
      Store.setError
        (Some ("[" +:+ label (sourceType w) +:+ "] Connection timeout - server not responding"))
        st in
    let st := setConnectionStatus w false st in
    let w := with_isConnecting false w in
    (scheduleReconnect w, st)
  else (w, st).

(** [disconnect()], up to the call of [socket.close(1000, ...)], which
    leaves the socket closing. *)
Definition disconnect (w : WebSocketService) : WebSocketService :=
  if isCleaned w then w
  else
    let w := stopHeartbeat w in
    let w := clearReconnectTimeout w in
    match socket w with
    | None => w
    | Some readyState =>
        let w := with_isCleanDisconnect true w in
        let w := with_reconnectAttempts 0 w in
        match readyState with
        | CLOSING | CLOSED => with_socket None w
        | _ => with_socket (Some CLOSING) w
        end
    end.

(** The timer of [disconnect()] that fires when no close event has come
    within a second. *)
Definition disconnect_timer (w : WebSocketService) (st : Store.NewsState)
  : WebSocketService * Store.NewsState :=
  (with_socket None w, setConnectionStatus w false st).

(** The close event of the current socket after [disconnect()]: the
    [onclose] handler set by [connect] runs first, then the one-time
    listener added by [disconnect]. *)
Definition close_event (event : option CloseEvent) (w : WebSocketService)
    (st : Store.NewsState) : WebSocketService * Store.NewsState * Handling :=
  let '(w, st, h) := handleClose event w st in
  (with_socket None w, st, h).

(** [cleanup()], with the counters of the background task it resets. *)
Definition cleanup (w : WebSocketService) (bg : Background.Attempts)
  : WebSocketService * Background.Attempts :=
  let w := with_isCleaned true w in
  let w := stopHeartbeat w in
  let w := clearReconnectTimeout w in
  let bg :=
    match sourceType w with
    | tree => {| Background.tree_attempts := 0;
                 Background.phoenix_attempts := Background.phoenix_attempts bg |}
    | phoenix => {| Background.tree_attempts := Background.tree_attempts bg;
                    Background.phoenix_attempts := 0 |}
    end in
  let w := disconnect w in
  let w := with_target "" None w in
  let w := with_reconnectAttempts 0 w in
  let w := with_isConnecting false w in
  let w := with_wasConnectedBefore false w in
  (w, bg).

(** The timer set by the background task: [resetReconnectAttempts()],
    then [connect(url, token)]. *)
Definition background_timer (u : string) (token : option string) (thrown : option string)
    (w : WebSocketService) (st : Store.NewsState) : WebSocketService * Store.NewsState :=
  connect u token thrown (resetReconnectAttempts w) st.

End Lifecycle.

(** ** Sample data *)

(** The sample data is ASCII text, on which every case mapping is the
    ASCII one (the laws of [JS.CaseMapping]): it is evaluated with
    [JS.ascii_case]. *)
#[global] Existing Instance JS.ascii_case.

(** An event whose title names a coin in upper case. *)
Definition c9_event : NewsItem :=
  {| _id := "n1"; title := Some "BTC rallies"; body := None; source := "News";
     url := None; time := 0; symbols_of := None; suggestions := None;
     icon := None; image := None; info := None; isHighlighted := None;
     requireInteraction := None; type_of := None; coin_of := None;
     matchedKeyword := None; newsSource := Some tree |}.

(** The store after [resetNews], with the default toggles. *)
Definition empty_store : Store.NewsState :=
  {| Store.news := []; Store.isLoading := false; Store.error := None;
     Store.treeConnected := false; Store.phoenixConnected := false;
     Store.filterKeywords := [];
     Store.serverConfig :=
       {| treeWebsocketUrl := ""; treeApiUrl := ""; treeToken := "";
          phoenixWebsocketUrl := ""; phoenixApiUrl := ""; phoenixToken := "" |};
     Store.showTwitterPosts := true; Store.disableApiRequests := false |}.

(** A plain news event. *)
Definition sample_item (i : string) (u : option string) (t : string) (ms : Z) : NewsItem :=
  {| _id := i; title := Some t; body := None; source := "News";
     url := u; time := ms; symbols_of := None; suggestions := None;
     icon := None; image := None; info := None; isHighlighted := None;
     requireInteraction := None; type_of := None; coin_of := None;
     matchedKeyword := None; newsSource := Some tree |}.

(** One reading of the clock and of the random suffix. *)
Definition clock0 : Clock := {| now := 1700000000000; rnd := "k3j9x2a" |}.

(** Two events with different ids and the same url. *)
Definition two_inserts : list (Clock * NewsItem) :=
  [(clock0, sample_item "x" (Some "https://a.example/1") "first headline" 10);
   (clock0, sample_item "y" (Some "https://a.example/1") "second headline" 20)].

(** An event that arrives with [isHighlighted] set. *)
Definition c2_item : NewsItem :=
  {| _id := "n7"; title := Some "quiet headline"; body := None; source := "News";
     url := None; time := 5; symbols_of := None; suggestions := None;
     icon := None; image := None; info := None; isHighlighted := Some true;
     requireInteraction := None; type_of := None; coin_of := None;
     matchedKeyword := None; newsSource := Some tree |}.

(** The readings of one adapter call on a phone: no date string parses,
    and there is no [document]. *)
Definition env0 : Adapter.Env :=
  {| Adapter.now_id := 1700000000000; Adapter.rnd_id := "k3j9x2a";
     Adapter.now_time := 1700000000001; Adapter.now_err_id := 1700000000002;
     Adapter.now_err_time := 1700000000003;
     Adapter.dateGetTime := fun _ => None;
     Adapter.document := None |}.

(** The readings of one adapter call in a browser, as far as the sample
    payloads go: the [textarea] returns a string as it is and the number 5
    as the text [5]. *)
Definition browser_env : Adapter.Env :=
  {| Adapter.now_id := 1700000000000; Adapter.rnd_id := "k3j9x2a";
     Adapter.now_time := 1700000000001; Adapter.now_err_id := 1700000000002;
     Adapter.now_err_time := 1700000000003;
     Adapter.dateGetTime := fun _ => None;
     Adapter.document :=
       Some (fun v => match v with
                      | Adapter.JStr t => Some t
                      | Adapter.JNum 5 => Some "5"
                      | _ => None
                      end) |}.

(** The body of the quoted-post scenario. *)
Definition scenario_body : string := "hello &gt;&gt;QUOTE Alice (@alice) nice".

(** The payload of the quoted-post scenario. *)
Definition quote_payload : Adapter.JValue :=
  Adapter.JObj [("source", Adapter.JStr "Twitter"); ("isQuote", Adapter.JBool true);
                ("body", Adapter.JStr scenario_body)].

(** The payload of the scenario with a [createdAt] that [new Date]
    cannot convert to a primitive: its [toString] is no function. *)
Definition unreadable_quote : Adapter.JValue :=
  Adapter.JObj [("source", Adapter.JStr "Twitter"); ("isQuote", Adapter.JBool true);
                ("body", Adapter.JStr scenario_body);
                ("createdAt", Adapter.JObj [("toString", Adapter.JNum 1)])].

(** The no-break space U+00A0 and the line separator U+2028. *)
Definition nbsp : string := JS.bytes [194; 160].

Definition line_separator : string := JS.bytes [226; 128; 168].

(** The payload of a quoted post with the body [b]. *)
Definition quote_with (b : string) : Adapter.JValue :=
  Adapter.JObj [("source", Adapter.JStr "Twitter"); ("isQuote", Adapter.JBool true);
                ("body", Adapter.JStr b)].



(** An actor between connections, its counter at 0. *)
Definition fresh_actor : Actor.WebSocketService :=
  {| Actor.socket := None; Actor.reconnectTimeout := None;
     Actor.heartbeatInterval := false; Actor.url := "wss://wss.phoenixnews.io";
     Actor.isConnecting := false; Actor.reconnectAttempts := 0%Z;
     Actor.sourceType := phoenix; Actor.authToken := None;
     Actor.wasConnectedBefore := true; Actor.isCleaned := false;
     Actor.isHandlingErrorOrClose := false; Actor.isCleanDisconnect := false |}.


(** An initialised service with an empty cache and no timer. *)
Definition idle_service : Notification.Service :=
  {| Notification.isInitialized := true;
     Notification.webNotificationsSupported := false;
     Notification.webNotificationsPermission := "default";
     Notification.recentNotifications := ∅;
     Notification.notificationStats :=
       {| Notification.success := 0; Notification.failed := 0;
          Notification.retried := 0; Notification.skipped := 0 |};
     Notification.timers := [];
     Notification.sink := [] |}.

(** A phone that grants permission and delivers. *)
Definition phone_ok : Notification.Ambient :=
  {| Notification.is_web := false; Notification.initializes := true;
     Notification.permissionStatus := "granted"; Notification.delivered := true |}.

(** The empty store with Twitter/X posts switched off. *)
Definition quiet_store : Store.NewsState :=
  {| Store.news := []; Store.isLoading := false; Store.error := None;
     Store.treeConnected := false; Store.phoenixConnected := false;
     Store.filterKeywords := [{| fk_id := "1"; keyword := "btc" |}];
     Store.serverConfig := Store.serverConfig empty_store;
     Store.showTwitterPosts := false; Store.disableApiRequests := false |}.

(** A post whose source is [X]. *)
Definition x_post : NewsItem :=
  {| _id := "t1"; title := Some "btc to the moon"; body := None; source := "X";
     url := None; time := 7; symbols_of := None; suggestions := None;
     icon := None; image := None; info := None; isHighlighted := None;
     requireInteraction := None; type_of := None; coin_of := None;
     matchedKeyword := None; newsSource := Some tree |}.

(** A keyword screen session: a keyword typed with capitals and blanks,
    the same keyword again, and the removal of an older one. *)
Definition keyword_session : list Keywords.Action :=
  [Keywords.Add clock0 "  Ether "; Keywords.Add clock0 "ETHER"; Keywords.Remove "1"].

(** The default store after the keyword [BTC] has been typed in. *)
Definition btc_store : Store.NewsState := Keywords.addFilterKeyword clock0 "BTC" empty_store.

(** A response of the HTTP API: two events, the second one under the url
    of the first. *)
Definition api_response : list NewsItem :=
  [sample_item "a1" (Some "https://a.example/1") "first headline" 10;
   sample_item "a2" (Some "https://a.example/1") "second headline" 20].

(** The store holding one event of [api_response]. *)
Definition one_stored : Store.NewsState :=
  Store.set_news [sample_item "a1" (Some "https://a.example/1") "first headline" 10]
                 empty_store.

(** A response without a shared key. *)
Definition clean_response : list NewsItem :=
  [sample_item "a1" (Some "https://a.example/1") "first headline" 10;
   sample_item "b2" (Some "https://a.example/2") "second headline" 20].

(** A full store: 100 events, newest first, the oldest of time 901. *)
Definition full_store : Store.NewsState :=
  Store.set_news
    (map (fun i => sample_item ("n" +:+ pretty (Z.of_nat i)) None
                               ("headline " +:+ pretty (Z.of_nat i))
                               (1000 - Z.of_nat i))
         (seq 0 100))
    btc_store.

(** An event without a title, and with nothing that would highlight it. *)
Definition untitled_item : NewsItem :=
  {| _id := "n8"; title := None; body := Some "details follow"; source := "News";
     url := None; time := 6; symbols_of := None; suggestions := None;
     icon := None; image := None; info := None; isHighlighted := None;
     requireInteraction := None; type_of := None; coin_of := None;
     matchedKeyword := None; newsSource := Some tree |}.

(** An event whose [time] is [NaN]. *)
Definition undated_item : NewsItem :=
  {| _id := "p9"; title := Some "listing announced"; body := None; source := "Blog";
     url := None; time := NaN; symbols_of := None; suggestions := None;
     icon := None; image := None; info := None; isHighlighted := None;
     requireInteraction := None; type_of := None; coin_of := None;
     matchedKeyword := None; newsSource := Some phoenix |}.

(** An event more recent than half of the entries of [full_store]. *)
Definition recent_event : NewsItem := sample_item "fresh" None "eth climbs" 950.

(** An event older than every entry of [full_store]. *)
Definition old_event : NewsItem := sample_item "old" None "btc dips" 5.

(** A server that answers 503 twice and then 200. *)
Definition flaky_net (attempt : Z) : Api.Attempt :=
  if (attempt <? 2)%Z then Api.Responded false 503 else Api.Responded true 200.

(** A server that never answers in time. *)
Definition silent_net (_ : Z) : Api.Attempt := Api.TimedOut.

(** An exchange with the silent server, nothing else touching the store. *)
Definition silent_exchange : Api.Exchange :=
  {| Api.net := silent_net; Api.processedNews := inr []; Api.during := fun s => s |}.

(** The task finds both URLs in the store and both services disconnected,
    run after run. *)
Definition offline_world (_ : nat) : Background.World :=
  {| Background.config :=
       {| treeWebsocketUrl := "ws://35.76.194.63:4873"; treeApiUrl := ""; treeToken := "";
          phoenixWebsocketUrl := "wss://wss.phoenixnews.io"; phoenixApiUrl := "";
          phoenixToken := "" |};
     Background.global_treeWebsocketUrl := None;
     Background.global_phoenixWebsocketUrl := None;
     Background.tree_connected := false;
     Background.phoenix_connected := false |}.

(** A phone that grants permission and whose notifier fails. *)
Definition phone_failing : Notification.Ambient :=
  {| Notification.is_web := false; Notification.initializes := true;
     Notification.permissionStatus := "granted"; Notification.delivered := false |}.


(** A browser that reports permission while the service has recorded
    none. *)
Definition browser : Notification.Ambient :=
  {| Notification.is_web := true; Notification.initializes := true;
     Notification.permissionStatus := "granted"; Notification.delivered := true |}.

(** A browser whose [Notification] constructor throws, and a service that
    has recorded the permission of the browser. *)
Definition browser_failing : Notification.Ambient :=
  {| Notification.is_web := true; Notification.initializes := true;
     Notification.permissionStatus := "granted"; Notification.delivered := false |}.

Definition web_service : Notification.Service :=
  {| Notification.isInitialized := true;
     Notification.webNotificationsSupported := true;
     Notification.webNotificationsPermission := "granted";
     Notification.recentNotifications := ∅;
     Notification.notificationStats :=
       {| Notification.success := 0; Notification.failed := 0;
          Notification.retried := 0; Notification.skipped := 0 |};
     Notification.timers := [];
     Notification.sink := [] |}.

(** A connected actor, its socket open. *)
Definition open_actor : Actor.WebSocketService :=
  {| Actor.socket := Some Actor.OPEN; Actor.reconnectTimeout := None;
     Actor.heartbeatInterval := true; Actor.url := "wss://wss.phoenixnews.io";
     Actor.isConnecting := false; Actor.reconnectAttempts := 0;
     Actor.sourceType := phoenix; Actor.authToken := None;
     Actor.wasConnectedBefore := true; Actor.isCleaned := false;
     Actor.isHandlingErrorOrClose := false; Actor.isCleanDisconnect := false |}.

(** An actor whose reconnect timer is due, after three failures. *)
Definition waiting_actor : Actor.WebSocketService :=
  {| Actor.socket := None; Actor.reconnectTimeout := Some (Actor.backoff_delay 3);
     Actor.heartbeatInterval := false; Actor.url := "wss://wss.phoenixnews.io";
     Actor.isConnecting := false; Actor.reconnectAttempts := 3;
     Actor.sourceType := phoenix; Actor.authToken := None;
     Actor.wasConnectedBefore := true; Actor.isCleaned := false;
     Actor.isHandlingErrorOrClose := false; Actor.isCleanDisconnect := false |}.

(** An actor for the default address of the tree source, its reconnect
    timer due after three failures, in a page loaded over HTTPS: there
    [new WebSocket] throws a [SecurityError] for a [ws://] address. *)
Definition blocked_actor : Actor.WebSocketService :=
  {| Actor.socket := None; Actor.reconnectTimeout := Some (Actor.backoff_delay 3);
     Actor.heartbeatInterval := false; Actor.url := "ws://35.76.194.63:4873";
     Actor.isConnecting := false; Actor.reconnectAttempts := 3;
     Actor.sourceType := tree; Actor.authToken := None;
     Actor.wasConnectedBefore := true; Actor.isCleaned := false;
     Actor.isHandlingErrorOrClose := false; Actor.isCleanDisconnect := false |}.

Definition blocked_message : string :=
  "An insecure WebSocket connection may not be initiated from a page loaded over HTTPS.".

(** An abnormal closure. *)
Definition abnormal_close : option Actor.CloseEvent :=
  Some {| Actor.code := Some 1006; Actor.reason := None |}.

(** ** Proof automation *)

Ltac attempt_cases k :=
  let H := fresh in
  assert (H : (k = 1 \/ k = 2 \/ k = 3 \/ k = 4 \/ k = 5 \/
               k = 6 \/ k = 7 \/ k = 8 \/ k = 9 \/ k = 10)%Z) by lia;
  destruct H as [->|[->|[->|[->|[->|[->|[->|[->|[->| ->]]]]]]]]].

(** * Proofs *)

(** ** Strings *)

Lemma app_cons (c : ascii) (a b : string) : String c a +:+ b = String c (a +:+ b).
Proof. reflexivity. Qed.

Lemma app_nil_l (a : string) : "" +:+ a = a.
Proof. reflexivity. Qed.

Lemma app_nil_r (a : string) : a +:+ "" = a.
Proof. induction a as [|c a IH]; [reflexivity | now rewrite app_cons, IH]. Qed.

Lemma app_assoc (a b c : string) : (a +:+ b) +:+ c = a +:+ b +:+ c.
Proof. induction a as [|x a IH]; [reflexivity | now rewrite !app_cons, IH]. Qed.

Lemma app_length (a b : string) :
  String.length (a +:+ b) = (String.length a + String.length b)%nat.
Proof. induction a as [|x a IH]; [reflexivity | rewrite app_cons; simpl; now rewrite IH]. Qed.

Lemma startsWith_spec (s p : string) :
  JS.startsWith s p = true <-> exists r, s = p +:+ r.
Proof.
  revert s. induction p as [|a p IH]; intros s; simpl.
  - split; [intros _; exists s; reflexivity | reflexivity].
  - destruct s as [|b s].
    + split; [discriminate | intros [r Hr]; discriminate].
    + destruct (Ascii.eqb a b) eqn:E.
      * apply Ascii.eqb_eq in E. subst b. rewrite IH.
        split; intros [r Hr]; exists r.
        -- now rewrite Hr.
        -- rewrite app_cons in Hr. now inversion Hr.
      * apply Ascii.eqb_neq in E.
        split; [discriminate |].
        intros [r Hr]. rewrite app_cons in Hr. inversion Hr. congruence.
Qed.

Lemma includes_spec (s n : string) :
  JS.includes s n = true <-> exists a b, s = a +:+ n +:+ b.
Proof.
  induction s as [|c s IH].
  - simpl. rewrite orb_false_r, startsWith_spec. split.
    + intros [r Hr]. exists "", r. exact Hr.
    + intros [a [b H]]. destruct a; [exists b; exact H | discriminate].
  - simpl. rewrite orb_true_iff, startsWith_spec, IH. split.
    + intros [[r Hr] | [a [b H]]].
      * exists "", r. exact Hr.
      * exists (String c a), b. rewrite app_cons. now rewrite H.
    + intros [a [b H]]. destruct a as [|c' a].
      * left. exists b. exact H.
      * right. rewrite app_cons in H. inversion H. exists a, b. reflexivity.
Qed.

Section Matching.

Context {U : JS.CaseMapping}.

Lemma first_match_find (t b : string) (fs : list FilterKeyword) :
  Notification.first_match t b fs =
  match List.find (fun f => JS.includes t (keyword f) || JS.includes b (keyword f)) fs with
  | Some f => Some (keyword f)
  | None => None
  end.
Proof.
  induction fs as [|f fs IH]; simpl; [reflexivity|].
  destruct (JS.includes t (keyword f) || JS.includes b (keyword f)); [reflexivity | exact IH].
Qed.

Lemma lower_or_empty_text (o : option string) :
  Notification.lower_or_empty o = JS.toLowerCase (Spec.text_of o).
Proof.
  destruct o; [reflexivity|]. simpl. now rewrite (JS.toLowerCase_ascii "").
Qed.

Lemma find_ext_Forall {A} (f g : A -> bool) (l : list A) :
  Forall (fun x => f x = g x) l -> List.find f l = List.find g l.
Proof.
  induction 1 as [|x l Hx _ IH]; simpl; [reflexivity|].
  rewrite Hx, IH. reflexivity.
Qed.

Lemma checkForKeywordMatch_first_match (n : NewsItem) (fs : list FilterKeyword) :
  Notification.checkForKeywordMatch n fs =
  Notification.first_match (Notification.lower_or_empty (title n))
                           (Notification.lower_or_empty (body n)) fs.
Proof. destruct fs; reflexivity. Qed.

(** What [Spec.findMatch] returns, spelled out: the keyword of the first
    filter that occurs in the lower-cased title or body, no earlier filter
    doing so. *)
Lemma findMatch_first (event : NewsItem) (keywords : list FilterKeyword) :
  let hit f :=
    exists t a b, (t = Spec.text_of (title event) \/ t = Spec.text_of (body event)) /\
                  JS.toLowerCase t = a +:+ JS.toLowerCase (keyword f) +:+ b in
  match Spec.findMatch event keywords with
  | Some k => exists pre f post,
      keywords = (pre ++ f :: post)%list /\ keyword f = k /\ hit f /\ Forall (fun g => ~ hit g) pre
  | None => Forall (fun g => ~ hit g) keywords
  end.
Proof.
  intros hit. unfold Spec.findMatch.
  assert (Hhit : forall f,
    Spec.ci_includes (Spec.text_of (title event)) (keyword f) ||
    Spec.ci_includes (Spec.text_of (body event)) (keyword f) = true <-> hit f).
  { intros f. unfold hit, Spec.ci_includes. rewrite orb_true_iff, !includes_spec. split.
    - intros [[a [b H]] | [a [b H]]]; eauto 10.
    - intros [t [a [b [[-> | ->] H]]]]; eauto. }
  induction keywords as [|f fs IH]; simpl; [constructor|].
  destruct (Spec.ci_includes _ _ || Spec.ci_includes _ _) eqn:E.
  - exists [], f, fs. repeat split; auto. now apply Hhit.
  - assert (Hn : ~ hit f) by (intros H; apply Hhit in H; congruence).
    destruct (List.find _ fs) as [g|].
    + destruct IH as [pre [f' [post [-> [Hk [Hh Hpre]]]]]].
      exists (f :: pre), f', post. repeat split; auto.
    + constructor; auto.
Qed.

End Matching.

(** ** Keyword matching (C9) *)

(** C9, the claim as stated fails: a case-insensitive search finds the
    keyword [BTC] in the title [BTC rallies], but both matchers fold only
    the title and body to lower case and compare the keyword as it is
    stored, so neither finds it. *)
Lemma C9_counterexample :
  Spec.findMatch c9_event [{| fk_id := "1"; keyword := "BTC" |}] = Some "BTC" /\
  Notification.checkForKeywordMatch c9_event [{| fk_id := "1"; keyword := "BTC" |}] = None /\
  findMatchedKeyword c9_event [{| fk_id := "1"; keyword := "BTC" |}] = None.
Proof. repeat split; vm_compute; reflexivity. Qed.

Section KeywordMatch.

Context {U : JS.CaseMapping}.

(** C9, as amended: for every event and every list of filter keywords that
    are in lower case (the form in which [addFilterKeyword] stores them),
    [checkForKeywordMatch] and [findMatchedKeyword] return the first keyword
    of the list, in list order, that occurs in the title or the body with
    letter case ignored, and nothing when no keyword does or the list is
    empty. *)
Theorem C9_keyword_match (event : NewsItem) (keywords : list FilterKeyword) :
  Spec.lower_case keywords ->
  Notification.checkForKeywordMatch event keywords = Spec.findMatch event keywords /\
  findMatchedKeyword event keywords = Spec.findMatch event keywords.
Proof.
  intros Hlow.
  assert (H : Notification.checkForKeywordMatch event keywords = Spec.findMatch event keywords).
  { rewrite checkForKeywordMatch_first_match, first_match_find, !lower_or_empty_text.
    unfold Spec.findMatch.
    erewrite find_ext_Forall; [reflexivity|].
    eapply Forall_impl; [exact Hlow|].
    intros f Hf. cbv beta in Hf. unfold Spec.ci_includes. now rewrite Hf. }
  split; [exact H|].
  rewrite <- H. destruct keywords; reflexivity.
Qed.

End KeywordMatch.

Lemma C9_keyword_match_witness :
  Spec.lower_case [{| fk_id := "1"; keyword := "eth" |}; {| fk_id := "2"; keyword := "btc" |}] /\
  (Notification.checkForKeywordMatch c9_event
     [{| fk_id := "1"; keyword := "eth" |}; {| fk_id := "2"; keyword := "btc" |}] =
   Spec.findMatch c9_event
     [{| fk_id := "1"; keyword := "eth" |}; {| fk_id := "2"; keyword := "btc" |}] /\
   findMatchedKeyword c9_event
     [{| fk_id := "1"; keyword := "eth" |}; {| fk_id := "2"; keyword := "btc" |}] =
   Spec.findMatch c9_event
     [{| fk_id := "1"; keyword := "eth" |}; {| fk_id := "2"; keyword := "btc" |}]).
Proof.
  split.
  - repeat constructor.
  - apply (C9_keyword_match c9_event
      [{| fk_id := "1"; keyword := "eth" |}; {| fk_id := "2"; keyword := "btc" |}]).
    repeat constructor.
Defined.

(** ** The Twitter/X gate of the store (C10) *)

Section TwitterGate.

Context {U : JS.CaseMapping}.

Lemma with_defaults_fields (c : Clock) (n : NewsItem) :
  let n' := Store.with_defaults c n in
  title n' = title n /\ body n' = body n /\ source n' = source n /\ url n' = url n /\
  time n' = time n /\ info n' = info n /\ suggestions n' = suggestions n /\
  isHighlighted n' = isHighlighted n /\ matchedKeyword n' = matchedKeyword n /\
  _id n' = (if JS.truthy (_id n) then _id n else Store.generated_id c).
Proof.
  unfold Store.with_defaults.
  destruct (JS.truthy (_id n)) eqn:E; simpl;
    destruct (newsSource _); simpl; rewrite ?E; repeat split; reflexivity.
Qed.

Lemma isTwitterOrXPost_defaults (c : Clock) (n : NewsItem) :
  Store.isTwitterOrXPost (Store.with_defaults c n) = Store.isTwitterOrXPost n.
Proof.
  destruct (with_defaults_fields c n) as (Ht & _ & Hs & _ & _ & Hi & _).
  unfold Store.isTwitterOrXPost. now rewrite Ht, Hs, Hi.
Qed.

Lemma truthy_true (s : string) : JS.truthy s = true <-> s <> "".
Proof.
  unfold JS.truthy. rewrite negb_true_iff. split.
  - intros H ->. discriminate.
  - intros H. apply String.eqb_neq. exact H.
Qed.

Lemma twitter_post_detected (n : NewsItem) :
  Spec.twitter_post n <-> Store.isTwitterOrXPost n = true.
Proof.
  unfold Spec.twitter_post, Store.isTwitterOrXPost.
  rewrite !orb_true_iff, andb_true_iff, !String.eqb_eq. split.
  - intros [H | [H | (i & tid & t & a & b & Hi & Htid & Hne & Ht & Hsplit)]]; auto.
    right. rewrite Hi, Ht. simpl. rewrite Htid. simpl. split.
    + now apply truthy_true.
    + apply includes_spec. eauto.
  - intros [[H | H] | [H1 H2]]; auto.
    right; right.
    destruct (info n) as [i|]; [|discriminate].
    destruct (twitterId i) as [tid|] eqn:Ei; [|discriminate].
    destruct (title n) as [t|]; [|discriminate].
    apply includes_spec in H2. destruct H2 as [a [b H2]].
    exists i, tid, t, a, b. simpl in H1. apply truthy_true in H1. auto.
Qed.

(** C10: with [showTwitterPosts] off, an item classified as a Twitter/X post
    (source [X] or [Twitter], or a non-empty [twitterId] together with an
    [@] in the title) leaves the state as it was and schedules no
    notification: [addNews] returns before the duplicate check, the keyword
    match and the insertion. *)
Theorem C10_twitter_filtered (c : Clock) (n : NewsItem) (st : Store.NewsState) :
  Store.showTwitterPosts st = false ->
  Spec.twitter_post n ->
  Store.addNews c n st = (st, []).
Proof.
  intros Hshow Htw. unfold Store.addNews.
  destruct (Store.disableApiRequests st && String.eqb (source n) "api"); [reflexivity|].
  rewrite Hshow, isTwitterOrXPost_defaults.
  apply twitter_post_detected in Htw. rewrite Htw. reflexivity.
Qed.

End TwitterGate.

Lemma C10_twitter_filtered_witness :
  Store.showTwitterPosts quiet_store = false /\
  Spec.twitter_post x_post /\
  Store.addNews clock0 x_post quiet_store = (quiet_store, []).
Proof.
  split; [reflexivity|]. split; [now left|].
  apply (C10_twitter_filtered clock0 x_post quiet_store); [reflexivity | now left].
Defined.

(** ** Sorting *)

Lemma sort_insert_perm {A} (cmp : A -> A -> Z) (x : A) (l : list A) :
  JS.sort_insert cmp x l ≡ₚ x :: l.
Proof.
  induction l as [|y r IH]; simpl; [reflexivity|].
  destruct (cmp x y <=? 0)%Z; [reflexivity|].
  rewrite IH. apply perm_swap.
Qed.

Lemma sort_perm {A} (cmp : A -> A -> Z) (l : list A) : JS.sort cmp l ≡ₚ l.
Proof.
  induction l as [|x r IH]; simpl; [reflexivity|].
  rewrite sort_insert_perm. now rewrite IH.
Qed.

Lemma Forall_forallb {A} (P : A -> Prop) (f : A -> bool) (l : list A) :
  (forall x, f x = true -> P x) -> forallb f l = true -> Forall P l.
Proof.
  intros Hf H. rewrite forallb_forall in H. rewrite Forall_forall.
  intros x Hx. apply Hf, H. now apply list_elem_of_In.
Qed.

Lemma by_time_desc_num (a b : NewsItem) (x y : Z) :
  time a = Num x -> time b = Num y -> Store.by_time_desc a b = y - x.
Proof. intros Ha Hb. unfold Store.by_time_desc. now rewrite Ha, Hb. Qed.

Lemma is_num_Num (a : number) : is_num a = true -> exists x, a = Num x.
Proof. destruct a; [eauto | discriminate]. Qed.

Lemma sort_insert_sorted (x : NewsItem) (l : list NewsItem) :
  is_num (time x) = true -> Spec.timed l ->
  Spec.sorted_desc l -> Spec.sorted_desc (JS.sort_insert Store.by_time_desc x l).
Proof.
  unfold Spec.sorted_desc, Spec.timed. intros Hx Hl H.
  apply is_num_Num in Hx. destruct Hx as [tx Hx].
  induction H as [|y r Hr IH Hy]; simpl.
  - repeat constructor.
  - apply Forall_cons in Hl. destruct Hl as [Hty Hl].
    apply is_num_Num in Hty. destruct Hty as [ty Hty].
    rewrite (by_time_desc_num x y tx ty Hx Hty).
    destruct (ty - tx <=? 0)%Z eqn:E.
    + apply Z.leb_le in E. constructor.
      * constructor; assumption.
      * constructor; [rewrite Hx, Hty; simpl; lia|].
        eapply Forall_impl; [exact Hy|]. intros z Hz. cbv beta in Hz.
        rewrite Hx. rewrite Hty in Hz. destruct (time z); simpl in *; [lia | exact Hz].
    + apply Z.leb_gt in E. constructor; [exact (IH Hl)|].
      rewrite sort_insert_perm. constructor; [rewrite Hx, Hty; simpl; lia | exact Hy].
Qed.

Lemma sort_timed (l : list NewsItem) :
  Spec.timed l -> Spec.timed (JS.sort Store.by_time_desc l).
Proof. unfold Spec.timed. now rewrite sort_perm. Qed.

(** Where every [time] is a number the comparator is consistent and the
    sorted list is in descending order. *)
Lemma sort_sorted (l : list NewsItem) :
  Spec.timed l -> Spec.sorted_desc (JS.sort Store.by_time_desc l).
Proof.
  induction l as [|x r IH]; simpl; intros H; [constructor|].
  apply Forall_cons in H. destruct H as [Hx Hr].
  apply sort_insert_sorted; [exact Hx | now apply sort_timed | now apply IH].
Qed.

(** The sort is stable: the events of one timestamp keep their order. *)
Lemma sort_insert_stable (t : number) (x : NewsItem) (l : list NewsItem) :
  filter (fun a => time a = t) (JS.sort_insert Store.by_time_desc x l) =
  filter (fun a => time a = t) (x :: l).
Proof.
  induction l as [|y r IH]; simpl; [reflexivity|].
  destruct (Store.by_time_desc x y <=? 0)%Z eqn:E; [reflexivity|].
  apply Z.leb_gt in E.
  assert (Hne : time x <> time y).
  { intros Heq. unfold Store.by_time_desc in E. rewrite Heq in E.
    destruct (time y); lia. }
  rewrite (filter_cons _ y), IH, !filter_cons.
  repeat case_decide; try reflexivity; congruence.
Qed.

Lemma sort_stable (t : number) (l : list NewsItem) :
  filter (fun a => time a = t) (JS.sort Store.by_time_desc l) =
  filter (fun a => time a = t) l.
Proof.
  induction l as [|x r IH]; simpl; [reflexivity|].
  rewrite sort_insert_stable, !filter_cons, IH. reflexivity.
Qed.

Lemma sorted_desc_take (k : nat) (l : list NewsItem) :
  Spec.sorted_desc l -> Spec.sorted_desc (take k l).
Proof.
  unfold Spec.sorted_desc. intros H. revert k.
  induction H as [|y r Hr IH Hy]; intros [|k]; simpl; try constructor.
  - apply IH.
  - now apply Forall_take.
Qed.

Lemma sorted_desc_app (l1 l2 : list NewsItem) :
  Spec.sorted_desc (l1 ++ l2) ->
  forall a b, In a l1 -> In b l2 -> num_le (time b) (time a).
Proof.
  unfold Spec.sorted_desc. induction l1 as [|x l1 IH]; simpl; intros H a b Ha Hb.
  - contradiction.
  - apply StronglySorted_inv in H. destruct H as [H1 H2].
    destruct Ha as [<- | Ha].
    + rewrite Forall_forall in H2. apply H2. apply list_elem_of_In, in_or_app. now right.
    + now apply (IH H1 a b).
Qed.

(** ** The store: de-duplication (C1) *)

Section Deduplication.

Context {U : JS.CaseMapping}.

Lemma share_key_sym (a b : NewsItem) : Spec.share_key a b -> Spec.share_key b a.
Proof.
  intros [H | [(u & Hu & Ha & Hb) | (t & Ht & Ha & Hb)]].
  - left. now symmetry.
  - right; left. eauto.
  - right; right. eauto.
Qed.

Lemma dedup_perm (l l' : list NewsItem) : l ≡ₚ l' -> Spec.dedup l -> Spec.dedup l'.
Proof.
  induction 1 as [|x l l' Hp IH|x y l|l1 l2 l3 _ IH1 _ IH2]; intros H.
  - exact H.
  - inversion H as [|? ? Hx Hl]; subst. constructor; [|auto].
    now rewrite <- Hp.
  - inversion H as [|? ? Hy Hl]; subst. inversion Hl as [|? ? Hx Hl']; subst.
    inversion Hy as [|? ? Hyx Hy']; subst.
    constructor; [|constructor; assumption].
    constructor; [|assumption].
    intros Hs. apply Hyx. now apply share_key_sym.
  - auto.
Qed.

Lemma dedup_take (k : nat) (l : list NewsItem) : Spec.dedup l -> Spec.dedup (take k l).
Proof.
  intros H. revert k. induction H as [|x l Hx Hl IH]; intros [|k]; simpl; try constructor.
  - now apply Forall_take.
  - apply IH.
Qed.

Lemma opt_eqb_eq (a b : option string) : Store.opt_eqb a b = true <-> a = b.
Proof.
  destruct a, b; simpl; try (split; congruence).
  rewrite String.eqb_eq. split; congruence.
Qed.

Lemma truthy_opt_true (o : option string) :
  JS.truthy_opt o = true <-> exists s, o = Some s /\ s <> "".
Proof.
  destruct o as [s|]; simpl.
  - rewrite truthy_true. split; [eauto | intros (s' & [= <-] & H); exact H].
  - split; [discriminate | intros (s & H & _); discriminate].
Qed.

Lemma same_opt_key (a b : option string) :
  JS.truthy_opt a && JS.truthy_opt b && Store.opt_eqb a b = true <->
  exists u, u <> "" /\ a = Some u /\ b = Some u.
Proof.
  rewrite !andb_true_iff, !truthy_opt_true, opt_eqb_eq. split.
  - intros [[(u & -> & Hu) _] <-]. eauto.
  - intros (u & Hu & -> & ->). repeat split; eauto.
Qed.

(** The predicate given to [state.news.some] says that the stored item and
    the new one share a key. *)
Lemma duplicate_of_spec (n item : NewsItem) :
  Store.duplicate_of n item = true <-> Spec.share_key item n.
Proof.
  unfold Store.duplicate_of, Spec.share_key.
  rewrite !orb_true_iff, !same_opt_key, String.eqb_eq. tauto.
Qed.

Lemma generated_id_nonempty (c : Clock) : Store.generated_id c <> "".
Proof. unfold Store.generated_id. discriminate. Qed.

Lemma with_defaults_id_nonempty (c : Clock) (n : NewsItem) :
  _id (Store.with_defaults c n) <> "".
Proof.
  destruct (with_defaults_fields c n) as (_ & _ & _ & _ & _ & _ & _ & _ & _ & Hid).
  rewrite Hid. destruct (JS.truthy (_id n)) eqn:E.
  - now apply truthy_true.
  - apply generated_id_nonempty.
Qed.

Lemma share_key_enhanced (st : Store.NewsState) (n item : NewsItem) :
  Spec.share_key (Store.enhancedNewsItem st n) item <-> Spec.share_key n item.
Proof. reflexivity. Qed.

Lemma share_key_defaults (c : Clock) (n item : NewsItem) :
  _id item <> "" ->
  Spec.share_key item n -> Spec.share_key item (Store.with_defaults c n).
Proof.
  intros Hne.
  destruct (with_defaults_fields c n) as (Ht & _ & _ & Hu & _ & _ & _ & _ & _ & Hid).
  unfold Spec.share_key. rewrite Ht, Hu, Hid.
  intros [H | H]; [left | now right].
  destruct (JS.truthy (_id n)) eqn:E; [exact H|].
  exfalso. apply Hne. rewrite H.
  unfold JS.truthy in E. apply negb_false_iff, String.eqb_eq in E. exact E.
Qed.

Lemma addNews_cases (c : Clock) (n : NewsItem) (st : Store.NewsState) :
  let n' := Store.with_defaults c n in
  (Store.addNews c n st = (st, [])) \/
  (existsb (Store.duplicate_of n') (Store.news st) = false /\
   Store.addNews c n st =
     (Store.set_news
        (take 100 (JS.sort Store.by_time_desc
                     (Store.enhancedNewsItem st n' :: Store.news st))) st,
      Store.scheduled st n')).
Proof.
  intros n'. unfold Store.addNews. fold n'.
  destruct (_ && String.eqb _ _); [now left|].
  destruct (negb _ && _); [now left|].
  destruct (existsb _ _) eqn:E; [now left | right; auto].
Qed.

Lemma addNews_store_ok (c : Clock) (n : NewsItem) (st : Store.NewsState) :
  Spec.store_ok (Store.news st) -> Spec.store_ok (Store.news (fst (Store.addNews c n st))).
Proof.
  intros [Hd Hid].
  destruct (addNews_cases c n st) as [-> | [Hex ->]]; [split; assumption|].
  cbn [fst Store.news Store.set_news].
  set (e := Store.enhancedNewsItem st (Store.with_defaults c n)).
  assert (He : Spec.store_ok (e :: Store.news st)).
  { split.
    - constructor; [|exact Hd].
      rewrite Forall_forall. intros y Hy Hs.
      apply share_key_enhanced, share_key_sym, duplicate_of_spec in Hs.
      assert (Ht : existsb (Store.duplicate_of (Store.with_defaults c n)) (Store.news st) = true).
      { apply existsb_exists. exists y. split; [now apply list_elem_of_In | exact Hs]. }
      congruence.
    - constructor; [|exact Hid]. apply with_defaults_id_nonempty. }
  destruct He as [He1 He2]. split.
  - apply dedup_take. eapply dedup_perm; [|exact He1]. symmetry. apply sort_perm.
  - apply Forall_take. now rewrite sort_perm.
Qed.

Lemma addNews_all_store_ok (ins : list (Clock * NewsItem)) (st : Store.NewsState) :
  Spec.store_ok (Store.news st) -> Spec.store_ok (Store.news (Store.addNews_all ins st)).
Proof.
  revert st. induction ins as [|[c n] ins IH]; intros st H; simpl; [exact H|].
  apply IH. now apply addNews_store_ok.
Qed.

Lemma addNews_duplicate (c : Clock) (n item : NewsItem) (st : Store.NewsState) :
  Forall (fun x => _id x <> "") (Store.news st) ->
  In item (Store.news st) -> Spec.share_key item n ->
  Store.addNews c n st = (st, []).
Proof.
  intros Hid Hin Hs.
  destruct (addNews_cases c n st) as [H | [Hex _]]; [exact H|].
  exfalso.
  assert (Ht : existsb (Store.duplicate_of (Store.with_defaults c n)) (Store.news st) = true).
  { apply existsb_exists. exists item. split; [exact Hin|].
    apply duplicate_of_spec, share_key_defaults; [|exact Hs].
    rewrite Forall_forall in Hid. apply Hid. now apply list_elem_of_In. }
  congruence.
Qed.

(** C1: start from a store whose entries share no key and all carry an
    [_id] (the empty store of [resetNews] is one).  After any sequence of
    [addNews] insertions no two entries share an [_id], a non-empty [url] or
    a non-empty [title]; and an item that matches a stored one on any of
    the three keys leaves the state unchanged and schedules no
    notification. *)
Theorem C1_dedup (st0 : Store.NewsState) (ins : list (Clock * NewsItem)) :
  Spec.dedup (Store.news st0) ->
  Forall (fun x => _id x <> "") (Store.news st0) ->
  let st := Store.addNews_all ins st0 in
  Spec.dedup (Store.news st) /\
  forall c n item,
    In item (Store.news st) -> Spec.share_key item n ->
    Store.addNews c n st = (st, []).
Proof.
  intros Hd Hid st.
  destruct (addNews_all_store_ok ins st0 (conj Hd Hid)) as [Hd' Hid'].
  split; [exact Hd'|].
  intros c n item Hin Hs. now apply (addNews_duplicate c n item).
Qed.

End Deduplication.

Lemma C1_dedup_witness :
  Spec.dedup (Store.news empty_store) /\
  Forall (fun x => _id x <> "") (Store.news empty_store) /\
  (let st := Store.addNews_all two_inserts empty_store in
   Spec.dedup (Store.news st) /\
   forall c n item,
     In item (Store.news st) -> Spec.share_key item n ->
     Store.addNews c n st = (st, [])).
Proof.
  split; [constructor|]. split; [constructor|].
  apply (C1_dedup empty_store two_inserts); constructor.
Defined.

(** The scenario of the specification: an event with id [x], then one with
    another id and the same url, leave one entry in the store. *)
Example same_url_scenario :
  length (Store.news (Store.addNews_all two_inserts empty_store)) = 1%nat.
Proof. vm_compute. reflexivity. Qed.

(** ** The store: insertion (C2) *)

(** C2, the claim as stated fails, in three ways.  An event that arrives
    with [isHighlighted] set keeps the flag although none of the four
    heuristics holds.  An event without a title is highlighted, again with
    none of them holding: [undefined] is what the upper-casing of a
    missing title gives, and it equals the missing title.  And an event
    whose [time] is [NaN], as the Phoenix adapter makes it from a date that
    does not parse, is stored next to an entry with a number for its
    [time]: in neither order is that list sorted by time. *)
Lemma C2_counterexample :
  (let n' := Store.with_defaults clock0 c2_item in
   let k := Notification.checkForKeywordMatch n' (Store.filterKeywords empty_store) in
   ~ Spec.highlight n' k /\
   map isHighlighted (Store.news (fst (Store.addNews clock0 c2_item empty_store)))
     = [Some true]) /\
  (let n' := Store.with_defaults clock0 untitled_item in
   let k := Notification.checkForKeywordMatch n' (Store.filterKeywords empty_store) in
   isHighlighted untitled_item = None /\
   ~ Spec.highlight n' k /\
   map isHighlighted (Store.news (fst (Store.addNews clock0 untitled_item empty_store)))
     = [Some true]) /\
  (let news' := Store.news (fst (Store.addNews clock0 undated_item one_stored)) in
   news' ≡ₚ Store.enhancedNewsItem one_stored undated_item :: Store.news one_stored /\
   ~ Spec.sorted_desc news' /\ ~ Spec.sorted_desc (rev news')).
Proof.
  split; [|split]; cbv zeta.
  - split; [|vm_compute; reflexivity].
    intros [(t & Ht & Hup) | [H | [(l & x & Hl & _) | H]]].
    + injection Ht as <-. vm_compute in Hup. discriminate.
    + vm_compute in H. discriminate.
    + vm_compute in Hl. discriminate.
    + apply H. reflexivity.
  - split; [reflexivity|]. split; [|vm_compute; reflexivity].
    intros [(t & Ht & _) | [H | [(l & x & Hl & _) | H]]].
    + vm_compute in Ht. discriminate.
    + vm_compute in H. discriminate.
    + vm_compute in Hl. discriminate.
    + apply H. reflexivity.
  - split; [|split].
    + vm_compute. reflexivity.
    + vm_compute. intros H. inversion H as [|? ? _ Hall]. inversion Hall as [|? ? Hle _].
      exact Hle.
    + vm_compute. intros H. inversion H as [|? ? _ Hall]. inversion Hall as [|? ? Hle _].
      exact Hle.
Qed.

Section Insertion.

Context {U : JS.CaseMapping}.

Lemma highlight_rule_spec (n : NewsItem) (k : option string) :
  Store.highlight_rule n k = true <-> title n = None \/ Spec.highlight n k.
Proof.
  unfold Store.highlight_rule, Spec.highlight.
  rewrite !orb_true_iff, String.eqb_eq. split.
  - intros [[[H | H] | H] | H].
    + destruct (title n) as [t|]; [right; left | now left].
      apply String.eqb_eq in H. eauto.
    + auto.
    + right; right; right; left. destruct (suggestions n) as [l|]; [|discriminate].
      apply existsb_exists in H. destruct H as (s & Hs & H).
      rewrite orb_true_iff, !String.eqb_eq in H. eauto.
    + right; right; right; right. destruct k; [discriminate | discriminate].
  - intros [H | [(t & Ht & H) | [H | [(l & s & Hl & Hs & H) | H]]]].
    + left; left; left. now rewrite H.
    + left; left; left. rewrite Ht. now apply String.eqb_eq.
    + auto.
    + left; right. rewrite Hl. apply existsb_exists. exists s. split; [exact Hs|].
      now rewrite orb_true_iff, !String.eqb_eq.
    + right. destruct k; [reflexivity | congruence].
Qed.

(** C2, as amended: a non-duplicate event that passes the two gates and
    carries a number for its [time], inserted into a store whose entries
    all do.  It is stored as the enhanced event: the event as [addNews]
    completed it, with [isHighlighted] set to [true] when it has no title
    or a heuristic holds (a title equal to its upper-casing, the source
    [Terminal], a BTC or ETH suggestion, a keyword match) and otherwise
    the flag the event arrived with, and with [matchedKeyword] the
    non-empty one the event arrived with or else the non-empty one the
    keyword matcher found.  The new list is the first 100 entries of the
    list that holds that event and the previous entries, is in descending
    order of [time], and keeps the entries of one [time] in the order of
    the event in front of the previous list: it is sorted, has at most 100
    entries, and every evicted entry is at most as recent as every entry
    kept. *)
Theorem C2_insert (c : Clock) (n : NewsItem) (st : Store.NewsState) :
  let n' := Store.with_defaults c n in
  let k := Notification.checkForKeywordMatch n' (Store.filterKeywords st) in
  let e := Store.enhancedNewsItem st n' in
  let all := JS.sort Store.by_time_desc (e :: Store.news st) in
  let news' := Store.news (fst (Store.addNews c n st)) in
  Store.disableApiRequests st && String.eqb (source n) "api" = false ->
  negb (Store.showTwitterPosts st) && Store.isTwitterOrXPost n = false ->
  (forall item, In item (Store.news st) -> ~ Spec.share_key item n') ->
  is_num (time n) = true ->
  Spec.timed (Store.news st) ->
  (news' = take 100 all /\ all ≡ₚ e :: Store.news st /\ Spec.sorted_desc all /\
   (forall t, filter (fun a => time a = t) all = filter (fun a => time a = t) (e :: Store.news st))) /\
  (e = Store.enhance (isHighlighted e) (matchedKeyword e) n' /\
   (title n = None \/ Spec.highlight n' k -> isHighlighted e = Some true) /\
   (~ (title n = None \/ Spec.highlight n' k) -> isHighlighted e = isHighlighted n) /\
   matchedKeyword e =
     (if JS.truthy_opt (matchedKeyword n) then matchedKeyword n
      else if JS.truthy_opt k then k else None)) /\
  Spec.sorted_desc news' /\
  (length news' <= 100)%nat /\
  (forall kept evicted, In kept news' -> In evicted (drop 100 all) ->
                        num_le (time evicted) (time kept)).
Proof.
  intros n' k e all news' Hapi Htw Hnew Hnum Htimed.
  assert (Hnews : news' = take 100 all).
  { unfold news', Store.addNews. rewrite Hapi, isTwitterOrXPost_defaults, Htw.
    fold n'. destruct (existsb (Store.duplicate_of n') (Store.news st)) eqn:E.
    - exfalso. apply existsb_exists in E. destruct E as (item & Hin & Hdup).
      apply duplicate_of_spec in Hdup. exact (Hnew item Hin Hdup).
    - reflexivity. }
  destruct (with_defaults_fields c n) as (Ht & _ & _ & Hu & Htime & _ & _ & Hh & Hm & _).
  fold n' in Ht, Hu, Htime, Hh, Hm.
  assert (Hsorted : Spec.sorted_desc all).
  { apply sort_sorted. constructor; [|exact Htimed].
    unfold e, Store.enhancedNewsItem. cbn [time Store.enhance]. now rewrite Htime. }
  assert (Hrule : Store.highlight_rule n' k = true <-> title n = None \/ Spec.highlight n' k).
  { rewrite highlight_rule_spec. now rewrite Ht. }
  repeat split.
  - exact Hnews.
  - apply sort_perm.
  - exact Hsorted.
  - intros t. apply sort_stable.
  - intros H. apply Hrule in H.
    unfold e, Store.enhancedNewsItem. cbn [isHighlighted Store.enhance]. fold k.
    now rewrite H.
  - intros H.
    unfold e, Store.enhancedNewsItem. cbn [isHighlighted Store.enhance]. fold k.
    destruct (Store.highlight_rule n' k) eqn:E; [|exact Hh].
    exfalso. apply H, Hrule. reflexivity.
  - unfold e, Store.enhancedNewsItem. cbn [matchedKeyword Store.enhance]. fold k.
    rewrite Hm. destruct (JS.truthy_opt (matchedKeyword n)) eqn:E; [now rewrite E | reflexivity].
  - rewrite Hnews. now apply sorted_desc_take.
  - rewrite Hnews. rewrite length_take. lia.
  - intros kept evicted Hk He. rewrite Hnews in Hk.
    apply (sorted_desc_app (take 100 all) (drop 100 all)); [|exact Hk | exact He].
    now rewrite take_drop.
Qed.

End Insertion.

(** The full store of 100 events takes an event of [time] 950: the event
    is stored, and the list still has 100 entries. *)
Lemma C2_insert_witness :
  Store.disableApiRequests full_store && String.eqb (source recent_event) "api" = false /\
  negb (Store.showTwitterPosts full_store) && Store.isTwitterOrXPost recent_event = false /\
  (forall item, In item (Store.news full_store) ->
                ~ Spec.share_key item (Store.with_defaults clock0 recent_event)) /\
  is_num (time recent_event) = true /\
  Spec.timed (Store.news full_store) /\
  Spec.sorted_desc (Store.news (fst (Store.addNews clock0 recent_event full_store))) /\
  length (Store.news (fst (Store.addNews clock0 recent_event full_store))) = 100%nat.
Proof.
  assert (Hnew : forall item, In item (Store.news full_store) ->
                   ~ Spec.share_key item (Store.with_defaults clock0 recent_event)).
  { intros item Hin Hs. apply duplicate_of_spec in Hs.
    assert (Hex : existsb (Store.duplicate_of (Store.with_defaults clock0 recent_event))
                    (Store.news full_store) = true)
      by (apply existsb_exists; eauto).
    vm_compute in Hex. discriminate. }
  assert (Htimed : Spec.timed (Store.news full_store)).
  { apply (Forall_forallb _ (fun a => is_num (time a))); [auto|].
    vm_compute. reflexivity. }
  split; [reflexivity|]. split; [reflexivity|]. split; [exact Hnew|].
  split; [reflexivity|]. split; [exact Htimed|].
  destruct (C2_insert clock0 recent_event full_store eq_refl eq_refl Hnew eq_refl Htimed)
    as (_ & _ & Hsorted & _).
  split; [exact Hsorted | vm_compute; reflexivity].
Defined.

(** ** The format adapters (C3) *)


















Lemma phoenix_info_object (e : Adapter.Env) (item q : Adapter.JValue)
    (info : Adapter.JValue) :
  Adapter.phoenix_info e item q = Adapter.Ok info -> exists ps, info = Adapter.JObj ps.
Proof.
  unfold Adapter.phoenix_info, Adapter.bind. intros E.
  repeat match type of E with
    | match ?x with _ => _ end = _ => destruct x eqn:?; try discriminate
    | (if ?x then _ else _) = _ => destruct x eqn:?; try discriminate
    end;
  injection E as <-; simpl; eauto.
Qed.








(** A malformed item: an object whose [title] is a number. *)
Example malformed_title :
  Adapter.convertTreeFormat env0 (Adapter.JObj [("title", Adapter.JNum 5)])
    = Adapter.placeholder "tree" env0 /\
  Adapter.convertPhoenixFormat env0 (Adapter.JObj [("title", Adapter.JNum 5)])
    = Adapter.placeholder "phoenix" env0.
Proof. split; vm_compute; reflexivity. Qed.

(** In a browser the number is written into the [textarea] and read back:
    the same item is converted, its title the text [5]. *)
Example malformed_title_in_browser :
  Adapter.prop (Adapter.convertTreeFormat browser_env (Adapter.JObj [("title", Adapter.JNum 5)]))
    "title" = Adapter.JStr "5".
Proof. vm_compute. reflexivity. Qed.

(** A date that is an object with a property [toString] of its own makes
    [new Date] throw: the Phoenix adapter answers with its placeholder. *)
Example unreadable_date :
  Adapter.convertPhoenixFormat env0
    (Adapter.JObj [("title", Adapter.JStr "listing announced");
                   ("createdAt", Adapter.JObj [("toString", Adapter.JNum 1)])])
    = Adapter.placeholder "phoenix" env0.
Proof. vm_compute. reflexivity. Qed.

(** ** Splitting strings at an occurrence *)

Lemma indexOf_from_find (i : Z) (s n : string) :
  JS.indexOf_from i s n =
  match Spec.find_index s n with
  | Some k => i + Z.of_nat k
  | None => -1
  end.
Proof.
  revert i. induction s as [|c s IH]; intros i; simpl.
  - destruct (JS.startsWith "" n); [lia | reflexivity].
  - destruct (JS.startsWith (String c s) n); [lia|].
    rewrite IH. destruct (Spec.find_index s n); [lia | reflexivity].
Qed.

Lemma indexOf_find (s n : string) :
  JS.indexOf s n =
  match Spec.find_index s n with
  | Some k => Z.of_nat k
  | None => -1
  end.
Proof.
  unfold JS.indexOf. rewrite indexOf_from_find. destruct (Spec.find_index s n); lia.
Qed.

Lemma find_index_first (s n a b : string) :
  Spec.first_at s n a b -> Spec.find_index s n = Some (String.length a).
Proof.
  revert s. induction a as [|c a IH]; intros s [Heq Hmin].
  - rewrite app_nil_l in Heq.
    assert (H : JS.startsWith s n = true) by (apply startsWith_spec; eauto).
    destruct s; simpl; now rewrite H.
  - rewrite app_cons in Heq. subst s. simpl.
    destruct (JS.startsWith _ n) eqn:E.
    + apply startsWith_spec in E. destruct E as [r Hr].
      specialize (Hmin "" r). rewrite app_nil_l in Hmin. specialize (Hmin Hr).
      simpl in Hmin. lia.
    + rewrite (IH (a +:+ n +:+ b)); [reflexivity|].
      split; [reflexivity|]. intros a' b' H.
      specialize (Hmin (String c a') b'). rewrite app_cons, <- H in Hmin.
      specialize (Hmin eq_refl). simpl in Hmin. lia.
Qed.

Lemma find_index_Some (s n : string) (k : nat) :
  Spec.find_index s n = Some k ->
  exists a b, Spec.first_at s n a b /\ String.length a = k.
Proof.
  revert k. induction s as [|c s IH]; intros k; simpl.
  - destruct (JS.startsWith "" n) eqn:E; [|discriminate].
    intros [= <-]. apply startsWith_spec in E. destruct E as [r Hr].
    exists "", r. repeat split; [exact Hr | intros; simpl; lia].
  - destruct (JS.startsWith (String c s) n) eqn:E.
    + intros [= <-]. apply startsWith_spec in E. destruct E as [r Hr].
      exists "", r. repeat split; [exact Hr | intros; simpl; lia].
    + destruct (Spec.find_index s n) as [j|] eqn:Ej; [|discriminate].
      intros [= <-]. destruct (IH j eq_refl) as (a & b & [Heq Hmin] & Hlen).
      exists (String c a), b. repeat split.
      * rewrite app_cons. now rewrite <- Heq.
      * intros a' b' H. destruct a' as [|c' a'].
        -- rewrite app_nil_l in H.
           assert (JS.startsWith (String c s) n = true) by (apply startsWith_spec; eauto).
           congruence.
        -- rewrite app_cons in H. injection H as _ H.
           specialize (Hmin a' b' H). simpl. lia.
      * simpl. now rewrite Hlen.
Qed.

Lemma find_index_None (s n : string) :
  Spec.find_index s n = None <-> JS.includes s n = false.
Proof.
  induction s as [|c s IH]; simpl.
  - destruct (JS.startsWith "" n); simpl; split; intros; congruence.
  - destruct (JS.startsWith (String c s) n); simpl; [split; discriminate|].
    rewrite <- IH. destruct (Spec.find_index s n); split; congruence.
Qed.

Lemma app_inv_length (a b a' b' : string) :
  a +:+ b = a' +:+ b' -> String.length a = String.length a' -> a = a' /\ b = b'.
Proof.
  revert a'. induction a as [|c a IH]; intros [|c' a'] H Hl; try discriminate.
  - auto.
  - rewrite !app_cons in H. injection H as -> H. injection Hl as Hl.
    destruct (IH a' H Hl) as [-> ->]. auto.
Qed.

Lemma first_at_of_find_index (s n a b : string) :
  Spec.find_index s n = Some (String.length a) -> s = a +:+ n +:+ b ->
  Spec.first_at s n a b.
Proof.
  intros Hf Heq. apply find_index_Some in Hf.
  destruct Hf as (a0 & b0 & [Heq0 Hmin] & Hlen).
  split; [exact Heq|]. intros a' b' H. rewrite <- Hlen. now apply (Hmin a' b').
Qed.

Lemma drop_app (a r : string) : JS.drop (String.length a) (a +:+ r) = r.
Proof. induction a as [|c a IH]; [reflexivity | rewrite app_cons; exact IH]. Qed.

Lemma take_app (a r : string) : JS.take (String.length a) (a +:+ r) = a.
Proof.
  induction a as [|c a IH]; [reflexivity | rewrite app_cons; simpl; now rewrite IH].
Qed.

Lemma substring_prefix (a r : string) :
  JS.substring (a +:+ r) 0 (Z.of_nat (String.length a)) = a.
Proof.
  unfold JS.substring. rewrite Z.min_l, Z.max_r by lia.
  rewrite Nat2Z.id. simpl. rewrite Nat.sub_0_r. apply take_app.
Qed.

Lemma substring_from_suffix (a r : string) :
  JS.substring_from (a +:+ r) (Z.of_nat (String.length a)) = r.
Proof. unfold JS.substring_from. rewrite Nat2Z.id. apply drop_app. Qed.

(** A string without the byte [c] before an occurrence of [c]: that
    occurrence is the first. *)
Lemma first_at_char (c : ascii) (a b : string) :
  Spec.all_chars (fun x => negb (Ascii.eqb x c)) a = true ->
  Spec.first_at (a +:+ String c "" +:+ b) (String c "") a b.
Proof.
  intros Hno. split; [reflexivity|].
  revert Hno. induction a as [|x a IH]; intros Hno a' b' H; [simpl; lia|].
  simpl in Hno. apply andb_true_iff in Hno. destruct Hno as [Hx Hno].
  destruct a' as [|x' a'].
  - rewrite app_nil_l, !app_cons in H. injection H as -> _.
    rewrite Ascii.eqb_refl in Hx. discriminate.
  - rewrite !app_cons in H. injection H as _ H.
    specialize (IH Hno a' b' H). simpl. lia.
Qed.

(** ** White space *)

Lemma white_space_chars : forallb Spec.one_char JS.white_space = true.
Proof. vm_compute. reflexivity. Qed.

Lemma line_terminator_chars : forallb Spec.one_char JS.line_terminators = true.
Proof. vm_compute. reflexivity. Qed.

Lemma startsWith_app_cont (w s x : string) :
  Spec.all_chars Spec.continuation w = true -> Spec.at_boundary x = true ->
  JS.startsWith (s +:+ x) w = JS.startsWith s w.
Proof.
  revert s. induction w as [|a w IH]; intros s Hw Hx; [reflexivity|].
  cbn [Spec.all_chars] in Hw. apply andb_true_iff in Hw. destruct Hw as [Ha Hw].
  destruct s as [|c s].
  - rewrite app_nil_l. destruct x as [|d x]; [reflexivity|].
    cbn [JS.startsWith]. destruct (Ascii.eqb a d) eqn:E; [|reflexivity].
    apply Ascii.eqb_eq in E. subst d. cbn [Spec.at_boundary] in Hx. now rewrite Ha in Hx.
  - rewrite app_cons. cbn [JS.startsWith]. destruct (Ascii.eqb a c); [|reflexivity].
    now apply IH.
Qed.

Lemma startsWith_app_char (w s x : string) :
  Spec.one_char w = true -> s <> "" -> Spec.at_boundary x = true ->
  JS.startsWith (s +:+ x) w = JS.startsWith s w.
Proof.
  intros Hw Hs Hx. destruct w as [|a w]; [discriminate|].
  cbn [Spec.one_char] in Hw. apply andb_true_iff in Hw. destruct Hw as [_ Hw].
  destruct s as [|c s]; [congruence|].
  rewrite app_cons. cbn [JS.startsWith]. destruct (Ascii.eqb a c); [|reflexivity].
  now apply startsWith_app_cont.
Qed.

Lemma prefix_len_app (ps : list string) (s x : string) :
  forallb Spec.one_char ps = true -> s <> "" -> Spec.at_boundary x = true ->
  JS.prefix_len ps (s +:+ x) = JS.prefix_len ps s.
Proof.
  intros Hps Hs Hx. induction ps as [|p ps IH]; [reflexivity|].
  cbn [forallb] in Hps. apply andb_true_iff in Hps. destruct Hps as [Hp Hps].
  cbn [JS.prefix_len]. rewrite (startsWith_app_char p s x Hp Hs Hx).
  destruct (JS.startsWith s p); [reflexivity | now apply IH].
Qed.

Lemma ws_len_app (s x : string) :
  s <> "" -> Spec.at_boundary x = true -> JS.ws_len (s +:+ x) = JS.ws_len s.
Proof. apply prefix_len_app, white_space_chars. Qed.

Lemma lt_len_app (s x : string) :
  s <> "" -> Spec.at_boundary x = true -> JS.lt_len (s +:+ x) = JS.lt_len s.
Proof. apply prefix_len_app, line_terminator_chars. Qed.

Lemma prefix_len_found (ps : list string) (s : string) (k : nat) :
  JS.prefix_len ps s = S k ->
  exists p r, In p ps /\ s = p +:+ r /\ String.length p = S k.
Proof.
  induction ps as [|p ps IH]; [discriminate|].
  cbn [JS.prefix_len]. destruct (JS.startsWith s p) eqn:E.
  - intros H. apply startsWith_spec in E. destruct E as [r Hr].
    exists p, r. repeat split; [now left | exact Hr | exact H].
  - intros H. destruct (IH H) as (q & r & Hq & Hr & Hl). exists q, r. repeat split; auto.
    now right.
Qed.

Lemma prefix_len_none (ps : list string) (s : string) :
  JS.prefix_len ps s = O -> forallb (fun p => negb (String.eqb p "")) ps = true ->
  Forall (fun p => JS.startsWith s p = false) ps.
Proof.
  induction ps as [|p ps IH]; intros H Hne; [constructor|].
  cbn [forallb] in Hne. apply andb_true_iff in Hne. destruct Hne as [Hp Hne].
  cbn [JS.prefix_len] in H. destruct (JS.startsWith s p) eqn:E.
  - destruct p; [discriminate | discriminate].
  - constructor; [exact E | now apply IH].
Qed.

Lemma prefix_len_le (ps : list string) (s : string) :
  (JS.prefix_len ps s <= String.length s)%nat.
Proof.
  destruct (JS.prefix_len ps s) as [|k] eqn:E; [lia|].
  destruct (prefix_len_found ps s k E) as (p & r & _ & -> & Hl).
  rewrite app_length. lia.
Qed.

Lemma drop_all (s : string) (k : nat) :
  (String.length s <= k)%nat -> JS.drop k s = "".
Proof.
  revert k. induction s as [|c s IH]; intros [|k] H; simpl in *; try reflexivity; try lia.
  apply IH. lia.
Qed.

Lemma trimStart_go_drop (k : nat) (s : string) :
  JS.trimStart_go k s = JS.trimStart (JS.drop k s).
Proof.
  revert k. induction s as [|c s IH]; intros [|k]; try reflexivity.
  cbn [JS.trimStart_go JS.drop]. apply IH.
Qed.

Lemma trimStart_eq (s : string) :
  JS.trimStart s =
  match JS.ws_len s with
  | O => s
  | S k => JS.trimStart (JS.drop (S k) s)
  end.
Proof.
  unfold JS.trimStart at 1. destruct s as [|c s]; [now destruct (JS.ws_len "")|].
  cbn [JS.trimStart_go]. destruct (JS.ws_len (String c s)) as [|k]; [reflexivity|].
  cbn [JS.drop]. apply trimStart_go_drop.
Qed.

Lemma drop_app_le (k : nat) (s x : string) :
  (k <= String.length s)%nat -> JS.drop k (s +:+ x) = JS.drop k s +:+ x.
Proof.
  revert s. induction k as [|k IH]; intros s H; [reflexivity|].
  destruct s as [|c s]; [simpl in H; lia|].
  rewrite app_cons. cbn [JS.drop]. apply IH. simpl in H. lia.
Qed.

Lemma drop_length_lt (k : nat) (s : string) :
  (String.length (JS.drop (S k) s) < String.length s)%nat \/ s = "".
Proof.
  destruct s as [|c s]; [now right|]. left. cbn [JS.drop String.length].
  revert s. induction k as [|k IH]; intros s; [simpl; lia|].
  destruct s as [|d s]; [simpl; lia|]. cbn [JS.drop String.length].
  specialize (IH s). lia.
Qed.

Lemma ws_len_nil : JS.ws_len "" = O.
Proof. reflexivity. Qed.

Lemma all_space_eq (s : string) :
  JS.all_space s =
  match JS.ws_len s with
  | O => match s with EmptyString => true | String _ _ => false end
  | S k => JS.all_space (JS.drop (S k) s)
  end.
Proof.
  unfold JS.all_space. rewrite trimStart_eq.
  destruct (JS.ws_len s); reflexivity.
Qed.

(** What follows white space at a character boundary decides where the
    trimmed text starts. *)
Lemma trimStart_app (s x : string) :
  Spec.at_boundary x = true ->
  JS.trimStart (s +:+ x) =
  if JS.all_space s then JS.trimStart x else JS.trimStart s +:+ x.
Proof.
  intros Hx. remember (String.length s) as n eqn:Hn. revert s Hn.
  induction n as [n IH] using lt_wf_ind. intros s Hn.
  destruct s as [|c s]; [reflexivity|].
  rewrite (trimStart_eq (String c s +:+ x)), ws_len_app by (try discriminate; exact Hx).
  rewrite (all_space_eq (String c s)), (trimStart_eq (String c s)).
  destruct (JS.ws_len (String c s)) as [|k] eqn:E; [reflexivity|].
  rewrite drop_app_le by (rewrite <- E; apply prefix_len_le).
  apply (IH (String.length (JS.drop (S k) (String c s)))); [|reflexivity].
  subst n. destruct (drop_length_lt k (String c s)); [assumption | discriminate].
Qed.

(** ** The pattern for [Name (@handle)] *)

Lemma all_chars_app (f : ascii -> bool) (a b : string) :
  Spec.all_chars f (a +:+ b) = Spec.all_chars f a && Spec.all_chars f b.
Proof.
  induction a as [|c a IH]; [reflexivity|].
  rewrite app_cons. simpl. now rewrite IH, andb_assoc.
Qed.

Lemma all_chars_drop (f : ascii -> bool) (k : nat) (s : string) :
  Spec.all_chars f s = true -> Spec.all_chars f (JS.drop k s) = true.
Proof.
  revert s. induction k as [|k IH]; intros s H; [exact H|].
  destruct s as [|c s]; [reflexivity|]. cbn [JS.drop].
  cbn [Spec.all_chars] in H. apply andb_true_iff in H. now apply IH.
Qed.

Lemma all_chars_trimStart (f : ascii -> bool) (s : string) :
  Spec.all_chars f s = true -> Spec.all_chars f (JS.trimStart s) = true.
Proof.
  remember (String.length s) as n eqn:Hn. revert s Hn.
  induction n as [n IH] using lt_wf_ind. intros s Hn H.
  rewrite trimStart_eq. destruct (JS.ws_len s) as [|k] eqn:E; [exact H|].
  destruct (drop_length_lt k s) as [Hlt | ->]; [|reflexivity].
  apply (IH (String.length (JS.drop (S k) s))); [lia | reflexivity|].
  now apply all_chars_drop.
Qed.

Lemma spaces_then_group_no_paren (s : string) :
  Spec.without "(" s = true -> Adapter.spaces_then_group s = None.
Proof.
  intros H. unfold Adapter.spaces_then_group.
  apply all_chars_trimStart in H. destruct (JS.trimStart s) as [|d r]; [reflexivity|].
  cbn [Spec.without Spec.all_chars] in H. apply andb_true_iff in H. destruct H as [Hd _].
  apply negb_true_iff in Hd. now rewrite Hd.
Qed.

Lemma not_all_space (s : string) :
  s <> "" -> JS.trimEnd s = s -> JS.all_space s = false.
Proof.
  intros Hne H. destruct s as [|c s]; [congruence|].
  cbn [JS.trimEnd] in H. destruct (JS.all_space (String c s)); [discriminate | reflexivity].
Qed.

Lemma trimEnd_tail (c : ascii) (s : string) :
  JS.trimEnd (String c s) = String c s -> JS.trimEnd s = s.
Proof.
  cbn [JS.trimEnd]. destruct (JS.all_space (String c s)); [discriminate|].
  now intros [= H].
Qed.

(** In front of a name that does not end in white space and holds no
    opening parenthesis, [\s*\(] does not match. *)
Lemma spaces_then_group_name (nm x : string) :
  nm <> "" -> JS.trimEnd nm = nm -> Spec.without "(" nm = true ->
  Spec.at_boundary x = true ->
  Adapter.spaces_then_group (nm +:+ x) = None.
Proof.
  intros Hne Hts Hch Hx. unfold Adapter.spaces_then_group.
  rewrite (trimStart_app nm x Hx), (not_all_space nm Hne Hts).
  apply all_chars_trimStart in Hch.
  assert (Hs : JS.all_space nm = false) by now apply not_all_space.
  unfold JS.all_space in Hs.
  destruct (JS.trimStart nm) as [|d r]; [discriminate|].
  rewrite app_cons. cbn [Spec.without Spec.all_chars] in Hch.
  apply andb_true_iff in Hch. destruct Hch as [Hd _].
  apply negb_true_iff in Hd. now rewrite Hd.
Qed.

Lemma includes_tail_false (c : ascii) (s n : string) :
  JS.includes (String c s) n = false -> JS.includes s n = false.
Proof. cbn [JS.includes]. intros H. apply orb_false_iff in H. tauto. Qed.

Lemma one_line_tail (c : ascii) (s : string) :
  Spec.one_line (String c s) = true -> Spec.one_line s = true.
Proof.
  unfold Spec.one_line. rewrite !forallb_forall. intros H t Ht.
  specialize (H t Ht). apply negb_true_iff in H. apply negb_true_iff.
  now apply (includes_tail_false c).
Qed.

Lemma prefix_len_zero (ps : list string) (s : string) :
  Forall (fun p => JS.startsWith s p = false) ps -> JS.prefix_len ps s = O.
Proof.
  induction 1 as [|p ps Hp _ IH]; [reflexivity|].
  cbn [JS.prefix_len]. now rewrite Hp.
Qed.

Lemma one_line_lt_len (s : string) :
  Spec.one_line s = true -> JS.lt_len s = O.
Proof.
  unfold Spec.one_line, JS.lt_len. intros H. apply prefix_len_zero.
  rewrite forallb_forall in H. rewrite Forall_forall. intros t Ht.
  apply list_elem_of_In in Ht. specialize (H t Ht). apply negb_true_iff in H.
  destruct s as [|c s]; cbn [JS.includes] in H; apply orb_false_iff in H; tauto.
Qed.

Lemma lt_len_inside (s x : string) :
  s <> "" -> Spec.one_line s = true -> Spec.at_boundary x = true ->
  JS.lt_len (s +:+ x) = O.
Proof. intros Hs H Hx. rewrite lt_len_app by assumption. now apply one_line_lt_len. Qed.

Lemma lazy_until_close_eq (s : string) :
  Adapter.lazy_until_close s =
  match s with
  | EmptyString => None
  | String c r =>
      if Ascii.eqb c ")" then Some EmptyString
      else if (0 <? JS.lt_len s)%nat then None
      else match Adapter.lazy_until_close r with
           | Some g => Some (String c g)
           | None => None
           end
  end.
Proof. destruct s; reflexivity. Qed.

Lemma lazy_until_close_handle (h rest : string) :
  Spec.one_line h = true -> Spec.without ")" h = true ->
  Adapter.lazy_until_close (h +:+ ")" +:+ rest) = Some h.
Proof.
  induction h as [|c h IH]; intros Hl Hp.
  - reflexivity.
  - cbn [Spec.without Spec.all_chars] in Hp. apply andb_true_iff in Hp.
    destruct Hp as [Hc Hp]. apply negb_true_iff in Hc.
    rewrite lazy_until_close_eq, app_cons, Hc.
    rewrite <- app_cons, lt_len_inside by (try discriminate; try exact Hl; reflexivity).
    cbn [Nat.ltb Nat.leb]. rewrite IH; [reflexivity | now apply (one_line_tail c) | exact Hp].
Qed.

Lemma match_here_eq (s : string) :
  Adapter.match_here s =
  match Adapter.spaces_then_group s with
  | Some g2 => Some (EmptyString, g2)
  | None =>
      match s with
      | EmptyString => None
      | String c r =>
          if (0 <? JS.lt_len s)%nat then None
          else match Adapter.match_here r with
               | Some (g1, g2) => Some (String c g1, g2)
               | None => None
               end
      end
  end.
Proof. destruct s; reflexivity. Qed.

Lemma at_boundary_app (a b : string) :
  Spec.at_boundary a = true -> Spec.at_boundary b = true -> Spec.at_boundary (a +:+ b) = true.
Proof. destruct a; [now rewrite app_nil_l | intros H _; exact H]. Qed.

Lemma all_space_boundary (ws : string) : JS.all_space ws = true -> Spec.at_boundary ws = true.
Proof.
  rewrite all_space_eq. destruct (JS.ws_len ws) as [|k] eqn:E.
  - destruct ws; [reflexivity | discriminate].
  - intros _. destruct (prefix_len_found _ _ _ E) as (p & r & Hp & -> & _).
    pose proof white_space_chars as H. rewrite forallb_forall in H.
    specialize (H p Hp). destruct p as [|c p]; [discriminate|].
    cbn [Spec.one_char] in H. apply andb_true_iff in H. rewrite app_cons. apply H.
Qed.

Lemma match_here_name_handle (nm ws h rest : string) :
  JS.trimEnd nm = nm -> Spec.one_line nm = true -> Spec.without "(" nm = true ->
  JS.all_space ws = true ->
  Spec.one_line h = true -> Spec.without ")" h = true ->
  Adapter.match_here (nm +:+ ws +:+ "(" +:+ h +:+ ")" +:+ rest) = Some (nm, h).
Proof.
  intros Hts Hl Hch Hws Hhl Hhp.
  assert (Hx : Spec.at_boundary (ws +:+ "(" +:+ h +:+ ")" +:+ rest) = true)
    by (apply at_boundary_app; [now apply all_space_boundary | reflexivity]).
  induction nm as [|c nm IH].
  - rewrite app_nil_l.
    assert (Hg : Adapter.spaces_then_group (ws +:+ "(" +:+ h +:+ ")" +:+ rest) = Some h).
    { unfold Adapter.spaces_then_group.
      rewrite (trimStart_app ws ("(" +:+ h +:+ ")" +:+ rest) eq_refl), Hws.
      rewrite trimStart_eq, app_cons. cbn. now apply lazy_until_close_handle. }
    now rewrite match_here_eq, Hg.
  - rewrite match_here_eq.
    rewrite (spaces_then_group_name (String c nm));
      [|discriminate | exact Hts | exact Hch | exact Hx].
    rewrite lt_len_inside by (try discriminate; assumption).
    cbn [Nat.ltb Nat.leb]. rewrite app_cons.
    cbn [Spec.without Spec.all_chars] in Hch. apply andb_true_iff in Hch.
    rewrite IH; [reflexivity | now apply (trimEnd_tail c) | now apply (one_line_tail c) | apply Hch].
Qed.

Lemma username_match_name_handle (nm ws h : string) :
  JS.trimEnd nm = nm -> Spec.one_line nm = true -> Spec.without "(" nm = true ->
  JS.all_space ws = true ->
  Spec.one_line h = true -> Spec.without ")" h = true ->
  Adapter.username_match ((nm +:+ ws +:+ "(" +:+ h) +:+ ")") = Some (nm, h).
Proof.
  intros Hts Hl Hch Hws Hhl Hhp.
  assert (H : Adapter.match_here ((nm +:+ ws +:+ "(" +:+ h) +:+ ")") = Some (nm, h)).
  { rewrite !app_assoc. now apply (match_here_name_handle nm ws h ""). }
  unfold Adapter.username_match, Adapter.username_match_go.
  destruct ((nm +:+ ws +:+ "(" +:+ h) +:+ ")"); now rewrite H.
Qed.

Lemma match_here_no_paren (s : string) :
  Spec.without "(" s = true -> Adapter.match_here s = None.
Proof.
  induction s as [|c s IH]; intros H.
  - reflexivity.
  - rewrite match_here_eq, (spaces_then_group_no_paren _ H).
    cbn [Spec.without Spec.all_chars] in H. apply andb_true_iff in H. destruct H as [_ H].
    rewrite (IH H). now destruct (0 <? JS.lt_len (String c s))%nat.
Qed.

Lemma username_match_go_no_paren (k : nat) (s : string) :
  Spec.without "(" s = true -> Adapter.username_match_go k s = None.
Proof.
  revert k. induction s as [|c s IH]; intros k H.
  - destruct k; reflexivity.
  - assert (Hs : Spec.without "(" s = true).
    { cbn [Spec.without Spec.all_chars] in H. apply andb_true_iff in H. apply H. }
    destruct k as [|k]; cbn [Adapter.username_match_go].
    + rewrite (match_here_no_paren _ H). now apply IH.
    + now apply IH.
Qed.

Lemma username_match_no_paren (s : string) :
  Spec.without "(" s = true -> Adapter.username_match s = None.
Proof. apply username_match_go_no_paren. Qed.

(** ** The quoted content of a Phoenix post (C4) *)

Lemma split_quote_found (main uinfo rest : string) :
  Spec.first_at (main +:+ Adapter.quoteMarker +:+ uinfo +:+ ")" +:+ rest)
                Adapter.quoteMarker main (uinfo +:+ ")" +:+ rest) ->
  Spec.without ")" uinfo = true ->
  Adapter.split_quote (main +:+ Adapter.quoteMarker +:+ uinfo +:+ ")" +:+ rest) =
  (JS.trim main,
   match Adapter.username_match (uinfo +:+ ")") with
   | Some (g1, g2) =>
       Adapter.JObj [("name", Adapter.JStr (JS.trim g1));
                     ("screen_name", Adapter.JStr (JS.replaceFirst (JS.trim g2) "@" ""));
                     ("text", Adapter.JStr (JS.trim rest));
                     ("icon", Adapter.JUndefined);
                     ("image", Adapter.JNull)]
   | None =>
       Adapter.JObj [("name", Adapter.JStr (uinfo +:+ ")"));
                     ("screen_name", Adapter.JStr "");
                     ("text", Adapter.JStr (JS.trim rest));
                     ("icon", Adapter.JNull);
                     ("image", Adapter.JNull)]
   end).
Proof.
  intros Hfirst Hno.
  set (body := main +:+ Adapter.quoteMarker +:+ uinfo +:+ ")" +:+ rest).
  set (qc := uinfo +:+ ")" +:+ rest).
  assert (Hqi : JS.indexOf body Adapter.quoteMarker = Z.of_nat (String.length main)).
  { unfold body. rewrite indexOf_find, (find_index_first _ _ _ _ Hfirst). reflexivity. }
  assert (Hqc : JS.substring_from body
                  (Z.of_nat (String.length main) + Z.of_nat (String.length Adapter.quoteMarker))
                = qc).
  { rewrite <- Nat2Z.inj_add, <- app_length. unfold body.
    rewrite <- (app_assoc main Adapter.quoteMarker). apply substring_from_suffix. }
  assert (Hue : JS.indexOf qc ")" = Z.of_nat (String.length uinfo)).
  { unfold qc. rewrite indexOf_find.
    rewrite (find_index_first _ _ _ _ (first_at_char ")"%char uinfo rest Hno)). reflexivity. }
  assert (Hinfo : JS.substring qc 0 (Z.of_nat (String.length uinfo) + 1) = uinfo +:+ ")").
  { replace (Z.of_nat (String.length uinfo) + 1)
      with (Z.of_nat (String.length (uinfo +:+ ")"))) by (rewrite app_length; simpl; lia).
    unfold qc. rewrite <- (app_assoc uinfo ")" rest). apply substring_prefix. }
  assert (Hrest : JS.substring_from qc (Z.of_nat (String.length uinfo) + 1) = rest).
  { replace (Z.of_nat (String.length uinfo) + 1)
      with (Z.of_nat (String.length (uinfo +:+ ")"))) by (rewrite app_length; simpl; lia).
    unfold qc. rewrite <- (app_assoc uinfo ")" rest). apply substring_from_suffix. }
  unfold Adapter.split_quote. fold body. rewrite Hqi.
  replace (negb (Z.of_nat (String.length main) =? -1)%Z) with true
    by (symmetry; apply negb_true_iff, Z.eqb_neq; lia).
  assert (Hmain : JS.substring body 0 (Z.of_nat (String.length main)) = main)
    by apply substring_prefix.
  rewrite Hqc, Hue, Hmain.
  replace (negb (Z.of_nat (String.length uinfo) =? -1)%Z &&
           (Z.of_nat (String.length uinfo) <? Z.of_nat (String.length qc))%Z) with true.
  2:{ symmetry. apply andb_true_iff. split.
      - apply negb_true_iff, Z.eqb_neq. lia.
      - apply Z.ltb_lt. unfold qc. rewrite !app_length. simpl. lia. }
  rewrite Hinfo, Hrest. unfold Adapter.try_catch.
  destruct (Adapter.username_match (uinfo +:+ ")")) as [[g1 g2]|]; reflexivity.
Qed.

Lemma decode_string (e : Adapter.Env) (t : string) :
  Adapter.decodeHtmlEntities e (Adapter.JStr t)
  = Adapter.Ok (TextUtils.decodeHtmlEntities (Adapter.text_document e) (Some t)).
Proof.
  unfold Adapter.decodeHtmlEntities, TextUtils.decodeHtmlEntities, Adapter.text_document.
  change (Adapter.truthy (Adapter.JStr t)) with (JS.truthy t).
  destruct (JS.truthy t); [|reflexivity]. cbn [negb].
  destruct (Adapter.document e) as [dom|]; [|reflexivity].
  destruct (dom (Adapter.JStr t)); reflexivity.
Qed.

Lemma decode_plain (e : Adapter.Env) (t : string) :
  Spec.plain_decoder e -> Spec.plain_text t = true ->
  TextUtils.decode_chain t = t ->
  TextUtils.decodeHtmlEntities (Adapter.text_document e) (Some t) = t.
Proof.
  intros He Ht Hc. unfold TextUtils.decodeHtmlEntities, Adapter.text_document.
  destruct (JS.truthy t) eqn:E.
  - destruct (Adapter.document e) as [dom|] eqn:Ed; [|exact Hc].
    rewrite (He dom t Ed Ht).
    unfold Spec.plain_text in Ht. rewrite !andb_true_iff in Ht.
    destruct Ht as [[[_ _] Hnl] _].
    unfold Spec.without in Hnl. clear -Hnl.
    unfold JS.replaceAll, TextUtils.newline. induction t as [|c t IH]; [reflexivity|].
    cbn [Spec.all_chars] in Hnl. apply andb_true_iff in Hnl. destruct Hnl as [Hc Hnl].
    apply negb_true_iff in Hc.
    cbn [JS.replaceAll_go JS.startsWith]. rewrite Ascii.eqb_sym, Hc. now rewrite (IH Hnl).
  - unfold JS.truthy in E. apply negb_false_iff, String.eqb_eq in E. now subst.
Qed.

Lemma phoenix_quote_output (e : Adapter.Env) (ps : list (string * Adapter.JValue))
    (b t : string) (q : Adapter.JValue) :
  let item := Adapter.JObj ps in
  let out := Adapter.convertPhoenixFormat e item in
  Adapter.phoenix_isTwitterOrXPost item = true ->
  Adapter.truthy (Adapter.prop item "isQuote") = true ->
  Adapter.phoenix_timestamp e item <> Adapter.Throw ->
  Adapter.prop item "body" = Adapter.JStr b ->
  JS.truthy b = true ->
  Adapter.split_quote b = (t, q) ->
  Adapter.truthy q = true ->
  Adapter.prop out "title"
    = Adapter.JStr (TextUtils.cleanupTweetContent
                      (TextUtils.decodeHtmlEntities (Adapter.text_document e) (Some t))) /\
  Adapter.prop out "body" = Adapter.JStr "" /\
  Adapter.prop (Adapter.prop out "info") "quotedUser" = q.
Proof.
  intros item out Htw Hq Hts Hbody Hb Hsplit Hqt.
  assert (Htext : Adapter.phoenix_text true item = (Adapter.JStr t, Adapter.JStr "", q)).
  { unfold Adapter.phoenix_text. rewrite Hbody. unfold Adapter.or_else.
    change (Adapter.truthy (Adapter.JStr b)) with (JS.truthy b). rewrite Hb.
    cbn [andb]. change (Adapter.truthy (Adapter.JStr b)) with (JS.truthy b). rewrite Hb.
    unfold Adapter.quote_try. rewrite Hsplit. reflexivity. }
  assert (Hinfo : exists info, Adapter.phoenix_info e item q = Adapter.Ok info /\
                               Adapter.prop info "quotedUser" = q).
  { unfold Adapter.phoenix_info. rewrite Hq, Hqt. eexists. split; [reflexivity|].
    reflexivity. }
  destruct Hinfo as (info & Hinfo & Hquoted).
  destruct (Adapter.phoenix_timestamp e item) as [ts|] eqn:Ets; [|congruence].
  unfold out, Adapter.convertPhoenixFormat, Adapter.convertPhoenixFormat_try.
  change (negb (Adapter.truthy item) || negb (Adapter.typeof_object item)) with false.
  cbv iota. rewrite Htw, Htext, decode_string.
  change (Adapter.decodeHtmlEntities e (Adapter.JStr "")) with (@Adapter.Ok string "").
  cbn [Adapter.bind]. rewrite Ets. cbn [Adapter.bind]. rewrite Hinfo.
  cbn [Adapter.bind Adapter.try_catch]. unfold Adapter.phoenix_fields.
  cbn [Adapter.prop Adapter.lookup Adapter.set_prop Adapter.update String.eqb Ascii.eqb Bool.eqb].
  repeat split. exact Hquoted.
Qed.

(** C4, the claim as stated fails, in two ways.  A Twitter payload with
    the scenario's body but without [isQuote] comes out with the title
    [hello] and no quoted author at all: the parsed quote is attached only
    under [if (item.isQuote)].  And a payload with the scenario's body and
    the flag, but with a [createdAt] that [new Date] cannot read without
    throwing, comes out as the placeholder event. *)
Lemma C4_counterexample :
  (let item := Adapter.JObj [("source", Adapter.JStr "Twitter");
                             ("body", Adapter.JStr scenario_body)] in
   let out := Adapter.convertPhoenixFormat env0 item in
   Adapter.phoenix_isTwitterOrXPost item = true /\
   Adapter.prop out "title" = Adapter.JStr "hello" /\
   Adapter.prop (Adapter.prop out "info") "quotedUser" = Adapter.JUndefined /\
   Adapter.prop (Adapter.prop (Adapter.prop out "info") "quotedUser") "name"
     <> Adapter.JStr "Alice") /\
  (let out := Adapter.convertPhoenixFormat env0 unreadable_quote in
   Adapter.phoenix_isTwitterOrXPost unreadable_quote = true /\
   Adapter.truthy (Adapter.prop unreadable_quote "isQuote") = true /\
   Adapter.prop unreadable_quote "body" = Adapter.JStr scenario_body /\
   out = Adapter.placeholder "phoenix" env0 /\
   Adapter.prop out "title" <> Adapter.JStr "hello").
Proof. vm_compute. repeat split; discriminate. Qed.

(** White space that is not ASCII is white space: a no-break space in
    front of the quote marker and one behind the name are trimmed away. *)
Example quote_with_nbsp :
  let out := Adapter.convertPhoenixFormat env0
               (quote_with ("hello" +:+ nbsp +:+ "&gt;&gt;QUOTE Alice" +:+ nbsp
                            +:+ "(@alice) nice")) in
  let quoted := Adapter.prop (Adapter.prop out "info") "quotedUser" in
  Adapter.prop out "title" = Adapter.JStr "hello" /\
  Adapter.prop quoted "name" = Adapter.JStr "Alice" /\
  Adapter.prop quoted "screen_name" = Adapter.JStr "alice".
Proof. vm_compute. repeat split; reflexivity. Qed.

(** The dot of the pattern stops at a line separator: of a name that
    holds one, what stands behind it is matched. *)
Example name_with_line_separator :
  let out := Adapter.convertPhoenixFormat env0
               (quote_with ("hello &gt;&gt;QUOTE Al" +:+ line_separator
                            +:+ "ice (@alice) nice")) in
  let quoted := Adapter.prop (Adapter.prop out "info") "quotedUser" in
  Adapter.prop quoted "name" = Adapter.JStr "ice" /\
  Adapter.prop quoted "screen_name" = Adapter.JStr "alice".
Proof. vm_compute. repeat split; reflexivity. Qed.

Lemma truthy_app_marker (a b : string) :
  JS.truthy (a +:+ Adapter.quoteMarker +:+ b) = true.
Proof. apply truthy_true. destruct a; discriminate. Qed.

(** C4, as amended: for a Phoenix Twitter payload whose [isQuote] flag is
    set, whose date, where it stands in for a missing [time], does not
    make [new Date] throw, and whose body is
    [hello &gt;&gt;QUOTE Alice (@alice) nice], the output has title
    [hello], an empty body, and the quoted author [Alice] with handle
    [alice] and text [nice], where the decoder of the browser, if there is
    a [document], returns plain text as it is.  In general, for such a
    payload whose body is [main], the first quote marker, [uinfo], the
    first closing parenthesis and [rest]: the title is the trimmed [main],
    entity-decoded and cleaned up; the body is empty; the quoted text is
    the trimmed [rest]; when [uinfo] reads [Name (@handle], the name on one
    line, without an opening parenthesis and not ending in white space,
    the handle on one line, the quoted author is the trimmed name and the
    trimmed handle without its first [@]; and when [uinfo] has no opening
    parenthesis the whole prefix up to and including the closing
    parenthesis is the name and the handle is empty. *)
Theorem C4_quoted_content (e : Adapter.Env) (ps : list (string * Adapter.JValue)) :
  let item := Adapter.JObj ps in
  let out := Adapter.convertPhoenixFormat e item in
  let quoted := Adapter.prop (Adapter.prop out "info") "quotedUser" in
  Adapter.phoenix_isTwitterOrXPost item = true ->
  Adapter.truthy (Adapter.prop item "isQuote") = true ->
  Adapter.phoenix_timestamp e item <> Adapter.Throw ->
  (Adapter.prop item "body" = Adapter.JStr scenario_body ->
   Spec.plain_decoder e ->
   Adapter.prop out "title" = Adapter.JStr "hello" /\
   Adapter.prop out "body" = Adapter.JStr "" /\
   Adapter.prop quoted "name" = Adapter.JStr "Alice" /\
   Adapter.prop quoted "screen_name" = Adapter.JStr "alice" /\
   Adapter.prop quoted "text" = Adapter.JStr "nice") /\
  (forall main uinfo rest,
     Adapter.prop item "body"
       = Adapter.JStr (main +:+ Adapter.quoteMarker +:+ uinfo +:+ ")" +:+ rest) ->
     Spec.first_at (main +:+ Adapter.quoteMarker +:+ uinfo +:+ ")" +:+ rest)
                   Adapter.quoteMarker main (uinfo +:+ ")" +:+ rest) ->
     Spec.without ")" uinfo = true ->
     Adapter.prop out "title"
       = Adapter.JStr (TextUtils.cleanupTweetContent
                         (TextUtils.decodeHtmlEntities (Adapter.text_document e)
                            (Some (JS.trim main)))) /\
     Adapter.prop out "body" = Adapter.JStr "" /\
     Adapter.prop quoted "text" = Adapter.JStr (JS.trim rest) /\
     (forall nm ws h,
        uinfo = nm +:+ ws +:+ "(" +:+ h ->
        Spec.no_trailing_space nm = true ->
        Spec.one_line nm = true ->
        Spec.without "(" nm = true ->
        JS.all_space ws = true ->
        Spec.one_line h = true ->
        Adapter.prop quoted "name" = Adapter.JStr (JS.trim nm) /\
        Adapter.prop quoted "screen_name"
          = Adapter.JStr (JS.replaceFirst (JS.trim h) "@" "")) /\
     (Spec.without "(" uinfo = true ->
      Adapter.prop quoted "name" = Adapter.JStr (uinfo +:+ ")") /\
      Adapter.prop quoted "screen_name" = Adapter.JStr "")).
Proof.
  intros item out quoted Htw Hq Hts. subst quoted out item.
  assert (General : forall main uinfo rest,
     let out := Adapter.convertPhoenixFormat e (Adapter.JObj ps) in
     let quoted := Adapter.prop (Adapter.prop out "info") "quotedUser" in
     Adapter.prop (Adapter.JObj ps) "body"
       = Adapter.JStr (main +:+ Adapter.quoteMarker +:+ uinfo +:+ ")" +:+ rest) ->
     Spec.first_at (main +:+ Adapter.quoteMarker +:+ uinfo +:+ ")" +:+ rest)
                   Adapter.quoteMarker main (uinfo +:+ ")" +:+ rest) ->
     Spec.without ")" uinfo = true ->
     Adapter.prop out "title"
       = Adapter.JStr (TextUtils.cleanupTweetContent
                         (TextUtils.decodeHtmlEntities (Adapter.text_document e)
                            (Some (JS.trim main)))) /\
     Adapter.prop out "body" = Adapter.JStr "" /\
     Adapter.prop quoted "text" = Adapter.JStr (JS.trim rest) /\
     (forall nm ws h,
        uinfo = nm +:+ ws +:+ "(" +:+ h ->
        Spec.no_trailing_space nm = true ->
        Spec.one_line nm = true ->
        Spec.without "(" nm = true ->
        JS.all_space ws = true ->
        Spec.one_line h = true ->
        Adapter.prop quoted "name" = Adapter.JStr (JS.trim nm) /\
        Adapter.prop quoted "screen_name"
          = Adapter.JStr (JS.replaceFirst (JS.trim h) "@" "")) /\
     (Spec.without "(" uinfo = true ->
      Adapter.prop quoted "name" = Adapter.JStr (uinfo +:+ ")") /\
      Adapter.prop quoted "screen_name" = Adapter.JStr "")).
  { cbv zeta. intros main uinfo rest Hbody Hfirst Hno.
    pose proof (split_quote_found main uinfo rest Hfirst Hno) as Hsplit.
    match type of Hsplit with _ = (_, ?q) =>
      assert (Hqt : Adapter.truthy q = true)
        by (destruct (Adapter.username_match (uinfo +:+ ")")) as [[? ?]|]; reflexivity);
      destruct (phoenix_quote_output e ps _ _ q Htw Hq Hts Hbody (truthy_app_marker _ _)
                  Hsplit Hqt)
        as (Htitle & Hb & Hquoted)
    end.
    cbv zeta in Htitle, Hb, Hquoted.
    split; [exact Htitle|]. split; [exact Hb|]. rewrite Hquoted. split; [|split].
    - destruct (Adapter.username_match (uinfo +:+ ")")) as [[? ?]|]; reflexivity.
    - intros nm ws h -> Hnts Hnm Hnp Hws Hh.
      apply String.eqb_eq in Hnts.
      assert (Hhp : Spec.without ")" h = true).
      { unfold Spec.without in *. rewrite !all_chars_app in Hno.
        rewrite !andb_true_iff in Hno. tauto. }
      rewrite (username_match_name_handle nm ws h Hnts Hnm Hnp Hws Hh Hhp).
      split; reflexivity.
    - intros Hnp. rewrite username_match_no_paren; [split; reflexivity|].
      unfold Spec.without in *. rewrite all_chars_app, Hnp. reflexivity. }
  cbv zeta in General. split; [|exact General].
  intros Hbody Hdec.
  destruct (General "hello " "Alice (@alice" " nice") as (Ht & Hb & Htext & Hname & _).
  - exact Hbody.
  - apply first_at_of_find_index; reflexivity.
  - reflexivity.
  - destruct (Hname "Alice" " " "@alice") as [Hn Hs]; try reflexivity.
    assert (E : JS.trim "hello " = "hello") by (vm_compute; reflexivity).
    rewrite E, (decode_plain e "hello" Hdec eq_refl eq_refl) in Ht.
    rewrite Ht, Hb, Htext, Hn, Hs. repeat split; vm_compute; reflexivity.
Qed.

Lemma C4_quoted_content_witness :
  let item := quote_payload in
  let out := Adapter.convertPhoenixFormat env0 item in
  let quoted := Adapter.prop (Adapter.prop out "info") "quotedUser" in
  Adapter.phoenix_isTwitterOrXPost item = true /\
  Adapter.truthy (Adapter.prop item "isQuote") = true /\
  Adapter.phoenix_timestamp env0 item <> Adapter.Throw /\
  Adapter.prop item "body" = Adapter.JStr scenario_body /\
  Spec.plain_decoder env0 /\
  Adapter.prop out "title" = Adapter.JStr "hello" /\
  Adapter.prop out "body" = Adapter.JStr "" /\
  Adapter.prop quoted "name" = Adapter.JStr "Alice" /\
  Adapter.prop quoted "screen_name" = Adapter.JStr "alice" /\
  Adapter.prop quoted "text" = Adapter.JStr "nice".
Proof.
  intros item out quoted.
  assert (Hd : Spec.plain_decoder env0) by (intros dom s H; discriminate).
  split; [reflexivity|]. split; [reflexivity|]. split; [discriminate|].
  split; [reflexivity|]. split; [exact Hd|].
  apply (C4_quoted_content env0
           [("source", Adapter.JStr "Twitter"); ("isQuote", Adapter.JBool true);
            ("body", Adapter.JStr scenario_body)]);
    [reflexivity | reflexivity | discriminate | reflexivity | exact Hd].
Defined.

(** ** Reconnect backoff (C5, C6) *)

Local Open Scope Q_scope.

Lemma backoff_delay_cap (k : Z) :
  (1 <= k <= 10)%Z -> Actor.backoff_delay k <= 60000.
Proof. intros H. attempt_cases k; vm_compute; discriminate. Qed.

Lemma backoff_delay_mono (k k' : Z) :
  (1 <= k <= k')%Z -> (k' <= 10)%Z -> Actor.backoff_delay k <= Actor.backoff_delay k'.
Proof. intros H H'. attempt_cases k; attempt_cases k'; try lia; vm_compute; discriminate. Qed.

Lemma capped_min (x : Z) : Spec.capped x = Z.min x 10.
Proof.
  unfold Spec.capped, Actor.maxReconnectAttempts. destruct (Z.gtb_spec x 10); lia.
Qed.

Lemma scheduleReconnect_arms (w : Actor.WebSocketService) :
  Actor.url w <> "" -> Actor.reconnectTimeout w = None ->
  let w' := Actor.scheduleReconnect w in
  Actor.reconnectAttempts w' = Spec.capped (Actor.reconnectAttempts w + 1) /\
  Actor.reconnectTimeout w' = Some (Actor.backoff_delay (Spec.capped (Actor.reconnectAttempts w + 1))) /\
  Actor.url w' = Actor.url w.
Proof.
  intros Hu Ht. unfold Actor.scheduleReconnect. rewrite Ht.
  apply truthy_true in Hu. rewrite Hu. simpl. auto.
Qed.

Lemma failure_delays_eq (n : nat) (w : Actor.WebSocketService) :
  Actor.url w <> "" -> Actor.reconnectTimeout w = None ->
  Actor.failure_delays n w =
  map (fun i => Actor.backoff_delay (Spec.capped (Actor.reconnectAttempts w + 1 + Z.of_nat i)))
      (seq 0 n).
Proof.
  revert w. induction n as [|n IH]; intros w Hu Ht; [reflexivity|].
  destruct (scheduleReconnect_arms w Hu Ht) as (Ha & Hd & Hurl).
  cbn [Actor.failure_delays]. rewrite Hd.
  rewrite IH; [|simpl; now rewrite Hurl | reflexivity].
  cbn [seq map]. rewrite Z.add_0_r. f_equal.
  rewrite <- seq_shift, map_map. apply map_ext. intros i.
  cbn [Actor.reconnect_fails Actor.reconnectAttempts]. rewrite Ha. f_equal.
  rewrite !capped_min. lia.
Qed.

(** The backoff of failures that the error and close handlers report:
    [n] consecutive failures of an actor that has a URL and no timer
    pending, whatever its attempt counter.  Every failure schedules a
    reconnect; no delay exceeds the cap of 60000 ms; each delay is at least
    the one before; and once the counter has reached its ceiling of 10 the
    delay stays at the value of attempt 10. *)
Theorem failures_backoff (w : Actor.WebSocketService) (n : nat) :
  Actor.url w <> "" ->
  Actor.reconnectTimeout w = None ->
  (0 <= Actor.reconnectAttempts w)%Z ->
  let ds := Actor.failure_delays n w in
  length ds = n /\
  (forall i d, ds !! i = Some d -> d <= 60000) /\
  (forall i d d', ds !! i = Some d -> ds !! S i = Some d' -> d <= d') /\
  (forall i d, ds !! i = Some d -> (10 <= Actor.reconnectAttempts w + 1 + Z.of_nat i)%Z ->
               d = Actor.backoff_delay 10) /\
  (forall x, Actor.url x <> "" -> Actor.reconnectTimeout x = None ->
             Actor.reconnectTimeout (Actor.scheduleReconnect x) <> None).
Proof.
  intros Hu Ht Ha ds.
  assert (Hds : forall i d, ds !! i = Some d ->
            d = Actor.backoff_delay (Spec.capped (Actor.reconnectAttempts w + 1 + Z.of_nat i))).
  { intros i d H. unfold ds in H. rewrite failure_delays_eq in H by assumption.
    rewrite list_lookup_fmap in H. destruct (seq 0 n !! i) as [j|] eqn:E; [|discriminate].
    apply lookup_seq in E. destruct E as [-> _]. simpl in H. now injection H as <-. }
  assert (Hrange : forall i,
            (1 <= Spec.capped (Actor.reconnectAttempts w + 1 + Z.of_nat i) <= 10)%Z).
  { intros i. rewrite capped_min. lia. }
  split; [|split; [|split; [|split]]].
  - unfold ds. rewrite failure_delays_eq by assumption. now rewrite length_map, length_seq.
  - intros i d H. rewrite (Hds i d H). apply backoff_delay_cap, Hrange.
  - intros i d d' H H'. rewrite (Hds i d H), (Hds (S i) d' H').
    apply backoff_delay_mono; [|apply Hrange].
    split; [apply Hrange|].
    rewrite !capped_min. lia.
  - intros i d H Hge. rewrite (Hds i d H). f_equal.
    rewrite capped_min. lia.
  - intros x Hx Hxt. destruct (scheduleReconnect_arms x Hx Hxt) as (_ & Hd & _).
    rewrite Hd. discriminate.
Qed.

Lemma failures_backoff_witness :
  Actor.url fresh_actor <> "" /\
  Actor.reconnectTimeout fresh_actor = None /\
  (0 <= Actor.reconnectAttempts fresh_actor)%Z /\
  length (Actor.failure_delays 12 fresh_actor) = 12%nat.
Proof.
  split; [discriminate|]. split; [reflexivity|]. split; [discriminate|].
  apply (failures_backoff fresh_actor 12); [discriminate | reflexivity | discriminate].
Defined.

(** C5, the code at the failing input.  A page loaded over HTTPS holds an
    actor for the default [ws://] address, its reconnect timer due.  The
    callback of the timer calls [connect], [new WebSocket(url)] throws, and
    the [catch] block of [connect] calls [scheduleReconnect] while the
    handle of the firing timer is still stored: nothing is scheduled.  The
    callback then clears the handle.  The actor is left with its URL
    configured, not cleaned up, disconnected, and with no reconnect
    pending; its retries have ended.  The same failure of [connect] outside
    the callback, with no handle stored, does schedule a reconnect. *)
Lemma C5_reconnect_stops :
  let r := Lifecycle.reconnect_timer (Some blocked_message) blocked_actor empty_store in
  let r' := Lifecycle.connect (Actor.url blocked_actor) None (Some blocked_message)
              (Lifecycle.with_reconnectTimeout None blocked_actor) empty_store in
  (Actor.url (fst r) = "ws://35.76.194.63:4873" /\
   Actor.isCleaned (fst r) = false /\
   Actor.reconnectTimeout (fst r) = None /\
   Actor.state_of (fst r) = Actor.Disconnected) /\
  Actor.reconnectTimeout (fst r') = Some (Actor.backoff_delay 4) /\
  Actor.state_of (fst r') = Actor.ReconnectPending.
Proof. vm_compute. repeat split; reflexivity. Qed.

(** C6, the claim as stated fails: with the attempt counter held at 10 the
    exponent never passes 9, so the twelve delays level off at
    [1000 * 1.5^9 = 38443.359375] ms; the cap of 60000 ms is never
    reached. *)
Lemma C6_counterexample :
  last (Actor.failure_delays 12 fresh_actor) = Some (2460375 # 64) /\
  Forall (fun d => ~ d == 60000) (Actor.failure_delays 12 fresh_actor).
Proof.
  split; [vm_compute; reflexivity|].
  vm_compute. repeat constructor; discriminate.
Qed.

(** C6, as amended: twelve consecutive failures of an actor whose counter
    starts at 0 give the delays 1000, 1500, 2250, 3375, 5062.5, 7593.75,
    11390.625, 17085.9375, 25628.90625 and then 38443.359375 ms three
    times: the sequence levels off at 38443.359375 ms from attempt 10 on
    and never exceeds 60000 ms. *)
Theorem C6_twelve_failures (w : Actor.WebSocketService) :
  Actor.url w <> "" ->
  Actor.reconnectTimeout w = None ->
  Actor.reconnectAttempts w = 0%Z ->
  Actor.failure_delays 12 w =
    [1000; 1500; 2250; 3375; 10125 # 2; 30375 # 4; 91125 # 8; 273375 # 16;
     820125 # 32; 2460375 # 64; 2460375 # 64; 2460375 # 64] /\
  Forall (fun d => d <= 60000) (Actor.failure_delays 12 w) /\
  (forall i d, (9 <= i)%nat -> Actor.failure_delays 12 w !! i = Some d ->
               d == 38443359375 / 1000000).
Proof.
  intros Hu Ht Ha.
  assert (H : Actor.failure_delays 12 w =
    [1000; 1500; 2250; 3375; 10125 # 2; 30375 # 4; 91125 # 8; 273375 # 16;
     820125 # 32; 2460375 # 64; 2460375 # 64; 2460375 # 64]).
  { rewrite failure_delays_eq by assumption. rewrite Ha. vm_compute. reflexivity. }
  rewrite H. split; [reflexivity|]. split.
  - repeat constructor; vm_compute; discriminate.
  - intros i d Hi Hl.
    do 9 (destruct i as [|i]; [lia|]).
    do 3 (destruct i as [|i]; [injection Hl as <-; vm_compute; reflexivity|]).
    discriminate.
Qed.

Lemma C6_twelve_failures_witness :
  Actor.url fresh_actor <> "" /\
  Actor.reconnectTimeout fresh_actor = None /\
  Actor.reconnectAttempts fresh_actor = 0%Z /\
  Forall (fun d => d <= 60000) (Actor.failure_delays 12 fresh_actor).
Proof.
  split; [discriminate|]. split; [reflexivity|]. split; [reflexivity|].
  apply (C6_twelve_failures fresh_actor); [discriminate | reflexivity | reflexivity].
Defined.

Local Close Scope Q_scope.

(** ** A clean close (C8) *)



(** ** Notification de-duplication (C7) *)

Section Dedup.

Context {U : JS.CaseMapping}.

Variables (id : string) (t0 : Z).

Lemma run_other_expiries (a : Notification.Ambient)
    (due : list (Z * Notification.Callback)) (s : Notification.Service) :
  Forall (Spec.other_expiry id) due ->
  let s' := foldl (fun acc p => Notification.run_callback a (fst p) (snd p) acc) s due in
  (id ∈ Notification.recentNotifications s -> id ∈ Notification.recentNotifications s') /\
  Notification.isInitialized s' = Notification.isInitialized s /\
  Notification.timers s' = Notification.timers s /\
  Notification.sink s' = Notification.sink s /\
  Notification.notificationStats s' = Notification.notificationStats s.
Proof.
  intros H. revert s. induction H as [|p due (id' & Hp & Hne) _ IH]; intros s.
  - simpl. auto.
  - cbn [foldl]. rewrite Hp. cbn [Notification.run_callback].
    destruct (IH (Notification.set_recent
                    (Notification.recentNotifications s ∖ {[id']}) s))
      as (IH1 & IH2 & IH3 & IH4 & IH5).
    cbn [Notification.set_recent Notification.recentNotifications
         Notification.isInitialized Notification.timers Notification.sink
         Notification.notificationStats] in *.
    repeat split; try assumption.
    intros Hin. apply IH1, elem_of_difference. split; [exact Hin|].
    intros Heq. apply elem_of_singleton in Heq. congruence.
Qed.

Lemma advance_in_window (a : Notification.Ambient) (t : Z) (s : Notification.Service) :
  Spec.in_window id t0 s -> t < t0 + Notification.NOTIFICATION_DEDUPE_WINDOW ->
  Spec.in_window id t0 (Notification.advance a t s) /\
  Notification.sink (Notification.advance a t s) = Notification.sink s /\
  Notification.notificationStats (Notification.advance a t s)
    = Notification.notificationStats s.
Proof.
  intros (Hin & Hinit & Htm) Ht. unfold Notification.advance.
  rewrite Forall_forall in Htm.
  assert (Hdue : Forall (Spec.other_expiry id)
                   (JS.sort (fun p q => fst p - fst q)
                      (filter (fun p => fst p <= t) (Notification.timers s)))).
  { rewrite sort_perm. rewrite Forall_forall. intros p Hp. apply list_elem_of_filter in Hp.
    destruct Hp as [Hle Hp]. destruct (Htm p Hp) as [-> | H]; [|exact H].
    simpl in Hle. lia. }
  destruct (run_other_expiries a _
              (Notification.set_timers
                 (filter (fun p => ¬ fst p <= t) (Notification.timers s)) s) Hdue)
    as (H1 & H2 & H3 & H4 & H5).
  cbv zeta in H1, H2, H3, H4, H5.
  split; [|split; [exact H4 | exact H5]].
  split; [exact (H1 Hin)|]. split; [now rewrite H2|].
  rewrite H3. cbn [Notification.set_timers Notification.timers].
  rewrite Forall_forall. intros p Hp. apply list_elem_of_filter in Hp.
  apply Htm, Hp.
Qed.

Lemma repeat_skipped (a : Notification.Ambient) (t : Z) (n : NewsItem) (kw : string)
    (s : Notification.Service) :
  Notification.notificationId n kw = id -> Spec.in_window id t0 s ->
  Notification.scheduleNotification a t n kw s
    = Notification.set_stats Notification.skipped_incr s.
Proof.
  intros Hid (Hin & Hinit & _). unfold Notification.scheduleNotification.
  rewrite Hinit. cbv iota. rewrite Hinit. cbn [negb]. rewrite Hid.
  destruct (negb (String.eqb (Notification.permissionStatus a) "granted")); [reflexivity|].
  rewrite bool_decide_eq_true_2 by exact Hin. reflexivity.
Qed.

Lemma replay_in_window (n : NewsItem) (kw : string)
    (reqs : list (Z * Notification.Ambient)) (s : Notification.Service) :
  Notification.notificationId n kw = id -> Spec.in_window id t0 s ->
  Forall (fun r => t0 <= fst r < t0 + Notification.NOTIFICATION_DEDUPE_WINDOW) reqs ->
  Notification.sink (Spec.replay n kw reqs s) = Notification.sink s /\
  Notification.skipped (Notification.notificationStats (Spec.replay n kw reqs s))
    = (Notification.skipped (Notification.notificationStats s) + length reqs)%nat.
Proof.
  intros Hid Hw Hreqs. revert s Hw.
  induction Hreqs as [|[t a] reqs Ht _ IH]; intros s Hw.
  - simpl. split; [reflexivity | lia].
  - cbn [Spec.replay]. simpl in Ht.
    destruct (advance_in_window a t s Hw) as (Hw' & Hsink & Hstats); [lia|].
    rewrite (repeat_skipped a t n kw _ Hid Hw').
    destruct (IH (Notification.set_stats Notification.skipped_incr
                    (Notification.advance a t s))) as [IH1 IH2].
    { destruct Hw' as (H1 & H2 & H3). repeat split; assumption. }
    rewrite IH1, IH2.
    cbn [Notification.set_stats Notification.sink Notification.notificationStats
         Notification.skipped_incr Notification.skipped].
    rewrite Hsink, Hstats. split; [reflexivity|]. simpl. lia.
Qed.

End Dedup.


Section Window.

Context {U : JS.CaseMapping}.


End Window.


(** After the window the entry has expired and the same request is sent
    again. *)
Example sent_again_after_window :
  length (Notification.sink
    (Spec.replay c9_event "btc" [(61000, phone_ok)]
       (Notification.scheduleNotification phone_ok 1000 c9_event "btc" idle_service)))
  = 2%nat.
Proof. vm_compute. reflexivity. Qed.

(** * Further properties *)

(** ** Trimming *)

Lemma ws_len_trimStart (s : string) : JS.ws_len (JS.trimStart s) = O.
Proof.
  remember (String.length s) as n eqn:Hn. revert s Hn.
  induction n as [n IH] using lt_wf_ind. intros s Hn.
  rewrite trimStart_eq. destruct (JS.ws_len s) as [|k] eqn:E; [exact E|].
  destruct (drop_length_lt k s) as [Hlt | ->]; [|reflexivity].
  apply (IH (String.length (JS.drop (S k) s))); [lia | reflexivity].
Qed.

Lemma trimStart_fixed (s : string) : JS.ws_len s = O -> JS.trimStart s = s.
Proof. intros H. now rewrite trimStart_eq, H. Qed.

Lemma trimStart_idem (s : string) : JS.trimStart (JS.trimStart s) = JS.trimStart s.
Proof. apply trimStart_fixed, ws_len_trimStart. Qed.

Lemma trimEnd_cons (c : ascii) (r : string) :
  JS.trimEnd (String c r) =
  if JS.all_space (String c r) then EmptyString else String c (JS.trimEnd r).
Proof. reflexivity. Qed.

(** The text is the trimmed text followed by white space. *)
Lemma trimEnd_split (s : string) :
  exists q, s = JS.trimEnd s +:+ q /\ JS.all_space q = true.
Proof.
  induction s as [|c s (q & Hq & Hs)]; [exists ""; split; reflexivity|].
  rewrite trimEnd_cons. destruct (JS.all_space (String c s)) eqn:E.
  - exists (String c s). split; [reflexivity | exact E].
  - exists q. split; [|exact Hs]. rewrite app_cons. now rewrite <- Hq.
Qed.

Lemma all_space_app (a q : string) :
  JS.all_space a = true -> JS.all_space q = true -> JS.all_space (a +:+ q) = true.
Proof.
  intros Ha Hq. unfold JS.all_space.
  rewrite (trimStart_app a q (all_space_boundary q Hq)), Ha.
  exact Hq.
Qed.

Lemma trimEnd_idem (s : string) : JS.trimEnd (JS.trimEnd s) = JS.trimEnd s.
Proof.
  induction s as [|c s IH]; [reflexivity|].
  rewrite trimEnd_cons. destruct (JS.all_space (String c s)) eqn:E; [reflexivity|].
  rewrite trimEnd_cons, IH.
  destruct (JS.all_space (String c (JS.trimEnd s))) eqn:E'; [|reflexivity].
  destruct (trimEnd_split s) as (q & Hq & Hs).
  pose proof (all_space_app _ q E' Hs) as H.
  rewrite app_cons, <- Hq in H. congruence.
Qed.

Lemma ws_len_trimEnd (s : string) : JS.ws_len s = O -> JS.ws_len (JS.trimEnd s) = O.
Proof.
  intros H. destruct (trimEnd_split s) as (q & Hq & Hs).
  destruct (JS.trimEnd s) as [|c t] eqn:E; [reflexivity|].
  rewrite Hq in H. rewrite ws_len_app in H; [exact H | discriminate|].
  now apply all_space_boundary.
Qed.

Lemma trim_idem (s : string) : JS.trim (JS.trim s) = JS.trim s.
Proof.
  unfold JS.trim. rewrite (trimStart_fixed (JS.trimEnd (JS.trimStart s))).
  - apply trimEnd_idem.
  - apply ws_len_trimEnd, ws_len_trimStart.
Qed.

Lemma all_chars_trimEnd (f : ascii -> bool) (s : string) :
  Spec.all_chars f s = true -> Spec.all_chars f (JS.trimEnd s) = true.
Proof.
  induction s as [|c s IH]; intros H; [reflexivity|].
  rewrite trimEnd_cons. destruct (JS.all_space (String c s)); [reflexivity|].
  cbn [Spec.all_chars] in *. apply andb_true_iff in H. destruct H as [Hc H].
  now rewrite Hc, IH.
Qed.

Lemma all_chars_trim (f : ascii -> bool) (s : string) :
  Spec.all_chars f s = true -> Spec.all_chars f (JS.trim s) = true.
Proof. intros H. unfold JS.trim. now apply all_chars_trimEnd, all_chars_trimStart. Qed.

(** ** Lower case *)

Lemma is_ascii_chars (s : string) :
  JS.is_ascii s = Spec.all_chars (fun c => (nat_of_ascii c <? 128)%nat) s.
Proof. induction s as [|c s IH]; [reflexivity | simpl; now rewrite IH]. Qed.

Lemma lower_char_idem (c : ascii) : JS.lower_char (JS.lower_char c) = JS.lower_char c.
Proof. destruct c as [[] [] [] [] [] [] [] []]; reflexivity. Qed.

Lemma lower_char_ascii (c : ascii) :
  (nat_of_ascii (JS.lower_char c) <? 128)%nat = (nat_of_ascii c <? 128)%nat.
Proof. destruct c as [[] [] [] [] [] [] [] []]; reflexivity. Qed.

Lemma ascii_lower_ascii (s : string) : JS.is_ascii (JS.ascii_lower s) = JS.is_ascii s.
Proof. induction s as [|c s IH]; [reflexivity | simpl; now rewrite lower_char_ascii, IH]. Qed.

(** A text is in lower case: the ASCII folding leaves every byte as it
    is. *)
Lemma ascii_lower_fixed (s : string) :
  Spec.all_chars (fun c => Ascii.eqb (JS.lower_char c) c) s = true -> JS.ascii_lower s = s.
Proof.
  induction s as [|c s IH]; intros H; [reflexivity|].
  cbn [Spec.all_chars] in H. apply andb_true_iff in H. destruct H as [Hc H].
  apply Ascii.eqb_eq in Hc. simpl. now rewrite Hc, IH.
Qed.

Lemma ascii_lower_lower (s : string) :
  Spec.all_chars (fun c => Ascii.eqb (JS.lower_char c) c) (JS.ascii_lower s) = true.
Proof.
  induction s as [|c s IH]; [reflexivity|].
  simpl. rewrite lower_char_idem, Ascii.eqb_refl. exact IH.
Qed.

Section Folding.

Context {U : JS.CaseMapping}.

(** The normal form of an ASCII keyword is in lower case. *)
Lemma normal_form_lower (kw : string) :
  JS.is_ascii kw = true ->
  JS.toLowerCase (JS.trim (JS.toLowerCase kw)) = JS.trim (JS.toLowerCase kw).
Proof.
  intros H. rewrite (JS.toLowerCase_ascii kw H).
  rewrite JS.toLowerCase_ascii.
  - apply ascii_lower_fixed, all_chars_trim, ascii_lower_lower.
  - rewrite is_ascii_chars. apply all_chars_trim. rewrite <- is_ascii_chars.
    now rewrite ascii_lower_ascii.
Qed.

End Folding.

(** ** The keyword list (X1, X2, X3) *)

Lemma NoDup_map_filter {A B} (f : A -> B) (p : A -> bool) (l : list A) :
  NoDup (map f l) -> NoDup (map f (List.filter p l)).
Proof.
  induction l as [|x l IH]; simpl; intros H; [constructor|].
  apply NoDup_cons in H. destruct H as [Hx Hl].
  destruct (p x); [|now apply IH].
  simpl. apply NoDup_cons. split; [|now apply IH].
  intros Hin. apply Hx. apply list_elem_of_fmap in Hin. destruct Hin as (y & -> & Hy).
  apply list_elem_of_fmap. exists y. split; [reflexivity|].
  apply list_elem_of_In in Hy. apply filter_In in Hy. apply list_elem_of_In. tauto.
Qed.

Section KeywordList.

Context {U : JS.CaseMapping}.

Lemma set_filterKeywords_same (st : Store.NewsState) :
  Keywords.set_filterKeywords (Store.filterKeywords st) st = st.
Proof. destruct st; reflexivity. Qed.

(** What [addFilterKeyword] does to the list. *)
Lemma addFilterKeyword_list (c : Clock) (kw : string) (st : Store.NewsState) :
  let k := JS.trim (JS.toLowerCase kw) in
  Store.filterKeywords (Keywords.addFilterKeyword c kw st) =
  if negb (JS.truthy k) || existsb (fun f => String.eqb (keyword f) k) (Store.filterKeywords st)
  then Store.filterKeywords st
  else (Store.filterKeywords st ++ [{| fk_id := pretty (now c); keyword := k |}])%list.
Proof.
  cbv zeta. unfold Keywords.addFilterKeyword.
  destruct (negb (JS.truthy _)); [reflexivity|].
  destruct (existsb _ _); reflexivity.
Qed.

Lemma addFilterKeyword_normalized (c : Clock) (kw : string) (st : Store.NewsState) :
  Keywords.normalized (Store.filterKeywords st) ->
  Keywords.normalized (Store.filterKeywords (Keywords.addFilterKeyword c kw st)).
Proof.
  intros [Hall Hnd]. rewrite addFilterKeyword_list. cbv zeta.
  destruct (negb (JS.truthy (JS.trim (JS.toLowerCase kw)))) eqn:Et; [split; assumption|].
  destruct (existsb _ _) eqn:Ex; [split; assumption|].
  cbn [orb]. split.
  - apply Forall_app. split; [exact Hall|]. constructor; [|constructor].
    cbn [keyword]. split.
    + apply trim_idem.
    + apply truthy_true. now apply negb_false_iff in Et.
  - rewrite map_app. cbn [map keyword]. apply NoDup_app. split; [exact Hnd|]. split.
    + intros x Hx Hin. apply list_elem_of_singleton in Hin. subst x.
      apply list_elem_of_fmap in Hx. destruct Hx as (f & Hf & Hin).
      assert (existsb (fun k => String.eqb (keyword k) (JS.trim (JS.toLowerCase kw)))
                      (Store.filterKeywords st) = true).
      { apply existsb_exists. exists f. split; [now apply list_elem_of_In|].
        apply String.eqb_eq. now symmetry. }
      congruence.
    + apply NoDup_singleton.
Qed.

Lemma removeFilterKeyword_normalized (id : string) (st : Store.NewsState) :
  Keywords.normalized (Store.filterKeywords st) ->
  Keywords.normalized (Store.filterKeywords (Keywords.removeFilterKeyword id st)).
Proof.
  intros [Hall Hnd]. unfold Keywords.removeFilterKeyword.
  cbn [Keywords.set_filterKeywords Store.filterKeywords]. split.
  - rewrite Forall_forall in *. intros f Hf. apply Hall.
    apply list_elem_of_In in Hf. apply filter_In in Hf. apply list_elem_of_In. tauto.
  - now apply NoDup_map_filter.
Qed.

(** Every keyword after a run was in the list before it or is the normal
    form of a keyword the run added. *)
Lemma run_provenance (actions : list Keywords.Action) (st : Store.NewsState) :
  Forall (fun f => In f (Store.filterKeywords st) \/
                   exists kw, In kw (Keywords.added actions) /\
                              keyword f = JS.trim (JS.toLowerCase kw))
         (Store.filterKeywords (Keywords.run actions st)).
Proof.
  revert st. induction actions as [|a actions IH]; intros st.
  - cbn [Keywords.run]. rewrite Forall_forall. intros f Hf. left. now apply list_elem_of_In.
  - cbn [Keywords.run]. eapply Forall_impl; [apply IH|].
    intros f [Hf | (kw & Hkw & Hf)]; cbv beta.
    + destruct a as [c kw | id]; cbn [Keywords.act Keywords.added] in *.
      * rewrite addFilterKeyword_list in Hf. cbv zeta in Hf.
        destruct (_ || _); [now left|].
        apply in_app_or in Hf. destruct Hf as [Hf | [<- | []]]; [now left|].
        right. exists kw. split; [now left | reflexivity].
      * left. unfold Keywords.removeFilterKeyword in Hf.
        cbn [Keywords.set_filterKeywords Store.filterKeywords] in Hf.
        apply filter_In in Hf. tauto.
    + right. exists kw. split; [|exact Hf].
      destruct a; cbn [Keywords.added]; [now right | exact Hkw].
Qed.

(** X1: whatever keywords are added and removed, the stored keywords
    stay trimmed, non-empty and pairwise different, and each of them was
    in the list before or is the trimmed lower-casing of a keyword that
    was added.  When the list was in lower case and the keywords added
    are ASCII text, the list stays in lower case: it is one on which the
    keyword matchers search without regard to case. *)
Theorem X1_keywords_normalized (actions : list Keywords.Action) (st : Store.NewsState) :
  Keywords.normalized (Store.filterKeywords st) ->
  let l := Store.filterKeywords (Keywords.run actions st) in
  Keywords.normalized l /\
  Forall (fun f => In f (Store.filterKeywords st) \/
                   exists kw, In kw (Keywords.added actions) /\
                              keyword f = JS.trim (JS.toLowerCase kw)) l /\
  (Spec.lower_case (Store.filterKeywords st) ->
   Forall (fun kw => JS.is_ascii kw = true) (Keywords.added actions) ->
   Spec.lower_case l).
Proof.
  intros H l.
  assert (Hn : Keywords.normalized l).
  { subst l. revert st H. induction actions as [|a actions IH]; intros st H; [exact H|].
    cbn [Keywords.run]. apply IH. destruct a as [c kw | id].
    - now apply addFilterKeyword_normalized.
    - now apply removeFilterKeyword_normalized. }
  split; [exact Hn|]. split; [apply run_provenance|].
  intros Hlow Hascii. unfold Spec.lower_case in *.
  eapply Forall_impl; [apply run_provenance|].
  intros f [Hf | (kw & Hkw & Hf)]; cbv beta.
  - rewrite Forall_forall in Hlow. apply Hlow. now apply list_elem_of_In.
  - rewrite Hf. apply normal_form_lower.
    rewrite Forall_forall in Hascii. apply Hascii. now apply list_elem_of_In.
Qed.

(** X2: removing the keyword just added, by the id it was given, restores
    the state, provided no stored keyword already carries that id (ids are
    millisecond time stamps). *)
Theorem X2_add_remove (c : Clock) (kw : string) (st : Store.NewsState) :
  Forall (fun k => fk_id k <> pretty (now c)) (Store.filterKeywords st) ->
  Keywords.removeFilterKeyword (pretty (now c)) (Keywords.addFilterKeyword c kw st) = st.
Proof.
  intros Hfresh.
  assert (Hkeep : List.filter (fun k => negb (String.eqb (fk_id k) (pretty (now c))))
                    (Store.filterKeywords st) = Store.filterKeywords st).
  { induction Hfresh as [|k l Hk _ IH]; simpl; [reflexivity|].
    apply String.eqb_neq in Hk. rewrite Hk. simpl. now rewrite IH. }
  unfold Keywords.addFilterKeyword.
  destruct (negb (JS.truthy (JS.trim (JS.toLowerCase kw)))).
  - unfold Keywords.removeFilterKeyword. rewrite Hkeep. apply set_filterKeywords_same.
  - destruct (existsb _ _).
    + unfold Keywords.removeFilterKeyword. rewrite Hkeep. apply set_filterKeywords_same.
    + unfold Keywords.removeFilterKeyword.
      cbn [Keywords.set_filterKeywords Store.filterKeywords].
      rewrite List.filter_app, Hkeep. cbn [List.filter fk_id].
      rewrite String.eqb_refl. cbn [negb]. rewrite List.app_nil_r.
      destruct st; reflexivity.
Qed.

(** X3: a keyword whose trimmed lower-casing is that of the keyword just
    added, as one that differs from it in the case of its ASCII letters or
    in the white space around it, is not added a second time. *)
Theorem X3_add_twice (c1 c2 : Clock) (kw1 kw2 : string) (st : Store.NewsState) :
  JS.trim (JS.toLowerCase kw2) = JS.trim (JS.toLowerCase kw1) ->
  Keywords.addFilterKeyword c2 kw2 (Keywords.addFilterKeyword c1 kw1 st)
  = Keywords.addFilterKeyword c1 kw1 st.
Proof.
  intros Heq. unfold Keywords.addFilterKeyword at 1. rewrite Heq.
  destruct (negb (JS.truthy (JS.trim (JS.toLowerCase kw1)))) eqn:Et; [reflexivity|].
  unfold Keywords.addFilterKeyword. rewrite Et.
  destruct (existsb _ (Store.filterKeywords st)) eqn:Ex.
  - now rewrite Ex.
  - cbn [Keywords.set_filterKeywords Store.filterKeywords].
    rewrite existsb_app. cbn [existsb keyword].
    rewrite String.eqb_refl. cbn [orb]. now rewrite orb_true_r.
Qed.

End KeywordList.

Lemma normalized_quiet_store : Keywords.normalized (Store.filterKeywords quiet_store).
Proof.
  split.
  - constructor; [|constructor]. split; [reflexivity | discriminate].
  - apply NoDup_singleton.
Qed.

Lemma X1_keywords_normalized_witness :
  Keywords.normalized (Store.filterKeywords quiet_store) /\
  map keyword (Store.filterKeywords (Keywords.run keyword_session quiet_store))
    = ["ether"] /\
  Keywords.normalized (Store.filterKeywords (Keywords.run keyword_session quiet_store)).
Proof.
  split; [exact normalized_quiet_store|]. split; [reflexivity|].
  exact (proj1 (X1_keywords_normalized keyword_session quiet_store normalized_quiet_store)).
Defined.

Lemma X2_add_remove_witness :
  Forall (fun k => fk_id k <> pretty (now clock0)) (Store.filterKeywords quiet_store) /\
  Keywords.removeFilterKeyword (pretty (now clock0))
    (Keywords.addFilterKeyword clock0 " Ether" quiet_store) = quiet_store.
Proof.
  assert (H : Forall (fun k => fk_id k <> pretty (now clock0))
                     (Store.filterKeywords quiet_store)).
  { constructor; [|constructor]. vm_compute. discriminate. }
  split; [exact H | exact (X2_add_remove clock0 " Ether" quiet_store H)].
Defined.

Lemma X3_add_twice_witness :
  JS.trim (JS.toLowerCase "ETHER ") = JS.trim (JS.toLowerCase " Ether") /\
  Keywords.addFilterKeyword clock0 "ETHER "
    (Keywords.addFilterKeyword clock0 " Ether" quiet_store)
  = Keywords.addFilterKeyword clock0 " Ether" quiet_store.
Proof.
  split; [reflexivity|].
  apply (X3_add_twice clock0 clock0 " Ether" "ETHER " quiet_store). reflexivity.
Defined.

(** ** Inserting the same event again (X4) *)

Section Repeat.

Context {U : JS.CaseMapping}.

Lemma with_defaults_clock (c c' : Clock) (n : NewsItem) :
  _id n <> "" -> Store.with_defaults c n = Store.with_defaults c' n.
Proof.
  intros H. apply truthy_true in H. unfold Store.with_defaults. now rewrite H.
Qed.

Lemma addNews_clock (c c' : Clock) (n : NewsItem) (st : Store.NewsState) :
  _id n <> "" -> Store.addNews c n st = Store.addNews c' n st.
Proof. intros H. unfold Store.addNews. now rewrite (with_defaults_clock c c' n H). Qed.

Lemma sort_length {A} (cmp : A -> A -> Z) (l : list A) :
  List.length (JS.sort cmp l) = List.length l.
Proof. apply Permutation_length, sort_perm. Qed.

(** X4: an event with an [_id], inserted a second time into a store that
    had room for it, changes nothing and asks for no notification, whatever
    the first insertion did. *)
Theorem X4_addNews_repeat (c c' : Clock) (n : NewsItem) (st : Store.NewsState) :
  (List.length (Store.news st) < 100)%nat ->
  _id n <> "" ->
  Store.addNews c' n (fst (Store.addNews c n st)) = (fst (Store.addNews c n st), []).
Proof.
  intros Hlen Hid.
  destruct (addNews_cases c n st) as [H | [Hex H]].
  - rewrite H. cbn [fst]. now rewrite <- (addNews_clock c c' n st Hid).
  - rewrite H. cbn [fst].
    set (e := Store.enhancedNewsItem st (Store.with_defaults c n)).
    set (st1 := Store.set_news _ st).
    unfold Store.addNews.
    destruct (_ && String.eqb _ _); [reflexivity|].
    destruct (negb _ && _); [reflexivity|].
    assert (Hdup : existsb (Store.duplicate_of (Store.with_defaults c' n))
                           (Store.news st1) = true).
    { apply existsb_exists. exists e. split.
      - subst st1. cbn [Store.news Store.set_news].
        rewrite take_ge by (rewrite sort_length; simpl; lia).
        apply list_elem_of_In. rewrite sort_perm. apply list_elem_of_here.
      - rewrite <- (with_defaults_clock c c' n Hid).
        unfold Store.duplicate_of. subst e. cbn [_id Store.enhancedNewsItem Store.enhance].
        now rewrite String.eqb_refl. }
    now rewrite Hdup.
Qed.

End Repeat.

Lemma X4_addNews_repeat_witness :
  (List.length (Store.news empty_store) < 100)%nat /\ _id c9_event <> "" /\
  Store.addNews clock0 c9_event (fst (Store.addNews clock0 c9_event empty_store))
  = (fst (Store.addNews clock0 c9_event empty_store), []).
Proof.
  assert (H1 : (List.length (Store.news empty_store) < 100)%nat) by (simpl; lia).
  assert (H2 : _id c9_event <> "") by discriminate.
  split; [exact H1|]. split; [exact H2|].
  exact (X4_addNews_repeat clock0 clock0 c9_event empty_store H1 H2).
Defined.

(** ** Events that arrive over a socket (X5, X6) *)

Section SocketEvents.

Context {U : JS.CaseMapping}.

Lemma scheduled_preset (st : Store.NewsState) (n : NewsItem) :
  (forall k, Notification.checkForKeywordMatch n (Store.filterKeywords st) = Some k ->
             JS.truthy k = true -> matchedKeyword n = Some k) ->
  Store.scheduled st n = [].
Proof.
  intros H. unfold Store.scheduled.
  destruct (Notification.checkForKeywordMatch n (Store.filterKeywords st)) as [k|];
    [|reflexivity].
  destruct (JS.truthy k) eqn:Ek; [|reflexivity].
  rewrite (H k eq_refl Ek). cbn [JS.truthy_opt Store.opt_eqb].
  now rewrite Ek, String.eqb_refl.
Qed.

Lemma with_defaults_with_matchedKeyword (c : Clock) (k : option string) (n : NewsItem) :
  Store.with_defaults c (Ingest.with_matchedKeyword k n)
  = Ingest.with_matchedKeyword k (Store.with_defaults c n).
Proof.
  unfold Store.with_defaults. cbn [_id Ingest.with_matchedKeyword].
  destruct (negb (JS.truthy (_id n))); cbn; destruct (newsSource n); reflexivity.
Qed.

(** X5: an event that arrives over a socket never makes the store ask for
    a notification: [processNewsItem] writes the keyword it found into the
    event before it calls [addNews], and [addNews] notifies only when its
    own match differs from the keyword the event carries. *)
Theorem X5_socket_event_never_notifies (c : Clock) (n : NewsItem) (st : Store.NewsState) :
  snd (Ingest.processNewsItem c n st) = [].
Proof.
  unfold Ingest.processNewsItem.
  destruct (negb _ && _); [reflexivity|].
  set (m := match Store.filterKeywords st with [] => None | _ => _ end).
  set (n' := if JS.truthy_opt m then _ else _).
  destruct (addNews_cases c n' st) as [-> | [_ ->]]; [reflexivity|].
  cbn [snd]. apply scheduled_preset. intros k Hk Htk.
  assert (Hm : Notification.checkForKeywordMatch (Store.with_defaults c n')
                 (Store.filterKeywords st) = m).
  { destruct (with_defaults_fields c n') as (Ht & Hb & _).
    unfold Notification.checkForKeywordMatch. rewrite Ht, Hb.
    subst n' m. destruct (JS.truthy_opt _); reflexivity. }
  rewrite Hm in Hk.
  destruct (with_defaults_fields c n') as (_ & _ & _ & _ & _ & _ & _ & _ & Hmk & _).
  rewrite Hmk. subst n'. rewrite Hk. cbn [JS.truthy_opt]. rewrite Htk. reflexivity.
Qed.

(** X6: for an event that carries no keyword yet, the socket path stores
    exactly what a direct [addNews] stores; the two differ only in the
    notification. *)
Theorem X6_socket_event_stored (c : Clock) (n : NewsItem) (st : Store.NewsState) :
  matchedKeyword n = None ->
  fst (Ingest.processNewsItem c n st) = fst (Store.addNews c n st).
Proof.
  intros Hnone. unfold Ingest.processNewsItem.
  destruct (negb (Store.showTwitterPosts st) && Store.isTwitterOrXPost n) eqn:Etw.
  - unfold Store.addNews. destruct (_ && String.eqb _ _); [reflexivity|].
    now rewrite isTwitterOrXPost_defaults, Etw.
  - set (m := match Store.filterKeywords st with [] => None | _ => _ end).
    assert (Hm : m = Notification.checkForKeywordMatch (Store.with_defaults c n)
                       (Store.filterKeywords st)).
    { destruct (with_defaults_fields c n) as (Ht & Hb & _).
      unfold Notification.checkForKeywordMatch. rewrite Ht, Hb. reflexivity. }
    destruct (JS.truthy_opt m) eqn:Em; [|reflexivity].
    destruct m as [k|]; [|discriminate]. cbn [JS.truthy_opt] in Em.
    unfold Store.addNews. cbn [source Ingest.with_matchedKeyword].
    destruct (_ && String.eqb _ _); [reflexivity|].
    rewrite with_defaults_with_matchedKeyword.
    set (d := Store.with_defaults c n) in *.
    assert (Hd : matchedKeyword d = None).
    { destruct (with_defaults_fields c n) as (_ & _ & _ & _ & _ & _ & _ & _ & Hmk & _).
      subst d. now rewrite Hmk. }
    change (Store.isTwitterOrXPost (Ingest.with_matchedKeyword (Some k) d))
      with (Store.isTwitterOrXPost d).
    destruct (negb (Store.showTwitterPosts st) && Store.isTwitterOrXPost d); [reflexivity|].
    change (existsb (Store.duplicate_of (Ingest.with_matchedKeyword (Some k) d)))
      with (existsb (Store.duplicate_of d)).
    destruct (existsb _ _); [reflexivity|].
    cbn [fst]. f_equal. f_equal. f_equal. f_equal.
    unfold Store.enhancedNewsItem.
    change (Notification.checkForKeywordMatch (Ingest.with_matchedKeyword (Some k) d)
              (Store.filterKeywords st))
      with (Notification.checkForKeywordMatch d (Store.filterKeywords st)).
    rewrite <- Hm, Hd. cbn [matchedKeyword Ingest.with_matchedKeyword JS.truthy_opt].
    rewrite !Em. cbn [JS.truthy_opt]. rewrite Em. reflexivity.
Qed.

End SocketEvents.

Lemma X6_socket_event_stored_witness :
  matchedKeyword c9_event = None /\
  fst (Ingest.processNewsItem clock0 c9_event btc_store)
  = fst (Store.addNews clock0 c9_event btc_store).
Proof.
  split; [reflexivity|].
  apply (X6_socket_event_stored clock0 c9_event btc_store). reflexivity.
Defined.


(** ** The merge of a fetched response (X7 to X10) *)

Lemma not_duplicate_Forall (n : NewsItem) (l : list NewsItem) :
  existsb (Store.duplicate_of n) l = false <->
  Forall (fun y => ~ Spec.share_key y n) l.
Proof.
  induction l as [|y l IH]; simpl.
  - split; [constructor | reflexivity].
  - rewrite orb_false_iff, IH, Forall_cons. 
    assert (H : Store.duplicate_of n y = false <-> ~ Spec.share_key y n).
    { rewrite <- duplicate_of_spec. destruct (Store.duplicate_of n y); split;
        congruence. }
    now rewrite H.
Qed.

Lemma dedup_app (l1 l2 : list NewsItem) :
  Spec.dedup l1 -> Spec.dedup l2 ->
  Forall (fun x => Forall (fun y => ~ Spec.share_key x y) l2) l1 ->
  Spec.dedup (l1 ++ l2)%list.
Proof.
  induction 1 as [|x l Hx Hl IH]; intros H2 H; [exact H2|].
  apply Forall_cons in H. destruct H as [Hx2 Hl2].
  simpl. constructor; [|now apply IH].
  apply Forall_app. now split.
Qed.

Lemma dedup_app_r (l1 l2 : list NewsItem) : Spec.dedup (l1 ++ l2)%list -> Spec.dedup l2.
Proof.
  induction l1 as [|x l1 IH]; simpl; intros H; [exact H|].
  inversion H; subst. now apply IH.
Qed.

Lemma dedup_filter (f : NewsItem -> bool) (l : list NewsItem) :
  Spec.dedup l -> Spec.dedup (List.filter f l).
Proof.
  induction 1 as [|x l Hx Hl IH]; simpl; [constructor|].
  destruct (f x); [|exact IH]. constructor; [|exact IH].
  rewrite Forall_forall in *. intros y Hy. apply Hx.
  apply list_elem_of_In in Hy. apply filter_In in Hy. apply list_elem_of_In. tauto.
Qed.


Lemma sort_insert_head (x : NewsItem) (l : list NewsItem) :
  Forall (fun y => num_le (time y) (time x)) l ->
  JS.sort_insert Store.by_time_desc x l = x :: l.
Proof.
  destruct 1 as [|y l Hy _]; simpl; [reflexivity|].
  unfold Store.by_time_desc.
  destruct (time y) as [ty|], (time x) as [tx|]; try contradiction.
  simpl in Hy. destruct (ty - tx <=? 0)%Z eqn:E; [reflexivity|].
  apply Z.leb_gt in E. lia.
Qed.

(** Sorting leaves a sorted prefix where it is, when nothing behind it is
    newer. *)
Lemma sort_app_sorted (l e : list NewsItem) :
  Spec.sorted_desc l ->
  Forall (fun a => Forall (fun y => num_le (time y) (time a)) e) l ->
  JS.sort Store.by_time_desc (l ++ e)%list = (l ++ JS.sort Store.by_time_desc e)%list.
Proof.
  unfold Spec.sorted_desc. induction 1 as [|a l Hl IH Ha]; intros He; [reflexivity|].
  apply Forall_cons in He. destruct He as [Hae Hle].
  simpl. rewrite (IH Hle). apply sort_insert_head.
  apply Forall_app. split; [exact Ha|]. now rewrite sort_perm.
Qed.

Lemma sort_sorted_id (l : list NewsItem) :
  Spec.sorted_desc l -> JS.sort Store.by_time_desc l = l.
Proof.
  intros H. pose proof (sort_app_sorted l [] H) as Hs.
  rewrite !List.app_nil_r in Hs. apply Hs.
  rewrite Forall_forall. intros a _. constructor.
Qed.





(** X7: the list a fetch stores has at most 100 entries, and each entry
    is an entry of the list read before the request was sent or an event
    of the response that shares no key with that list; what the store
    received while the request was under way is not in it.  Where every
    [time] of the stored list and of the response is a number, the list is
    sorted newest first. *)
Theorem X7_mergeFetched_list (p : list NewsItem) (snapshot current : Store.NewsState) :
  let r := Store.news (Ingest.mergeFetched p snapshot current) in
  (List.length r <= 100)%nat /\
  Forall (fun x => In x (Store.news snapshot) \/
                   (In x p /\
                    Forall (fun y => ~ Spec.share_key y x) (Store.news snapshot))) r /\
  (Spec.timed (Store.news snapshot) -> Spec.timed p -> Spec.sorted_desc r).
Proof.
  cbn [Ingest.mergeFetched Store.news Store.setIsLoading Store.set_news].
  split; [rewrite length_take; lia|]. split.
  - apply Forall_take. rewrite sort_perm. apply Forall_app. split.
    + rewrite Forall_forall. intros x Hx. left. now apply list_elem_of_In.
    + rewrite Forall_forall. intros x Hx. right.
      apply list_elem_of_In, filter_In in Hx. destruct Hx as [Hx Hf].
      split; [exact Hx|]. apply not_duplicate_Forall. now apply negb_true_iff.
  - intros Hs Hp. apply sorted_desc_take, sort_sorted.
    apply Forall_app. split; [exact Hs|].
    unfold Spec.timed in *. rewrite Forall_forall in *. intros x Hx. apply Hp.
    apply list_elem_of_In, filter_In in Hx. apply list_elem_of_In. tauto.
Qed.

(** The response of two events is merged into the store that holds one of
    them: two entries, newest first. *)
Lemma X7_mergeFetched_list_witness :
  Spec.timed (Store.news one_stored) /\ Spec.timed clean_response /\
  Spec.sorted_desc (Store.news (Ingest.mergeFetched clean_response one_stored empty_store)).
Proof.
  assert (H1 : Spec.timed (Store.news one_stored)) by (repeat constructor).
  assert (H2 : Spec.timed clean_response) by (repeat constructor).
  split; [exact H1|]. split; [exact H2|].
  exact (proj2 (proj2 (X7_mergeFetched_list clean_response one_stored empty_store)) H1 H2).
Defined.

(** X8: the merge keeps the list free of shared keys when the response
    itself has none: the events of a response are compared with the stored
    list only, never with each other. *)
Theorem X8_mergeFetched_dedup (p : list NewsItem) (snapshot current : Store.NewsState) :
  Spec.dedup (Store.news snapshot) -> Spec.dedup p ->
  Spec.dedup (Store.news (Ingest.mergeFetched p snapshot current)).
Proof.
  intros Hs Hp.
  cbn [Ingest.mergeFetched Store.news Store.setIsLoading Store.set_news].
  apply dedup_take. eapply dedup_perm; [symmetry; apply sort_perm|].
  apply dedup_app; [exact Hs | now apply dedup_filter|].
  rewrite Forall_forall. intros x Hx. rewrite Forall_forall. intros y Hy.
  apply list_elem_of_In, filter_In in Hy. destruct Hy as [_ Hf].
  apply negb_true_iff, not_duplicate_Forall in Hf.
  rewrite Forall_forall in Hf. now apply Hf.
Qed.

Lemma X8_mergeFetched_dedup_witness :
  Spec.dedup (Store.news one_stored) /\ Spec.dedup clean_response /\
  Spec.dedup (Store.news (Ingest.mergeFetched clean_response one_stored empty_store)).
Proof.
  assert (H1 : Spec.dedup (Store.news one_stored)) by (repeat constructor).
  assert (H2 : Spec.dedup clean_response).
  { constructor; [|repeat constructor].
    constructor; [|constructor].
    intros [H | [(u & _ & Ha & Hb) | (t & _ & Ha & Hb)]]; simpl in *; congruence. }
  split; [exact H1|]. split; [exact H2|].
  exact (X8_mergeFetched_dedup clean_response one_stored empty_store H1 H2).
Defined.

(** X9: two events of one response that share a key are both stored when
    neither shares a key with the stored list and there is room for the
    response: the merge does not maintain the store's invariant. *)
Theorem X9_mergeFetched_shared_key (p1 p2 p3 : list NewsItem) (x y : NewsItem)
    (snapshot current : Store.NewsState) :
  let p := (p1 ++ x :: p2 ++ y :: p3)%list in
  Spec.share_key x y ->
  existsb (Store.duplicate_of x) (Store.news snapshot) = false ->
  existsb (Store.duplicate_of y) (Store.news snapshot) = false ->
  (List.length (Store.news snapshot) + List.length p <= 100)%nat ->
  ~ Spec.dedup (Store.news (Ingest.mergeFetched p snapshot current)).
Proof.
  intros p Hxy Hx Hy Hlen.
  cbn [Ingest.mergeFetched Store.news Store.setIsLoading Store.set_news].
  set (f := fun newItem => negb (existsb (Store.duplicate_of newItem) (Store.news snapshot))).
  rewrite take_ge.
  2:{ rewrite sort_length, List.length_app.
      pose proof (List.filter_length_le f p). lia. }
  intros Hd. apply (dedup_perm _ _ (sort_perm _ _)), dedup_app_r in Hd.
  subst p. rewrite List.filter_app in Hd. cbn [List.filter] in Hd.
  assert (Hfx : f x = true) by (unfold f; now rewrite Hx).
  rewrite Hfx, List.filter_app in Hd. cbn [List.filter] in Hd.
  assert (Hfy : f y = true) by (unfold f; now rewrite Hy).
  rewrite Hfy in Hd.
  apply dedup_app_r in Hd. inversion Hd as [|? ? Hall _]; subst.
  apply Forall_app in Hall. destruct Hall as [_ Hall].
  apply Forall_cons in Hall. destruct Hall as [Hn _]. now apply Hn.
Qed.

Lemma X9_mergeFetched_shared_key_witness :
  Spec.share_key (sample_item "a1" (Some "https://a.example/1") "first headline" 10)
                 (sample_item "a2" (Some "https://a.example/1") "second headline" 20) /\
  ~ Spec.dedup (Store.news (Ingest.mergeFetched api_response empty_store empty_store)).
Proof.
  assert (H : Spec.share_key
                (sample_item "a1" (Some "https://a.example/1") "first headline" 10)
                (sample_item "a2" (Some "https://a.example/1") "second headline" 20)).
  { right; left. exists "https://a.example/1". repeat split. discriminate. }
  split; [exact H|].
  apply (X9_mergeFetched_shared_key [] [] []
           (sample_item "a1" (Some "https://a.example/1") "first headline" 10)
           (sample_item "a2" (Some "https://a.example/1") "second headline" 20)
           empty_store empty_store H); [reflexivity | reflexivity | simpl; lia].
Defined.




(** ** An event older than a full store (X11) *)

Lemma sort_insert_last (x : NewsItem) (l : list NewsItem) :
  Forall (fun y => num_lt (time x) (time y)) l ->
  JS.sort_insert Store.by_time_desc x l = (l ++ [x])%list.
Proof.
  induction 1 as [|y l Hy _ IH]; simpl; [reflexivity|].
  unfold Store.by_time_desc at 1.
  destruct (time x) as [tx|], (time y) as [ty|]; try contradiction.
  simpl in Hy. destruct (ty - tx <=? 0)%Z eqn:E; [apply Z.leb_le in E; lia|].
  now rewrite IH.
Qed.

Lemma set_news_same (st : Store.NewsState) : Store.set_news (Store.news st) st = st.
Proof. destruct st; reflexivity. Qed.

Lemma sorted_descb_sound (l : list NewsItem) : sorted_descb l = true -> Spec.sorted_desc l.
Proof.
  unfold Spec.sorted_desc. induction l as [|x r IH]; simpl; intros H; [constructor|].
  apply andb_true_iff in H. destruct H as [Hx Hr]. constructor; [now apply IH|].
  rewrite Forall_forall. intros y Hy. apply list_elem_of_In in Hy.
  rewrite forallb_forall in Hx. specialize (Hx y Hy).
  destruct (time y), (time x); try discriminate. now apply Z.leb_le.
Qed.

Section FullStore.

Context {U : JS.CaseMapping}.

(** X11: an event older than each of the 100 entries of a full, sorted
    store is not stored; the notification for a keyword it matches is
    requested all the same. *)
Theorem X11_old_event_full_store (c : Clock) (n : NewsItem) (st : Store.NewsState) :
  List.length (Store.news st) = 100%nat ->
  Spec.sorted_desc (Store.news st) ->
  Forall (fun y => num_lt (time n) (time y)) (Store.news st) ->
  fst (Store.addNews c n st) = st /\
  (Store.disableApiRequests st && String.eqb (source n) "api" = false ->
   negb (Store.showTwitterPosts st) && Store.isTwitterOrXPost n = false ->
   existsb (Store.duplicate_of (Store.with_defaults c n)) (Store.news st) = false ->
   forall k, Notification.checkForKeywordMatch n (Store.filterKeywords st) = Some k ->
             k <> "" -> matchedKeyword n = None ->
             snd (Store.addNews c n st)
             = [(Store.enhancedNewsItem st (Store.with_defaults c n), k)]).
Proof.
  intros Hlen Hsorted Hnewer. split.
  - destruct (addNews_cases c n st) as [-> | [_ ->]]; [reflexivity|].
    cbn [fst]. cbn [JS.sort]. rewrite (sort_sorted_id _ Hsorted).
    rewrite sort_insert_last.
    + rewrite take_app_length' by (symmetry; exact Hlen). apply set_news_same.
    + destruct (with_defaults_fields c n) as (_ & _ & _ & _ & Ht & _).
      cbn [time Store.enhancedNewsItem Store.enhance]. now rewrite Ht.
  - intros Hapi Htw Hdup k Hk Hne Hnone.
    unfold Store.addNews. rewrite Hapi, isTwitterOrXPost_defaults, Htw, Hdup.
    cbn [snd]. unfold Store.scheduled.
    destruct (with_defaults_fields c n) as (Ht & Hb & _ & _ & _ & _ & _ & _ & Hmk & _).
    assert (Hm : Notification.checkForKeywordMatch (Store.with_defaults c n)
                   (Store.filterKeywords st) = Some k).
    { rewrite <- Hk. unfold Notification.checkForKeywordMatch. now rewrite Ht, Hb. }
    rewrite Hm, Hmk, Hnone. apply truthy_true in Hne. now rewrite Hne.
Qed.

End FullStore.

Lemma X11_old_event_full_store_witness :
  fst (Store.addNews clock0 old_event full_store) = full_store /\
  snd (Store.addNews clock0 old_event full_store)
  = [(Store.enhancedNewsItem full_store (Store.with_defaults clock0 old_event), "btc")].
Proof.
  assert (H1 : List.length (Store.news full_store) = 100%nat) by reflexivity.
  assert (H2 : Spec.sorted_desc (Store.news full_store)).
  { apply sorted_descb_sound. vm_compute. reflexivity. }
  assert (H3 : Forall (fun y => num_lt (time old_event) (time y)) (Store.news full_store)).
  { apply (Forall_forallb _ (fun y => match time old_event, time y with
                                      | Num a, Num b => (a <? b)%Z
                                      | _, _ => false
                                      end)).
    - intros x Hx. destruct (time old_event), (time x); try discriminate.
      now apply Z.ltb_lt.
    - vm_compute. reflexivity. }
  destruct (X11_old_event_full_store clock0 old_event full_store H1 H2 H3) as [Ha Hb].
  split; [exact Ha|].
  apply Hb; [reflexivity | reflexivity | vm_compute; reflexivity | reflexivity
            | discriminate | reflexivity].
Defined.


(** ** The retry loop of the HTTP client (X12 to X16) *)

Lemma delays_S (a : Z) (k : nat) :
  Api.delays a (S k) = Api.retry_delay (a + 1) :: Api.delays (a + 1) k.
Proof.
  unfold Api.delays. cbn [seq map]. f_equal.
  rewrite <- seq_shift, map_map. apply map_ext. intros i. f_equal. lia.
Qed.

Lemma wait_before_succ (a : Z) : 0 <= a -> Api.wait_before (a + 1) = [Api.retry_delay (a + 1)].
Proof.
  intros H. unfold Api.wait_before.
  destruct (a + 1 >? 0)%Z eqn:E; [reflexivity|]. rewrite Z.gtb_ltb in E. apply Z.ltb_ge in E. lia.
Qed.

Lemma wait_delays (a : Z) (k : nat) :
  0 <= a ->
  (Api.wait_before a ++ Api.wait_before (a + 1) ++ Api.delays (a + 1) k)%list
  = (Api.wait_before a ++ Api.delays a (S k))%list.
Proof. intros H. now rewrite delays_S, wait_before_succ. Qed.

Lemma attempts_from_S (r : nat) (a : Z) (net : Z -> Api.Attempt) (last : option string) :
  Api.attempts_from (S r) a net last =
  match Api.attempt_result (net a) with
  | inl status => (Api.Returned status, Api.wait_before a)
  | inr m =>
      if Api.is_cors m then (Api.Threw m, Api.wait_before a)
      else
        let (o, w) := Api.attempts_from r (a + 1) net (Some m) in
        (o, (Api.wait_before a ++ w)%list)
  end.
Proof. reflexivity. Qed.

Lemma attempts_from_decided (net : Z -> Api.Attempt) (k : nat) :
  forall (rem : nat) (a : Z) (last : option string) (o : Api.Outcome),
    0 <= a -> (k < rem)%nat ->
    (forall j, (j < k)%nat -> Api.decided (net (a + Z.of_nat j)) = None) ->
    Api.decided (net (a + Z.of_nat k)) = Some o ->
    Api.attempts_from rem a net last = (o, (Api.wait_before a ++ Api.delays a k)%list).
Proof.
  induction k as [|k IH]; intros rem a last o Ha Hk Hbefore Hat.
  - destruct rem as [|r]; [lia|]. rewrite attempts_from_S.
    replace (a + Z.of_nat 0) with a in Hat by lia.
    unfold Api.decided in Hat. unfold Api.delays. cbn [seq map]. rewrite List.app_nil_r.
    destruct (Api.attempt_result (net a)) as [s | m].
    + now inversion Hat.
    + destruct (Api.is_cors m); [now inversion Hat | discriminate].
  - destruct rem as [|r]; [lia|]. rewrite attempts_from_S.
    pose proof (Hbefore 0%nat ltac:(lia)) as H0.
    replace (a + Z.of_nat 0) with a in H0 by lia. unfold Api.decided in H0.
    destruct (Api.attempt_result (net a)) as [s | m]; [discriminate|].
    destruct (Api.is_cors m); [discriminate|].
    rewrite (IH r (a + 1) (Some m) o); [| lia | lia | |].
    + now rewrite wait_delays.
    + intros j Hj. replace (a + 1 + Z.of_nat j) with (a + Z.of_nat (S j)) by lia.
      apply Hbefore. lia.
    + replace (a + 1 + Z.of_nat k) with (a + Z.of_nat (S k)) by lia. exact Hat.
Qed.

Lemma attempts_from_exhausted (net : Z -> Api.Attempt) (r : nat) :
  forall (a : Z) (last : option string),
    0 <= a ->
    (forall j, (j <= r)%nat -> Api.decided (net (a + Z.of_nat j)) = None) ->
    exists m, Api.attempt_result (net (a + Z.of_nat r)) = inr m /\
              Api.attempts_from (S r) a net last
              = (Api.Threw m, (Api.wait_before a ++ Api.delays a r)%list).
Proof.
  induction r as [|r IH]; intros a last Ha Hall.
  - pose proof (Hall 0%nat ltac:(lia)) as H0. unfold Api.decided in H0.
    rewrite attempts_from_S. destruct (Api.attempt_result (net (a + Z.of_nat 0))) as [s|m] eqn:E;
      [discriminate|].
    replace (a + Z.of_nat 0) with a in E by lia. rewrite E.
    destruct (Api.is_cors m); [discriminate|]. exists m. split; reflexivity.
  - pose proof (Hall 0%nat ltac:(lia)) as H0. unfold Api.decided in H0.
    replace (a + Z.of_nat 0) with a in H0 by lia.
    rewrite attempts_from_S. destruct (Api.attempt_result (net a)) as [s|m0]; [discriminate|].
    destruct (Api.is_cors m0); [discriminate|].
    destruct (IH (a + 1) (Some m0)) as (m & Hm & Heq); [lia | |].
    + intros j Hj. replace (a + 1 + Z.of_nat j) with (a + Z.of_nat (S j)) by lia.
      apply Hall. lia.
    + exists m. split.
      * replace (a + Z.of_nat (S r)) with (a + 1 + Z.of_nat r) by lia. exact Hm.
      * rewrite Heq. now rewrite wait_delays.
Qed.

Lemma attempts_from_waits (net : Z -> Api.Attempt) (r : nat) :
  forall (a : Z) (last : option string),
    0 <= a ->
    exists k, (k <= r)%nat /\
              snd (Api.attempts_from (S r) a net last)
              = (Api.wait_before a ++ Api.delays a k)%list.
Proof.
  induction r as [|r IH]; intros a last Ha; rewrite attempts_from_S.
  - exists 0%nat. split; [lia|]. unfold Api.delays. cbn [seq map].
    destruct (Api.attempt_result (net a)) as [s|m];
      [cbn [snd]; now rewrite List.app_nil_r|].
    destruct (Api.is_cors m); cbn [snd Api.attempts_from]; now rewrite ?List.app_nil_r.
  - destruct (Api.attempt_result (net a)) as [s|m].
    + exists 0%nat. split; [lia|]. unfold Api.delays. cbn [seq map snd].
      now rewrite List.app_nil_r.
    + destruct (Api.is_cors m).
      * exists 0%nat. split; [lia|]. unfold Api.delays. cbn [seq map snd].
        now rewrite List.app_nil_r.
      * destruct (IH (a + 1) (Some m)) as (k & Hk & Hs); [lia|].
        destruct (Api.attempts_from (S r) (a + 1) net (Some m)) as [o w].
        cbn [snd] in *. exists (S k). split; [lia|]. rewrite Hs. now apply wait_delays.
Qed.

Lemma retry_delay_bounds (i : Z) : 1 <= i -> 1000 <= Api.retry_delay i <= 10000.
Proof.
  intros H. unfold Api.retry_delay.
  assert (1 <= 2 ^ (i - 1)) by (apply Z.pow_le_mono_r with (b := 0) (c := i - 1); lia).
  lia.
Qed.

(** X12: with [retries >= 0], [fetchWithRetry] sleeps before each attempt
    but the first, for 1000, 2000, 4000, 8000 and then 10000 ms: the delays
    slept are the first [k] of that sequence for some [k <= retries], each
    between 1000 and 10000 ms. *)
Theorem X12_fetch_waits (retries : Z) (net : Z -> Api.Attempt) :
  0 <= retries ->
  exists k, (k <= Z.to_nat retries)%nat /\
            snd (Api.fetchWithRetry retries net) = Api.delays 0 k /\
            Forall (fun w => 1000 <= w <= 10000) (Api.delays 0 k).
Proof.
  intros H. unfold Api.fetchWithRetry.
  replace (Z.to_nat (retries + 1)) with (S (Z.to_nat retries)) by lia.
  destruct (attempts_from_waits net (Z.to_nat retries) 0 None ltac:(lia)) as (k & Hk & Hs).
  exists k. split; [exact Hk|]. split; [exact Hs|].
  unfold Api.delays. rewrite Forall_fmap, Forall_forall. intros i Hi.
  apply list_elem_of_In, in_seq in Hi. cbn beta. unfold compose.
  apply retry_delay_bounds. lia.
Qed.

Lemma X12_fetch_waits_witness :
  exists k, (k <= Z.to_nat 2)%nat /\
            snd (Api.fetchWithRetry 2 flaky_net) = Api.delays 0 k /\
            Forall (fun w => 1000 <= w <= 10000) (Api.delays 0 k).
Proof. apply (X12_fetch_waits 2 flaky_net). lia. Defined.

(** X13: the first attempt that ends with a response or with an error
    mentioning CORS decides the call: the response is returned, or the CORS
    error is thrown without using the retries that are left; the delays
    slept are those of the attempts before it. *)
Theorem X13_fetch_decided (retries : Z) (net : Z -> Api.Attempt) (k : nat)
    (o : Api.Outcome) :
  Z.of_nat k <= retries ->
  (forall j, (j < k)%nat -> Api.decided (net (Z.of_nat j)) = None) ->
  Api.decided (net (Z.of_nat k)) = Some o ->
  Api.fetchWithRetry retries net = (o, Api.delays 0 k).
Proof.
  intros Hk Hbefore Hat. unfold Api.fetchWithRetry.
  rewrite (attempts_from_decided net k _ 0 None o); [reflexivity | lia | lia | | ].
  - intros j Hj. now apply Hbefore.
  - exact Hat.
Qed.

Lemma X13_fetch_decided_witness :
  Api.fetchWithRetry 2 flaky_net = (Api.Returned 200, [1000; 2000]).
Proof.
  apply (X13_fetch_decided 2 flaky_net 2 (Api.Returned 200)).
  - lia.
  - intros [|[|j]] Hj; [reflexivity | reflexivity | lia].
  - reflexivity.
Defined.

(** X14: when every attempt fails with an error that does not mention
    CORS, the call throws the error of the last attempt, after
    [retries + 1] attempts and all [retries] delays. *)
Theorem X14_fetch_exhausted (retries : Z) (net : Z -> Api.Attempt) :
  0 <= retries ->
  (forall j, 0 <= j <= retries -> Api.decided (net j) = None) ->
  exists m, Api.attempt_result (net retries) = inr m /\
            Api.fetchWithRetry retries net = (Api.Threw m, Api.delays 0 (Z.to_nat retries)).
Proof.
  intros H Hall. unfold Api.fetchWithRetry.
  replace (Z.to_nat (retries + 1)) with (S (Z.to_nat retries)) by lia.
  destruct (attempts_from_exhausted net (Z.to_nat retries) 0 None ltac:(lia)) as (m & Hm & Heq).
  - intros j Hj. apply Hall. lia.
  - exists m. split; [|exact Heq].
    replace (0 + Z.of_nat (Z.to_nat retries)) with retries in Hm by lia. exact Hm.
Qed.

Lemma X14_fetch_exhausted_witness :
  exists m, Api.attempt_result (silent_net 2) = inr m /\
            Api.fetchWithRetry 2 silent_net = (Api.Threw m, Api.delays 0 (Z.to_nat 2)).
Proof.
  apply (X14_fetch_exhausted 2 silent_net); [lia|]. intros j _. reflexivity.
Defined.

Lemma attempts_from_provenance (net : Z -> Api.Attempt) (rem : nat) :
  forall (a : Z) (last : option string),
    match fst (Api.attempts_from rem a net last) with
    | Api.Returned s =>
        exists j, (j < rem)%nat /\ Api.attempt_result (net (a + Z.of_nat j)) = inl s
    | Api.Threw m =>
        (exists j, (j < rem)%nat /\ Api.attempt_result (net (a + Z.of_nat j)) = inr m) \/
        (rem = 0%nat /\
         m = match last with Some l => l | None => "All retry attempts failed" end)
    end.
Proof.
  induction rem as [|r IH]; intros a last.
  - cbn. right. split; reflexivity.
  - rewrite attempts_from_S.
    destruct (Api.attempt_result (net a)) as [s|m0] eqn:E.
    + cbn [fst]. exists 0%nat. split; [lia|]. now replace (a + Z.of_nat 0) with a by lia.
    + destruct (Api.is_cors m0) eqn:Ec.
      * cbn [fst]. left. exists 0%nat. split; [lia|].
        now replace (a + Z.of_nat 0) with a by lia.
      * specialize (IH (a + 1) (Some m0)).
        destruct (Api.attempts_from r (a + 1) net (Some m0)) as [o w]. cbn [fst] in *.
        destruct o as [s|m].
        -- destruct IH as (j & Hj & Hr). exists (S j). split; [lia|].
           now replace (a + Z.of_nat (S j)) with (a + 1 + Z.of_nat j) by lia.
        -- destruct IH as [(j & Hj & Hr) | [_ ->]].
           ++ left. exists (S j). split; [lia|].
              now replace (a + Z.of_nat (S j)) with (a + 1 + Z.of_nat j) by lia.
           ++ left. exists 0%nat. split; [lia|].
              now replace (a + Z.of_nat 0) with a by lia.
Qed.

(** X15: with [retries >= 0] the call ends with the result of an attempt
    it made: the response it returns was received, and the error it throws
    is the error of one of the attempts [0, ..., retries]; the message
    ['All retry attempts failed'] is made up only when the loop runs no
    attempt at all. *)
Theorem X15_fetch_provenance (retries : Z) (net : Z -> Api.Attempt) :
  0 <= retries ->
  match fst (Api.fetchWithRetry retries net) with
  | Api.Returned s => exists j, 0 <= j <= retries /\ Api.attempt_result (net j) = inl s
  | Api.Threw m => exists j, 0 <= j <= retries /\ Api.attempt_result (net j) = inr m
  end.
Proof.
  intros H. unfold Api.fetchWithRetry.
  pose proof (attempts_from_provenance net (Z.to_nat (retries + 1)) 0 None) as Hp.
  destruct (fst (Api.attempts_from (Z.to_nat (retries + 1)) 0 net None)) as [s|m].
  - destruct Hp as (j & Hj & Hr). exists (Z.of_nat j). split; [lia | exact Hr].
  - destruct Hp as [(j & Hj & Hr) | [H0 _]]; [|lia].
    exists (Z.of_nat j). split; [lia | exact Hr].
Qed.

Lemma X15_fetch_provenance_witness :
  match fst (Api.fetchWithRetry 2 flaky_net) with
  | Api.Returned s => exists j, 0 <= j <= 2 /\ Api.attempt_result (flaky_net j) = inl s
  | Api.Threw m => exists j, 0 <= j <= 2 /\ Api.attempt_result (flaky_net j) = inr m
  end.
Proof. apply (X15_fetch_provenance 2 flaky_net). lia. Defined.

(** ** A fetch that times out (X16) *)

Lemma silent_fetch (net : Z -> Api.Attempt) :
  (forall j, 0 <= j <= 2 -> net j = Api.TimedOut) ->
  Api.fetchWithRetry 2 net = (Api.Threw "Request timeout", [1000; 2000]).
Proof.
  intros H. unfold Api.fetchWithRetry. change (Z.to_nat (2 + 1)) with 3%nat.
  destruct (attempts_from_exhausted net 2 0 None ltac:(lia)) as (m & Hm & ->).
  - intros j Hj. unfold Api.decided. rewrite H by lia. reflexivity.
  - rewrite H in Hm by lia. now inversion Hm.
Qed.

(** X16: when none of the three attempts of a fetch is answered within
    the time limit, the store ends up not loading and showing the
    time-out message of the source; the Phoenix fetch leaves the list as it
    is, the Tree fetch replaces it by the mock events exactly when the list
    it read on entry was empty. *)
Theorem X16_fetch_timeout (mockNews : list NewsItem) (x : Api.Exchange)
    (store : Store.NewsState) :
  (forall j, 0 <= j <= 2 -> Api.net x j = Api.TimedOut) ->
  let shown src current :=
    Store.setIsLoading false
      (Store.setError
         (Some (Api.label src +:+ " API request timed out. Server may be unavailable."))
         current) in
  Api.fetchPhoenixNews x store
  = shown phoenix (Api.during x (Store.setIsLoading true store)) /\
  Api.fetchTreeNews mockNews x store
  = let s := shown tree
               (Api.during x (Store.setError None (Store.setIsLoading true store))) in
    match Store.news store with
    | [] => Store.set_news mockNews s
    | _ :: _ => s
    end.
Proof.
  intros H shown. unfold Api.fetchPhoenixNews, Api.fetchTreeNews.
  rewrite (silent_fetch _ H). cbn [fst]. split; [reflexivity|].
  destruct (Store.news store); reflexivity.
Qed.

Lemma X16_fetch_timeout_witness :
  Store.error (Api.fetchPhoenixNews silent_exchange one_stored)
  = Some "Phoenix API request timed out. Server may be unavailable." /\
  Store.news (Api.fetchTreeNews api_response silent_exchange empty_store) = api_response.
Proof.
  destruct (X16_fetch_timeout api_response silent_exchange) with (store := one_stored)
    as [Hp _]; [reflexivity|].
  destruct (X16_fetch_timeout api_response silent_exchange) with (store := empty_store)
    as [_ Ht]; [reflexivity|].
  rewrite Hp, Ht. split; reflexivity.
Defined.


(** ** The background task gives up (X17) *)

Lemma check_source_offline (url : option string) (a : Z) :
  JS.truthy_opt url = true ->
  Background.check_source false url a =
  if (a <? 10)%Z then (a + 1, Some (Background.reconnect_delay a)) else (a, None).
Proof. intros H. unfold Background.check_source. cbn [negb andb]. now rewrite H. Qed.

Lemma check_offline (src : NewsSource) (env : Background.World) (r : Background.Attempts) :
  Background.urls_known env = true ->
  Background.connected_of src env = false ->
  let a := Background.attempts_of src r in
  let out := Background.checkAndReconnectWebSockets env r in
  Background.attempts_of src (fst out) = (if (a <? 10)%Z then a + 1 else a) /\
  Background.timers_of src (snd out) =
    (if (a <? 10)%Z then [Background.reconnect_delay a] else []).
Proof.
  intros Hurls Hoff a out. subst a out.
  unfold Background.urls_known in Hurls. apply andb_true_iff in Hurls.
  destruct Hurls as [Ht Hp].
  unfold Background.checkAndReconnectWebSockets. rewrite Ht, Hp. cbn [negb orb].
  destruct src; cbn [Background.connected_of Background.attempts_of] in *.
  - rewrite Hoff, (check_source_offline _ _ Ht).
    destruct (Background.check_source _ _ (Background.phoenix_attempts r)) as [p pd].
    destruct (Background.tree_attempts r <? 10)%Z; cbn; (split; [reflexivity|]);
      destruct pd; reflexivity.
  - rewrite Hoff, (check_source_offline _ _ Hp).
    destruct (Background.check_source _ _ (Background.tree_attempts r)) as [t td].
    destruct (Background.phoenix_attempts r <? 10)%Z; cbn; (split; [reflexivity|]);
      destruct td; reflexivity.
Qed.

Lemma runs_offline (src : NewsSource) (env : nat -> Background.World) (n : nat) :
  forall (k : nat) (r : Background.Attempts),
    (forall i, Background.urls_known (env i) = true /\
               Background.connected_of src (env i) = false) ->
    0 <= Background.attempts_of src r ->
    let a := Background.attempts_of src r in
    Background.attempts_of src (fst (Background.runs n k env r)) = Z.max a (Z.min (a + Z.of_nat n) 10) /\
    map (Background.timers_of src) (snd (Background.runs n k env r)) =
    map (fun i => if (a + Z.of_nat i <? 10)%Z
                  then [Background.reconnect_delay (a + Z.of_nat i)] else [])
        (seq 0 n).
Proof.
  induction n as [|n IH]; intros k r Henv Ha a.
  - cbn. split; [lia | reflexivity].
  - cbn [Background.runs].
    destruct (Henv k) as [Hu Hc].
    destruct (check_offline src (env k) r Hu Hc) as [H1 H2]. fold a in H1, H2.
    destruct (Background.checkAndReconnectWebSockets (env k) r) as [r1 timers].
    cbn [fst snd] in H1, H2.
    assert (Ha1 : 0 <= Background.attempts_of src r1)
      by (rewrite H1; destruct (a <? 10)%Z; lia).
    destruct (IH (S k) r1 Henv Ha1) as [I1 I2].
    destruct (Background.runs n (S k) env r1) as [r2 rest]. cbn [fst snd] in *.
    split.
    + rewrite I1, H1. destruct (a <? 10)%Z eqn:E;
        [apply Z.ltb_lt in E | apply Z.ltb_ge in E]; lia.
    + cbn [map seq]. f_equal.
      * rewrite H2. replace (a + Z.of_nat 0) with a by lia. reflexivity.
      * rewrite I2, <- seq_shift, map_map. apply map_ext_in. intros i _.
        rewrite H1. destruct (a <? 10)%Z eqn:E.
        -- replace (a + 1 + Z.of_nat i) with (a + Z.of_nat (S i)) by lia. reflexivity.
        -- apply Z.ltb_ge in E.
           destruct (a + Z.of_nat i <? 10)%Z eqn:E1; [apply Z.ltb_lt in E1; lia|].
           destruct (a + Z.of_nat (S i) <? 10)%Z eqn:E2; [apply Z.ltb_lt in E2; lia|].
           reflexivity.
Qed.

(** X17: while a source stays disconnected and both URLs are known, the
    background task sets one reconnect timer per run for it, with the
    delays 1000, 2000, 4000, ... doubled up to the cap of 60000 ms, for ten
    runs; from the eleventh run on it sets no timer for that source any
    more, and the counter stays at 10. *)
Theorem X17_background_gives_up (src : NewsSource) (env : nat -> Background.World)
    (n : nat) (r : Background.Attempts) :
  (forall i, Background.urls_known (env i) = true /\
             Background.connected_of src (env i) = false) ->
  Background.attempts_of src r = 0 ->
  Background.attempts_of src (fst (Background.runs n 0 env r)) = Z.min (Z.of_nat n) 10 /\
  map (Background.timers_of src) (snd (Background.runs n 0 env r)) =
  map (fun i => if (Z.of_nat i <? 10)%Z
                then [Z.min (1000 * 2 ^ Z.of_nat i) 60000] else [])
      (seq 0 n).
Proof.
  intros Henv H0.
  destruct (runs_offline src env n 0 r Henv ltac:(lia)) as [H1 H2].
  rewrite H0 in H1, H2. split; [rewrite H1; lia|].
  rewrite H2. apply map_ext. intros i. reflexivity.
Qed.

Lemma X17_background_gives_up_witness :
  map (Background.timers_of phoenix)
      (snd (Background.runs 12 0 offline_world
              {| Background.tree_attempts := 0; Background.phoenix_attempts := 0 |}))
  = [[1000]; [2000]; [4000]; [8000]; [16000]; [32000]; [60000]; [60000]; [60000];
     [60000]; []; []].
Proof.
  destruct (X17_background_gives_up phoenix offline_world 12
              {| Background.tree_attempts := 0; Background.phoenix_attempts := 0 |})
    as [_ H].
  - intros i. split; reflexivity.
  - reflexivity.
  - rewrite H. reflexivity.
Defined.


(** ** Failed notifications (X18) *)

Section PhoneRetries.

Context {U : JS.CaseMapping}.

Lemma schedule_fresh (a : Notification.Ambient) (t : Z) (n : NewsItem) (kw : string)
    (s : Notification.Service) :
  Notification.isInitialized s = true ->
  Notification.permissionStatus a = "granted" ->
  Notification.notificationId n kw ∉ Notification.recentNotifications s ->
  let id := Notification.notificationId n kw in
  let s1 := Notification.setTimeout t Notification.NOTIFICATION_DEDUPE_WINDOW
              (Notification.Expire id)
              (Notification.set_recent ({[id]} ∪ Notification.recentNotifications s) s) in
  Notification.scheduleNotification a t n kw s =
  if Notification.is_web a
  then Notification.showWebNotification (Notification.delivered a)
         (Notify.dispatch_of n kw) s1
  else Notification.showMobileNotification t (Notification.delivered a)
         (Notify.dispatch_of n kw) 0 s1.
Proof.
  intros Hinit Hperm Hfresh id s1. unfold Notification.scheduleNotification.
  rewrite Hinit. cbv iota. rewrite Hinit. cbn [negb]. rewrite Hperm.
  cbn [String.eqb Ascii.eqb Bool.eqb negb].
  rewrite bool_decide_eq_false_2 by exact Hfresh. reflexivity.
Qed.

Lemma advance_retry (a : Notification.Ambient) (t te tr : Z) (i : string)
    (d : Notification.Dispatch) (k : nat) (s : Notification.Service) :
  Notification.timers s = [(te, Notification.Expire i); (tr, Notification.Retry d k)] ->
  tr <= t < te ->
  Notification.advance a t s =
  Notification.showMobileNotification tr (Notification.delivered a) d k
    (Notification.set_timers [(te, Notification.Expire i)] s).
Proof.
  intros Htm Ht. unfold Notification.advance. rewrite Htm.
  rewrite (filter_cons_False (fun p => fst p <= t)) by (cbn; lia).
  rewrite (filter_cons_True (fun p => fst p <= t)) by (cbn; lia).
  rewrite (filter_cons_True (fun p => ~ fst p <= t)) by (cbn; lia).
  rewrite (filter_cons_False (fun p => ~ fst p <= t)) by (cbn; lia).
  rewrite !filter_nil. reflexivity.
Qed.

(** X18: on a phone whose notifier keeps failing, a notification is tried
    three times and then given up: the first call at once, a retry 1000 ms
    later and a last one 2000 ms after that; the first failure is counted
    as [failed], the two retries as [retried], and only the expiry of the
    cache entry stays pending. *)
Theorem X18_phone_retries (s : Notification.Service) (n : NewsItem) (kw : string)
    (t t1 t2 : Z) (a0 a1 a2 : Notification.Ambient) :
  Notification.isInitialized s = true ->
  Notification.timers s = [] ->
  Notification.notificationId n kw ∉ Notification.recentNotifications s ->
  Notification.permissionStatus a0 = "granted" ->
  Notification.is_web a0 = false ->
  Notification.delivered a0 = false ->
  Notification.delivered a1 = false ->
  Notification.delivered a2 = false ->
  t + 1000 <= t1 < t + 60000 ->
  t + 3000 <= t2 < t + 60000 ->
  let d := Notify.dispatch_of n kw in
  let s3 := Notification.advance a2 t2
              (Notification.advance a1 t1
                 (Notification.scheduleNotification a0 t n kw s)) in
  Notification.sink s3 = (Notification.sink s ++ [d; d; d])%list /\
  Notification.notificationStats s3 =
    {| Notification.success := Notification.success (Notification.notificationStats s);
       Notification.failed := S (Notification.failed (Notification.notificationStats s));
       Notification.retried :=
         S (S (Notification.retried (Notification.notificationStats s)));
       Notification.skipped := Notification.skipped (Notification.notificationStats s) |} /\
  Notification.timers s3 =
    [(t + 60000, Notification.Expire (Notification.notificationId n kw))].
Proof.
  intros Hinit Htm Hfresh Hperm Hweb Hd0 Hd1 Hd2 Ht1 Ht2 d s3.
  set (id := Notification.notificationId n kw) in *.
  assert (E : s3 =
    {| Notification.isInitialized := Notification.isInitialized s;
       Notification.webNotificationsSupported := Notification.webNotificationsSupported s;
       Notification.webNotificationsPermission := Notification.webNotificationsPermission s;
       Notification.recentNotifications := {[id]} ∪ Notification.recentNotifications s;
       Notification.notificationStats :=
         Notification.retried_incr
           (Notification.retried_incr
              (Notification.failed_incr (Notification.notificationStats s)));
       Notification.timers := [(t + 60000, Notification.Expire id)];
       Notification.sink := (((Notification.sink s ++ [d]) ++ [d]) ++ [d])%list |}).
  { subst s3. rewrite (schedule_fresh a0 t n kw s Hinit Hperm Hfresh). rewrite Hweb, Hd0.
    fold d id. clearbody d id.
    destruct s as [ini wsup wperm recent stats tm snk].
    cbn [Notification.timers Notification.sink Notification.notificationStats
         Notification.isInitialized Notification.webNotificationsSupported
         Notification.webNotificationsPermission Notification.recentNotifications] in *.
    subst tm.
    unfold Notification.showMobileNotification at 1. cbn [Nat.ltb Nat.leb].
    rewrite (advance_retry a1 t1 (t + 60000) (t + 1000) id d 1); [| reflexivity | lia].
    rewrite Hd1. unfold Notification.showMobileNotification at 1. cbn [Nat.ltb Nat.leb].
    rewrite (advance_retry a2 t2 (t + 60000) (t + 3000) id d 2).
    2:{ cbn. change (2 ^ Z.of_nat 1 * 1000) with 2000.
        replace (t + 1000 + 2000) with (t + 3000) by lia. reflexivity. }
    2: lia.
    rewrite Hd2. unfold Notification.showMobileNotification. cbn [Nat.ltb Nat.leb].
    reflexivity. }
  rewrite E. cbn [Notification.sink Notification.notificationStats Notification.timers].
  rewrite <- !List.app_assoc. repeat split; reflexivity.
Qed.

End PhoneRetries.

Lemma X18_phone_retries_witness :
  List.length
    (Notification.sink
       (Notification.advance phone_failing 4000
          (Notification.advance phone_failing 2000
             (Notification.scheduleNotification phone_failing 1000 c9_event "btc"
                idle_service)))) = 3%nat.
Proof.
  assert (Hf : Notification.notificationId c9_event "btc"
               ∉ Notification.recentNotifications idle_service)
    by (cbn; apply not_elem_of_empty).
  destruct (X18_phone_retries idle_service c9_event "btc" 1000 2000 4000
              phone_failing phone_failing phone_failing
              eq_refl eq_refl Hf eq_refl eq_refl eq_refl eq_refl eq_refl
              ltac:(lia) ltac:(lia)) as [H _].
  rewrite H. reflexivity.
Defined.


(** ** After the window (X19) *)

Section Resend.

Context {U : JS.CaseMapping}.

Lemma run_expiries (a : Notification.Ambient) (due : list (Z * Notification.Callback)) :
  forall s : Notification.Service,
    Forall Notify.is_expiry due ->
    let s' := foldl (fun acc p => Notification.run_callback a (fst p) (snd p) acc) s due in
    Notification.recentNotifications s' ⊆ Notification.recentNotifications s /\
    (forall t i, (t, Notification.Expire i) ∈ due ->
                 i ∉ Notification.recentNotifications s') /\
    Notification.isInitialized s' = Notification.isInitialized s /\
    Notification.webNotificationsSupported s' = Notification.webNotificationsSupported s /\
    Notification.webNotificationsPermission s' = Notification.webNotificationsPermission s /\
    Notification.timers s' = Notification.timers s /\
    Notification.sink s' = Notification.sink s /\
    Notification.notificationStats s' = Notification.notificationStats s.
Proof.
  induction due as [|[t0 cb] due IH]; intros s Hall.
  - cbn. repeat split; try reflexivity. intros t i Hin. now apply elem_of_nil in Hin.
  - apply Forall_cons in Hall. destruct Hall as [[i0 Hcb] Hall]. cbn [snd] in Hcb. subst cb.
    cbn [foldl fst snd Notification.run_callback].
    set (s0 := Notification.set_recent _ s).
    destruct (IH s0 Hall) as (H1 & H2 & H3 & H4 & H5 & H6 & H7 & H8).
    cbv zeta in *.
    set (s' := foldl _ s0 due) in *.
    assert (Hsub : Notification.recentNotifications s0
                   ⊆ Notification.recentNotifications s).
    { subst s0. cbn [Notification.set_recent Notification.recentNotifications].
      intros x Hx. apply elem_of_difference in Hx. tauto. }
    split; [etransitivity; eassumption|].
    split.
    { intros t i Hin. apply elem_of_cons in Hin. destruct Hin as [Heq | Hin].
      - inversion Heq; subst. intros Hi. apply H1 in Hi. subst s0.
        cbn [Notification.set_recent Notification.recentNotifications] in Hi.
        apply elem_of_difference in Hi. destruct Hi as [_ Hi]. apply Hi.
        now apply elem_of_singleton.
      - now apply (H2 t i). }
    subst s0. cbn [Notification.set_recent Notification.isInitialized
                   Notification.webNotificationsSupported
                   Notification.webNotificationsPermission Notification.timers
                   Notification.sink Notification.notificationStats] in *.
    repeat split; assumption.
Qed.

Lemma schedule_accepted (a : Notification.Ambient) (t : Z) (n : NewsItem) (kw : string)
    (s : Notification.Service) :
  Notification.isInitialized s = true ->
  Notification.permissionStatus a = "granted" ->
  Notification.notificationId n kw ∉ Notification.recentNotifications s ->
  Spec.accepts a s = true ->
  let id := Notification.notificationId n kw in
  let s1 := Notification.scheduleNotification a t n kw s in
  Notification.sink s1 = (Notification.sink s ++ [Notify.dispatch_of n kw])%list /\
  Notification.timers s1 =
    (Notification.timers s ++
       [(t + Notification.NOTIFICATION_DEDUPE_WINDOW, Notification.Expire id)])%list /\
  Notification.isInitialized s1 = true /\
  Notification.webNotificationsSupported s1 = Notification.webNotificationsSupported s /\
  Notification.webNotificationsPermission s1 = Notification.webNotificationsPermission s.
Proof.
  intros Hinit Hperm Hfresh Hacc id s1. subst s1.
  rewrite (schedule_fresh a t n kw s Hinit Hperm Hfresh). fold id.
  unfold Spec.accepts in Hacc. destruct (Notification.is_web a).
  - unfold Notification.showWebNotification.
    cbn [Notification.setTimeout Notification.set_timers Notification.set_recent
         Notification.webNotificationsSupported Notification.webNotificationsPermission].
    apply andb_true_iff in Hacc. destruct Hacc as [Hs Hg]. rewrite Hs, Hg. cbn [negb orb].
    destruct (Notification.delivered a); repeat split;
      first [reflexivity | exact Hinit | exact Hs].
  - unfold Notification.showMobileNotification. rewrite Hacc.
    repeat split; try reflexivity; exact Hinit.
Qed.

(** X19: the cache entry of a notification lives for 60000 ms: the same
    request made once the window has passed reaches the notifier again. *)
Theorem X19_resend_after_window (s : Notification.Service) (n : NewsItem) (kw : string)
    (t0 t1 : Z) (a0 a1 : Notification.Ambient) :
  Notification.isInitialized s = true ->
  Forall Notify.is_expiry (Notification.timers s) ->
  Notification.notificationId n kw ∉ Notification.recentNotifications s ->
  Notification.permissionStatus a0 = "granted" ->
  Notification.permissionStatus a1 = "granted" ->
  Spec.accepts a0 s = true ->
  Spec.accepts a1 s = true ->
  t0 + Notification.NOTIFICATION_DEDUPE_WINDOW <= t1 ->
  Notification.sink
    (Spec.replay n kw [(t1, a1)] (Notification.scheduleNotification a0 t0 n kw s))
  = (Notification.sink s ++ [Notify.dispatch_of n kw; Notify.dispatch_of n kw])%list.
Proof.
  intros Hinit Htm Hfresh Hp0 Hp1 Hacc0 Hacc1 Ht.
  set (id := Notification.notificationId n kw) in *.
  set (d := Notify.dispatch_of n kw).
  destruct (schedule_accepted a0 t0 n kw s Hinit Hp0 Hfresh Hacc0)
    as (Hsk1 & Htm1 & Hi1 & Hws1 & Hwp1).
  cbv zeta in Hsk1, Htm1, Hi1, Hws1, Hwp1. fold id d in Hsk1, Htm1.
  set (s1 := Notification.scheduleNotification a0 t0 n kw s) in *.
  cbn [Spec.replay].
  set (s2 := Notification.advance a1 t1 s1).
  assert (H2 : (id ∉ Notification.recentNotifications s2) /\
               Notification.isInitialized s2 = true /\
               Notification.webNotificationsSupported s2
                 = Notification.webNotificationsSupported s /\
               Notification.webNotificationsPermission s2
                 = Notification.webNotificationsPermission s /\
               Notification.sink s2 = (Notification.sink s ++ [d])%list).
  { subst s2. unfold Notification.advance.
    set (due := JS.sort _ _). set (later := filter _ _).
    assert (Hdue : Forall Notify.is_expiry due).
    { assert (Hall : Forall Notify.is_expiry (Notification.timers s1)).
      { rewrite Htm1. apply Forall_app. split; [exact Htm|]. constructor; [|constructor].
        exists id. reflexivity. }
      subst due. rewrite sort_perm. rewrite Forall_forall in *. intros p Hp.
      apply list_elem_of_filter in Hp. now apply Hall. }
    destruct (run_expiries a1 due (Notification.set_timers later s1) Hdue)
      as (_ & Hgone & Hi & Hws & Hwp & _ & Hsk & _).
    cbv zeta in *. split.
    - apply (Hgone (t0 + Notification.NOTIFICATION_DEDUPE_WINDOW)).
      subst due. rewrite sort_perm. apply list_elem_of_filter. split; [cbn; lia|].
      rewrite Htm1. apply elem_of_app. right. apply list_elem_of_here.
    - rewrite Hi, Hws, Hwp, Hsk.
      cbn [Notification.set_timers Notification.isInitialized
           Notification.webNotificationsSupported Notification.webNotificationsPermission
           Notification.sink].
      repeat split; assumption. }
  destruct H2 as (Hgone & Hi2 & Hws & Hwp & Hsk).
  assert (Hacc2 : Spec.accepts a1 s2 = true).
  { unfold Spec.accepts in *. now rewrite Hws, Hwp. }
  destruct (schedule_accepted a1 t1 n kw s2 Hi2 Hp1 Hgone Hacc2) as (Hsk3 & _).
  cbv zeta in Hsk3. rewrite Hsk3, Hsk, <- List.app_assoc. reflexivity.
Qed.

End Resend.

Lemma X19_resend_after_window_witness :
  Notification.sink
    (Spec.replay c9_event "btc" [(61000, phone_ok)]
       (Notification.scheduleNotification phone_ok 1000 c9_event "btc" idle_service))
  = [Notify.dispatch_of c9_event "btc"; Notify.dispatch_of c9_event "btc"].
Proof.
  assert (Hf : Notification.notificationId c9_event "btc"
               ∉ Notification.recentNotifications idle_service)
    by (cbn; apply not_elem_of_empty).
  assert (Ht : Forall Notify.is_expiry (Notification.timers idle_service)) by constructor.
  assert (Hw : 1000 + Notification.NOTIFICATION_DEDUPE_WINDOW <= 61000)
    by (unfold Notification.NOTIFICATION_DEDUPE_WINDOW; lia).
  exact (X19_resend_after_window idle_service c9_event "btc" 1000 61000 phone_ok phone_ok
           eq_refl Ht Hf eq_refl eq_refl eq_refl eq_refl Hw).
Defined.


(** ** A notification the browser refuses (X20) *)

Section WebFailure.

Context {U : JS.CaseMapping}.

Lemma replay_window_stats (id : string) (t0 : Z) (n : NewsItem) (kw : string)
    (reqs : list (Z * Notification.Ambient)) :
  forall s : Notification.Service,
    Notification.notificationId n kw = id -> Spec.in_window id t0 s ->
    Forall (fun r => t0 <= fst r < t0 + Notification.NOTIFICATION_DEDUPE_WINDOW) reqs ->
    let sN := Spec.replay n kw reqs s in
    Spec.in_window id t0 sN /\
    Notification.success (Notification.notificationStats sN)
      = Notification.success (Notification.notificationStats s) /\
    Notification.failed (Notification.notificationStats sN)
      = Notification.failed (Notification.notificationStats s) /\
    Notification.retried (Notification.notificationStats sN)
      = Notification.retried (Notification.notificationStats s).
Proof.
  induction reqs as [|[t a] reqs IH]; intros s Hid Hw Hreqs.
  - cbn. auto.
  - apply Forall_cons in Hreqs. destruct Hreqs as [Ht Hreqs]. cbn [fst] in Ht.
    cbn [Spec.replay].
    destruct (advance_in_window id t0 a t s Hw) as (Hw' & _ & Hstats); [lia|].
    rewrite (repeat_skipped id t0 a t n kw _ Hid Hw').
    assert (Hw2 : Spec.in_window id t0
                    (Notification.set_stats Notification.skipped_incr
                       (Notification.advance a t s))).
    { destruct Hw' as (H1 & H2 & H3). repeat split; assumption. }
    destruct (IH _ Hid Hw2 Hreqs) as (I1 & I2 & I3 & I4). cbv zeta in *.
    rewrite I2, I3, I4.
    cbn [Notification.set_stats Notification.notificationStats
         Notification.skipped_incr Notification.success Notification.failed
         Notification.retried].
    rewrite Hstats. auto.
Qed.

(** X20: in a browser a notification whose constructor throws is not
    tried again, and since its cache entry was made before the call,
    every repeat of the request within the window is skipped as a
    duplicate: the notifier was called once, no call succeeded, and no
    retry is pending. *)
Theorem X20_web_failure (s : Notification.Service) (n : NewsItem) (kw : string)
    (t0 : Z) (a0 : Notification.Ambient) (reqs : list (Z * Notification.Ambient)) :
  Notification.isInitialized s = true ->
  Notification.webNotificationsSupported s = true ->
  Notification.webNotificationsPermission s = "granted" ->
  Notification.permissionStatus a0 = "granted" ->
  Notification.is_web a0 = true ->
  Notification.delivered a0 = false ->
  Notification.notificationId n kw ∉ Notification.recentNotifications s ->
  Forall (Spec.other_expiry (Notification.notificationId n kw)) (Notification.timers s) ->
  Forall (fun r => t0 <= fst r < t0 + Notification.NOTIFICATION_DEDUPE_WINDOW) reqs ->
  let sN := Spec.replay n kw reqs (Notification.scheduleNotification a0 t0 n kw s) in
  Notification.sink sN = (Notification.sink s ++ [Notify.dispatch_of n kw])%list /\
  Notification.success (Notification.notificationStats sN)
    = Notification.success (Notification.notificationStats s) /\
  Notification.failed (Notification.notificationStats sN)
    = S (Notification.failed (Notification.notificationStats s)) /\
  Notification.skipped (Notification.notificationStats sN)
    = (Notification.skipped (Notification.notificationStats s) + List.length reqs)%nat /\
  Forall Notify.is_expiry (Notification.timers sN).
Proof.
  intros Hinit Hsup Hgr Hperm Hweb Hfail Hfresh Htm Hreqs sN.
  set (id := Notification.notificationId n kw) in *.
  set (s1 := Notification.scheduleNotification a0 t0 n kw s) in *.
  assert (E : s1 =
    Notification.set_stats Notification.failed_incr
      (Notification.push_sink (Notify.dispatch_of n kw)
         (Notification.setTimeout t0 Notification.NOTIFICATION_DEDUPE_WINDOW
            (Notification.Expire id)
            (Notification.set_recent ({[id]} ∪ Notification.recentNotifications s) s)))).
  { subst s1. rewrite (schedule_fresh a0 t0 n kw s Hinit Hperm Hfresh). fold id.
    rewrite Hweb, Hfail. unfold Notification.showWebNotification.
    cbn [Notification.setTimeout Notification.set_timers Notification.set_recent
         Notification.webNotificationsSupported Notification.webNotificationsPermission].
    rewrite Hsup, Hgr. reflexivity. }
  assert (Hw : Spec.in_window id t0 s1).
  { rewrite E. split; [|split].
    - cbn. apply elem_of_union_l, elem_of_singleton. reflexivity.
    - exact Hinit.
    - cbn [Notification.set_stats Notification.push_sink Notification.setTimeout
           Notification.set_timers Notification.set_recent Notification.timers].
      apply Forall_app. split.
      + eapply Forall_impl; [exact Htm|]. intros p Hp. now right.
      + constructor; [now left | constructor]. }
  destruct (replay_in_window id t0 n kw reqs s1 eq_refl Hw Hreqs) as [Hsink Hskip].
  destruct (replay_window_stats id t0 n kw reqs s1 eq_refl Hw Hreqs)
    as ((_ & _ & Htimers) & Hsucc & Hfailed & _).
  cbv zeta in *. fold sN in Hsink, Hskip, Hsucc, Hfailed, Htimers.
  rewrite Hsink, Hskip, Hsucc, Hfailed, E.
  cbn [Notification.set_stats Notification.push_sink Notification.setTimeout
       Notification.set_timers Notification.set_recent Notification.sink
       Notification.notificationStats Notification.failed_incr Notification.success
       Notification.failed Notification.skipped].
  repeat split; try reflexivity.
  eapply Forall_impl; [exact Htimers|]. intros p [-> | (i & Hp & _)].
  - exists id. reflexivity.
  - exists i. exact Hp.
Qed.

End WebFailure.

Lemma X20_web_failure_witness :
  Notification.sink
    (Spec.replay c9_event "btc" [(2000, browser); (30000, browser)]
       (Notification.scheduleNotification browser_failing 1000 c9_event "btc" web_service))
  = [Notify.dispatch_of c9_event "btc"].
Proof.
  assert (Hf : Notification.notificationId c9_event "btc"
               ∉ Notification.recentNotifications web_service)
    by (cbn; apply not_elem_of_empty).
  assert (Ht : Forall (Spec.other_expiry (Notification.notificationId c9_event "btc"))
                      (Notification.timers web_service)) by constructor.
  assert (Hr : Forall (fun r : Z * Notification.Ambient =>
                         1000 <= fst r < 1000 + Notification.NOTIFICATION_DEDUPE_WINDOW)
                      [(2000, browser); (30000, browser)]).
  { unfold Notification.NOTIFICATION_DEDUPE_WINDOW.
    repeat constructor; cbn; lia. }
  destruct (X20_web_failure web_service c9_event "btc" 1000 browser_failing
              [(2000, browser); (30000, browser)]
              eq_refl eq_refl eq_refl eq_refl eq_refl eq_refl Hf Ht Hr) as [H _].
  exact H.
Defined.


(** ** Cleaned and decoded text (X21, X22) *)

Lemma ws_len_table (w y : string) :
  In w JS.white_space -> JS.ws_len (w +:+ y) = String.length w.
Proof.
  unfold JS.white_space. cbn [map In JS.bytes fold_right].
  intros H. repeat (destruct H as [<- | H]; [reflexivity|]). destruct H.
Qed.

Lemma ws_len_space (y : string) : JS.ws_len (String " " y) = 1%nat.
Proof. apply (ws_len_table " " y). vm_compute. tauto. Qed.

Lemma ws_len_continuation (c : ascii) (s : string) :
  Spec.continuation c = true -> JS.ws_len (String c s) = O.
Proof.
  intros Hc. unfold JS.ws_len. apply prefix_len_zero.
  pose proof white_space_chars as H. rewrite forallb_forall in H.
  rewrite Forall_forall. intros w Hw. apply list_elem_of_In in Hw.
  specialize (H w Hw). destruct w as [|a w]; [discriminate|].
  cbn [Spec.one_char] in H. apply andb_true_iff in H. destruct H as [Ha _].
  cbn [JS.startsWith]. destruct (Ascii.eqb a c) eqn:E; [|reflexivity].
  apply Ascii.eqb_eq in E. subst a. now rewrite Hc in Ha.
Qed.

Lemma collapse_spaces_go_eq (k : nat) (s : string) :
  TextUtils.collapse_spaces_go k s =
  match s with
  | EmptyString => EmptyString
  | String c r =>
      match k with
      | S k' => TextUtils.collapse_spaces_go k' r
      | O =>
          match JS.ws_len s with
          | O => String c (TextUtils.collapse_spaces_go O r)
          | S j =>
              if (0 <? JS.ws_len (JS.drop (S j) s))%nat
              then String " "%char
                     (TextUtils.collapse_spaces_go
                        (String.length s - String.length (JS.trimStart s) - 1) r)
              else String c (TextUtils.collapse_spaces_go O r)
          end
      end
  end.
Proof. destruct s; reflexivity. Qed.

Lemma collapse_spaces_go_drop (k : nat) (s : string) :
  TextUtils.collapse_spaces_go k s = TextUtils.collapse_spaces (JS.drop k s).
Proof.
  revert k. induction s as [|c s IH]; intros [|k]; try reflexivity.
  cbn [TextUtils.collapse_spaces_go JS.drop]. apply IH.
Qed.

(** Bytes that continue a character are copied. *)
Lemma collapse_continuation (w t : string) :
  Spec.all_chars Spec.continuation w = true ->
  TextUtils.collapse_spaces (w +:+ t) = w +:+ TextUtils.collapse_spaces t.
Proof.
  induction w as [|b w IH]; intros H; [reflexivity|].
  cbn [Spec.all_chars] in H. apply andb_true_iff in H. destruct H as [Hb H].
  unfold TextUtils.collapse_spaces in *. rewrite app_cons, collapse_spaces_go_eq.
  rewrite (ws_len_continuation b _ Hb). now rewrite IH, app_cons.
Qed.

(** A match of continuation bytes at the head of the collapsed text is
    one at the head of the text. *)
Lemma collapse_startsWith_continuation (w s : string) :
  Spec.all_chars Spec.continuation w = true ->
  JS.startsWith (TextUtils.collapse_spaces s) w = true -> JS.startsWith s w = true.
Proof.
  revert s. induction w as [|b w IH]; intros s Hw H; [reflexivity|].
  cbn [Spec.all_chars] in Hw. apply andb_true_iff in Hw. destruct Hw as [Hb Hw].
  unfold TextUtils.collapse_spaces in *. rewrite collapse_spaces_go_eq in H.
  destruct s as [|d r]; [discriminate|].
  assert (Hcopy : JS.startsWith (String d (TextUtils.collapse_spaces_go 0 r)) (String b w) = true ->
                  JS.startsWith (String d r) (String b w) = true).
  { cbn [JS.startsWith]. destruct (Ascii.eqb b d); [|discriminate]. now apply IH. }
  destruct (JS.ws_len (String d r)) as [|j] eqn:E; [now apply Hcopy|].
  exfalso.
  assert (Hd : Spec.continuation d = false).
  { destruct (Spec.continuation d) eqn:Ed; [|reflexivity].
    rewrite (ws_len_continuation d r Ed) in E. discriminate. }
  destruct (0 <? JS.ws_len (JS.drop (S j) (String d r)))%nat.
  - cbn [JS.startsWith] in H. destruct (Ascii.eqb b " ") eqn:Eb; [|discriminate].
    apply Ascii.eqb_eq in Eb. subst b. discriminate.
  - cbn [JS.startsWith] in H. destruct (Ascii.eqb b d) eqn:Eb; [|discriminate].
    apply Ascii.eqb_eq in Eb. subst b. congruence.
Qed.

Lemma ws_len_collapse (s : string) :
  JS.ws_len s = O -> JS.ws_len (TextUtils.collapse_spaces s) = O.
Proof.
  intros H. destruct (JS.ws_len (TextUtils.collapse_spaces s)) as [|k] eqn:E; [reflexivity|].
  exfalso. destruct (prefix_len_found _ _ _ E) as (w & y & Hw & Hy & _).
  pose proof white_space_chars as Hc. rewrite forallb_forall in Hc. specialize (Hc w Hw).
  destruct w as [|a w]; [discriminate|].
  cbn [Spec.one_char] in Hc. apply andb_true_iff in Hc. destruct Hc as [_ Hc].
  unfold TextUtils.collapse_spaces in Hy. rewrite collapse_spaces_go_eq in Hy.
  destruct s as [|c r]; [discriminate|]. rewrite H in Hy.
  rewrite app_cons in Hy. injection Hy as -> Hy.
  assert (Hs : JS.startsWith (String a r) (String a w) = true).
  { cbn [JS.startsWith]. rewrite Ascii.eqb_refl.
    apply (collapse_startsWith_continuation w r Hc).
    apply startsWith_spec. exists y. exact Hy. }
  apply startsWith_spec in Hs. destruct Hs as [y' Hy'].
  rewrite Hy', (ws_len_table (String a w) y' Hw) in H. discriminate.
Qed.

Lemma drop_length (m : nat) (s : string) :
  String.length (JS.drop m s) = (String.length s - m)%nat.
Proof.
  revert s. induction m as [|m IH]; intros s; [simpl; lia|].
  destruct s as [|c s]; [reflexivity|]. cbn [JS.drop String.length]. now rewrite IH.
Qed.

Lemma drop_add (a b : nat) (s : string) : JS.drop (a + b) s = JS.drop b (JS.drop a s).
Proof.
  revert s. induction a as [|a IH]; intros s; [reflexivity|].
  destruct s as [|c s]; [now destruct b|]. cbn [JS.drop Nat.add]. apply IH.
Qed.

Lemma trimStart_length_le (s : string) :
  (String.length (JS.trimStart s) <= String.length s)%nat.
Proof.
  remember (String.length s) as m eqn:Hm. revert s Hm.
  induction m as [m IH] using lt_wf_ind. intros s Hm.
  rewrite (trimStart_eq s). destruct (JS.ws_len s) as [|j] eqn:Ej; [lia|].
  destruct (drop_length_lt j s) as [Hlt | ->]; [|simpl; lia].
  specialize (IH _ ltac:(subst m; exact Hlt) (JS.drop (S j) s) eq_refl). lia.
Qed.

(** The trimmed text is what is left of the text behind its leading
    white space. *)
Lemma trimStart_suffix (s : string) :
  JS.drop (String.length s - String.length (JS.trimStart s)) s = JS.trimStart s.
Proof.
  remember (String.length s) as n eqn:Hn. revert s Hn.
  induction n as [n IH] using lt_wf_ind. intros s Hn.
  rewrite (trimStart_eq s). destruct (JS.ws_len s) as [|k] eqn:E.
  - subst n. now rewrite Nat.sub_diag.
  - destruct (drop_length_lt k s) as [Hlt | ->]; [|discriminate].
    pose proof (IH _ ltac:(subst n; exact Hlt) (JS.drop (S k) s) eq_refl) as H.
    assert (Hle : (S k <= String.length s)%nat) by (rewrite <- E; apply prefix_len_le).
    pose proof (trimStart_length_le (JS.drop (S k) s)) as Hsuf.
    rewrite drop_length in *.
    rewrite <- H at 2. rewrite <- drop_add. f_equal. lia.
Qed.

Lemma single_spaced_cons (c : ascii) (r : string) :
  Text.single_spaced (String c r) =
  negb ((0 <? JS.ws_len (String c r))%nat &&
        (0 <? JS.ws_len (JS.drop (JS.ws_len (String c r)) (String c r)))%nat)
  && Text.single_spaced r.
Proof. reflexivity. Qed.

Lemma collapse_spaces_go_shape (s : string) :
  forall k, Text.single_spaced (TextUtils.collapse_spaces_go k s) = true.
Proof.
  induction s as [|c r IH]; intros k; [reflexivity|].
  rewrite collapse_spaces_go_eq. destruct k as [|k]; [|apply IH].
  destruct (JS.ws_len (String c r)) as [|j] eqn:E.
  - rewrite single_spaced_cons, IH, andb_true_r.
    pose proof (ws_len_collapse _ E) as H. unfold TextUtils.collapse_spaces in H.
    rewrite collapse_spaces_go_eq, E in H. now rewrite H.
  - destruct (0 <? JS.ws_len (JS.drop (S j) (String c r)))%nat eqn:En.
    + rewrite single_spaced_cons, IH, andb_true_r.
      rewrite ws_len_space.
      cbn [JS.drop]. rewrite collapse_spaces_go_drop.
      replace (JS.drop (String.length (String c r)
                        - String.length (JS.trimStart (String c r)) - 1) r)
        with (JS.trimStart (String c r)).
      * rewrite (ws_len_collapse _ (ws_len_trimStart _)). reflexivity.
      * pose proof (trimStart_suffix (String c r)) as Hsuf.
        set (ts := JS.trimStart (String c r)) in *.
        assert (Hlt : (String.length ts < String.length (String c r))%nat).
        { subst ts. rewrite (trimStart_eq (String c r)), E.
          pose proof (trimStart_length_le (JS.drop (S j) (String c r))) as Hle.
          destruct (drop_length_lt j (String c r)) as [Hl | Hl]; [lia | discriminate]. }
        rewrite <- Hsuf at 1. cbn [String.length] in *.
        destruct (S (String.length r) - String.length ts)%nat as [|m] eqn:Em; [lia|].
        cbn [JS.drop]. replace (S m - 1)%nat with m by lia. reflexivity.
    + rewrite single_spaced_cons, IH, andb_true_r.
      apply Nat.ltb_ge in En.
      destruct (prefix_len_found _ _ _ E) as (w & t & Hw & Ht & Hl).
      pose proof white_space_chars as Hc. rewrite forallb_forall in Hc. specialize (Hc w Hw).
      destruct w as [|a w]; [discriminate|].
      cbn [Spec.one_char] in Hc. apply andb_true_iff in Hc. destruct Hc as [_ Hc].
      rewrite app_cons in Ht. injection Ht as <- ->.
      pose proof (collapse_continuation w t Hc) as Hcol. unfold TextUtils.collapse_spaces in Hcol.
      rewrite Hcol, <- app_cons, (ws_len_table (String c w) _ Hw), drop_app.
      assert (Hz : JS.ws_len t = O).
      { rewrite <- app_cons, <- Hl, drop_app in En. lia. }
      pose proof (ws_len_collapse _ Hz) as Hz'. unfold TextUtils.collapse_spaces in Hz'.
      rewrite Hz'. now rewrite andb_false_r.
Qed.

Lemma single_spaced_drop (k : nat) (s : string) :
  Text.single_spaced s = true -> Text.single_spaced (JS.drop k s) = true.
Proof.
  revert s. induction k as [|k IH]; intros s H; [exact H|].
  destruct s as [|c r]; [reflexivity|]. cbn [JS.drop]. apply IH.
  rewrite single_spaced_cons in H. apply andb_true_iff in H. tauto.
Qed.

Lemma single_spaced_trimStart (s : string) :
  Text.single_spaced s = true -> Text.single_spaced (JS.trimStart s) = true.
Proof. intros H. rewrite <- trimStart_suffix. now apply single_spaced_drop. Qed.

(** What stands in front of a character boundary is single-spaced where
    the whole text is. *)
Lemma single_spaced_prefix (p q : string) :
  Spec.at_boundary q = true ->
  Text.single_spaced (p +:+ q) = true -> Text.single_spaced p = true.
Proof.
  intros Hq. induction p as [|c p IH]; intros H; [reflexivity|].
  rewrite app_cons, single_spaced_cons in H. apply andb_true_iff in H.
  destruct H as [H1 H2].
  rewrite single_spaced_cons, (IH H2), andb_true_r.
  rewrite <- app_cons in H1.
  rewrite (ws_len_app (String c p) q ltac:(discriminate) Hq) in H1.
  rewrite (drop_app_le (JS.ws_len (String c p)) (String c p) q (prefix_len_le _ _)) in H1.
  destruct (JS.drop (JS.ws_len (String c p)) (String c p)) as [|d t] eqn:E.
  - rewrite ws_len_nil. now rewrite andb_false_r.
  - rewrite (ws_len_app (String d t) q ltac:(discriminate) Hq) in H1. exact H1.
Qed.

Lemma single_spaced_trimEnd (s : string) :
  Text.single_spaced s = true -> Text.single_spaced (JS.trimEnd s) = true.
Proof.
  intros H. destruct (trimEnd_split s) as (q & Hq & Hs).
  rewrite Hq in H. apply (single_spaced_prefix _ q); [|exact H].
  now apply all_space_boundary.
Qed.

Lemma single_spaced_trim (s : string) :
  Text.single_spaced s = true -> Text.single_spaced (JS.trim s) = true.
Proof. intros H. unfold JS.trim. now apply single_spaced_trimEnd, single_spaced_trimStart. Qed.

(** X21: whatever the text, [cleanupTweetContent] returns a trimmed string
    in which no two white-space characters are adjacent. *)
Theorem X21_cleanup_shape (text : string) :
  JS.trim (TextUtils.cleanupTweetContent text) = TextUtils.cleanupTweetContent text /\
  Text.single_spaced (TextUtils.cleanupTweetContent text) = true.
Proof.
  unfold TextUtils.cleanupTweetContent.
  destruct (negb (JS.truthy text)); [split; reflexivity|].
  cbv zeta. split; [apply trim_idem|].
  apply single_spaced_trim. unfold TextUtils.collapse_spaces.
  apply collapse_spaces_go_shape.
Qed.

Example cleanup_nbsp :
  TextUtils.cleanupTweetContent ("RT:" +:+ nbsp +:+ "gm " +:+ nbsp +:+ " fam" +:+ nbsp)
  = "gm fam".
Proof. vm_compute. reflexivity. Qed.

Lemma replace_absent (a : ascii) (pat rep s : string) :
  Spec.all_chars (fun c => negb (Ascii.eqb a c)) s = true ->
  JS.replaceAll s (String a pat) rep = s.
Proof.
  unfold JS.replaceAll. induction s as [|c r IH]; intros H; [reflexivity|].
  cbn [Spec.all_chars] in H. apply andb_true_iff in H. destruct H as [Hc Hr].
  apply negb_true_iff in Hc.
  cbn [JS.replaceAll_go JS.startsWith]. rewrite Hc. now rewrite (IH Hr).
Qed.

Lemma includes_char (a : ascii) (s : string) :
  JS.includes s (String a EmptyString) = false ->
  Spec.all_chars (fun c => negb (Ascii.eqb a c)) s = true.
Proof.
  induction s as [|c r IH]; intros H; [reflexivity|].
  cbn [JS.includes JS.startsWith] in H. apply orb_false_iff in H. destruct H as [H1 H2].
  cbn [Spec.all_chars]. rewrite (IH H2), andb_true_r.
  destruct (Ascii.eqb a c); [discriminate | reflexivity].
Qed.

Lemma replace_char_gone (a : ascii) (rep s : string) :
  Spec.all_chars (fun c => negb (Ascii.eqb a c)) rep = true ->
  Spec.all_chars (fun c => negb (Ascii.eqb a c))
    (JS.replaceAll s (String a EmptyString) rep) = true.
Proof.
  intros Hrep. unfold JS.replaceAll. induction s as [|c r IH]; [reflexivity|].
  cbn [JS.replaceAll_go JS.startsWith String.length].
  destruct (Ascii.eqb a c) eqn:E.
  - now rewrite all_chars_app, Hrep, IH.
  - cbn [Spec.all_chars]. now rewrite E, IH.
Qed.

(** X22: the decoder returns a single line: with or without a [document],
    no line feed is left in its result; and the fallback decoder returns a
    text with neither an ampersand nor a line feed as it is. *)
Theorem X22_decode (document : option TextUtils.Document) (text : string) :
  Spec.all_chars (fun c => negb (Ascii.eqb (ascii_of_nat 10) c))
    (TextUtils.decodeHtmlEntities document (Some text)) = true /\
  (JS.includes text "&" = false -> JS.includes text TextUtils.newline = false ->
   TextUtils.decodeHtmlEntities None (Some text) = text).
Proof.
  unfold TextUtils.decodeHtmlEntities. split.
  - destruct (JS.truthy text); [|reflexivity].
    assert (Hc : Spec.all_chars (fun c => negb (Ascii.eqb (ascii_of_nat 10) c))
                   (TextUtils.decode_chain text) = true).
    { unfold TextUtils.decode_chain. cbv zeta. apply replace_char_gone. reflexivity. }
    destruct document as [dom|]; [|exact Hc].
    destruct (dom text) as [value|]; [|exact Hc].
    apply replace_char_gone. reflexivity.
  - intros Hamp Hnl. apply includes_char in Hamp. apply includes_char in Hnl.
    destruct (JS.truthy text) eqn:E.
    + unfold TextUtils.decode_chain. cbv zeta.
      rewrite !(replace_absent "&"%char _ _ text Hamp).
      apply (replace_absent (ascii_of_nat 10)). exact Hnl.
    + unfold JS.truthy in E. apply negb_false_iff, String.eqb_eq in E. now subst.
Qed.

Lemma X22_decode_witness :
  TextUtils.decodeHtmlEntities None (Some "BTC rallies") = "BTC rallies".
Proof.
  destruct (X22_decode None "BTC rallies") as [_ H]. apply H; reflexivity.
Defined.


(** ** No link is left in cleaned text (X23) *)

Lemma drop_nil (k : nat) : JS.drop k "" = "".
Proof. now destruct k. Qed.

Lemma has_link_cons (lit : string) (c : ascii) (r : string) :
  Text.has_link lit (String c r) = Text.linked lit (String c r) || Text.has_link lit r.
Proof. reflexivity. Qed.

Lemma linked_nil (lit : string) : Text.linked lit "" = false.
Proof. unfold Text.linked. rewrite drop_nil. apply andb_false_r. Qed.

Lemma has_link_nil (lit : string) : Text.has_link lit "" = false.
Proof. cbn [Text.has_link]. now rewrite linked_nil. Qed.

Lemma has_link_linked (lit s : string) :
  Text.linked lit s = true -> Text.has_link lit s = true.
Proof. intros H. destruct s; cbn [Text.has_link]; now rewrite H. Qed.

Lemma has_link_tail (lit : string) (c : ascii) (r : string) :
  Text.has_link lit r = true -> Text.has_link lit (String c r) = true.
Proof. intros H. rewrite has_link_cons, H. apply orb_true_r. Qed.

Lemma has_link_drop (n : nat) (s lit : string) :
  Text.has_link lit (JS.drop n s) = true -> Text.has_link lit s = true.
Proof.
  revert s. induction n as [|n IH]; intros s H; [exact H|].
  destruct s as [|c s]; [exact H|]. apply has_link_tail, IH. exact H.
Qed.

(** Where the pattern matches, the text has the literal, and what follows
    it neither is empty nor starts with white space. *)
Lemma has_link_split (lit a b : string) :
  Text.has_link lit (a +:+ lit +:+ b) = false -> Text.head_space b = true.
Proof.
  induction a as [|c a IH]; intros H.
  - rewrite app_nil_l in H.
    destruct (Text.linked lit (lit +:+ b)) eqn:E.
    + now rewrite (has_link_linked _ _ E) in H.
    + unfold Text.linked in E. rewrite drop_app in E.
      rewrite (proj2 (startsWith_spec (lit +:+ b) lit)) in E by (now exists b).
      now apply negb_false_iff in E.
  - rewrite app_cons, has_link_cons in H. apply orb_false_iff in H. now apply IH.
Qed.

(** A literal of plain bytes starts with one. *)
Lemma word_head (lit : string) :
  Text.word lit = true ->
  exists x w, lit = String x w /\ Text.plain x = true /\ Spec.all_chars Text.plain w = true.
Proof.
  unfold Text.word. destruct lit as [|x w]; [discriminate|].
  cbn [Spec.all_chars]. intros H. apply andb_true_iff in H. destruct H as [_ H].
  apply andb_true_iff in H. destruct H as [Hx Hw]. now exists x, w.
Qed.

Lemma word_chars (lit : string) :
  Text.word lit = true -> Spec.all_chars Text.plain lit = true /\ lit <> "".
Proof.
  unfold Text.word. intros H. apply andb_true_iff in H. destruct H as [Hne H].
  split; [exact H|]. intros ->. discriminate.
Qed.

Lemma startsWith_not_plain (lit : string) (b : ascii) (r : string) :
  Text.word lit = true -> Text.plain b = false -> JS.startsWith (String b r) lit = false.
Proof.
  intros Hlit Hb. destruct (word_head lit Hlit) as (x & w & -> & Hx & _).
  cbn [JS.startsWith]. destruct (Ascii.eqb x b) eqn:E; [|reflexivity].
  apply Ascii.eqb_eq in E. congruence.
Qed.

Lemma linked_not_plain (lit : string) (b : ascii) (r : string) :
  Text.word lit = true -> Text.plain b = false -> Text.linked lit (String b r) = false.
Proof. intros Hlit Hb. unfold Text.linked. now rewrite startsWith_not_plain. Qed.

Lemma has_link_not_plain (lit w y : string) :
  Text.word lit = true -> Spec.all_chars (fun c => negb (Text.plain c)) w = true ->
  Text.has_link lit (w +:+ y) = Text.has_link lit y.
Proof.
  intros Hlit. induction w as [|b w IH]; intros H; [reflexivity|].
  cbn [Spec.all_chars] in H. apply andb_true_iff in H. destruct H as [Hb H].
  apply negb_true_iff in Hb.
  rewrite app_cons, has_link_cons, (linked_not_plain lit b _ Hlit Hb). now apply IH.
Qed.

(** The first byte of a white-space character is not plain, and neither
    are the bytes that follow it. *)
Lemma head_space_not_plain (c : ascii) (r : string) :
  Text.head_space (String c r) = true -> Text.plain c = false.
Proof.
  cbn [Text.head_space]. intros H.
  destruct (JS.ws_len (String c r)) as [|k] eqn:E; [discriminate|].
  destruct (prefix_len_found _ _ _ E) as (w & y & Hw & Hy & _).
  unfold Text.plain. apply andb_false_iff. right.
  apply not_true_is_false. intros Hf. rewrite forallb_forall in Hf. specialize (Hf w Hw).
  pose proof white_space_chars as Hc. rewrite forallb_forall in Hc. specialize (Hc w Hw).
  destruct w as [|a w]; [discriminate|].
  rewrite app_cons in Hy. injection Hy as -> _.
  cbn [JS.startsWith] in Hf. rewrite Ascii.eqb_refl in Hf. discriminate.
Qed.

Lemma white_space_not_plain :
  forallb (Spec.all_chars (fun c => negb (Text.plain c))) JS.white_space = true.
Proof. vm_compute. reflexivity. Qed.

Lemma startsWith_head_space (u : string) (x : ascii) (w : string) :
  Text.head_space u = true -> Text.plain x = true -> JS.startsWith u (String x w) = false.
Proof.
  destruct u as [|c r]; [reflexivity|]. intros H Hx.
  pose proof (head_space_not_plain c r H) as Hc.
  cbn [JS.startsWith]. destruct (Ascii.eqb x c) eqn:E; [|reflexivity].
  apply Ascii.eqb_eq in E. congruence.
Qed.

Lemma head_space_ws (w y : string) :
  In w JS.white_space -> Text.head_space (w +:+ y) = true.
Proof.
  intros Hw. pose proof (ws_len_table w y Hw) as H.
  pose proof white_space_chars as Hc. rewrite forallb_forall in Hc. specialize (Hc w Hw).
  destruct w as [|a w]; [discriminate|].
  rewrite app_cons in *. cbn [Text.head_space]. rewrite H. reflexivity.
Qed.

Lemma head_space_run (s : string) :
  Text.head_space s = match TextUtils.nonspace_run s with O => true | S _ => false end.
Proof.
  destruct s as [|c r]; [reflexivity|].
  cbn [Text.head_space TextUtils.nonspace_run]. now destruct (JS.ws_len (String c r)).
Qed.

(** [\S+] stops in front of white space or at the end. *)
Lemma nonspace_run_drop (t : string) :
  Text.head_space (JS.drop (TextUtils.nonspace_run t) t) = true.
Proof.
  induction t as [|c r IH]; [reflexivity|].
  cbn [TextUtils.nonspace_run]. destruct (JS.ws_len (String c r)) as [|k] eqn:E.
  - cbn [JS.drop]. exact IH.
  - cbn [JS.drop Text.head_space]. now rewrite E.
Qed.

Lemma link_at_None (lits : list string) (s : string) :
  TextUtils.link_at lits s = None <-> Forall (fun lit => Text.linked lit s = false) lits.
Proof.
  induction lits as [|lit rest IH]; [split; [constructor | reflexivity]|].
  cbn [TextUtils.link_at]. rewrite List.Forall_cons_iff. unfold Text.linked at 1.
  rewrite head_space_run.
  destruct (JS.startsWith s lit); [|cbn [andb]; tauto].
  destruct (TextUtils.nonspace_run (JS.drop (String.length lit) s)); cbn [andb negb].
  - tauto.
  - split; [discriminate | intros [H _]; discriminate].
Qed.

Lemma link_at_Some (lits : list string) (s : string) (n : nat) :
  TextUtils.link_at lits s = Some n ->
  exists m, n = S m /\ Text.head_space (JS.drop n s) = true.
Proof.
  induction lits as [|lit rest IH]; [discriminate|].
  cbn [TextUtils.link_at]. destruct (JS.startsWith s lit); [|exact IH].
  destruct (TextUtils.nonspace_run (JS.drop (String.length lit) s)) as [|k] eqn:E; [exact IH|].
  intros [= <-]. exists (String.length lit + k)%nat. split; [lia|].
  rewrite drop_add, <- E. apply nonspace_run_drop.
Qed.

Lemma remove_links_go_skip (lits : list string) (k : nat) (s : string) :
  TextUtils.remove_links_go lits k s = TextUtils.remove_links lits (JS.drop k s).
Proof.
  revert k. induction s as [|c s IH]; intros [|k]; try reflexivity.
  cbn [TextUtils.remove_links_go JS.drop]. apply IH.
Qed.

Lemma remove_links_cons (lits : list string) (c : ascii) (r : string) :
  TextUtils.remove_links lits (String c r) =
  match TextUtils.link_at lits (String c r) with
  | Some (S m) => TextUtils.remove_links lits (JS.drop (S m) (String c r))
  | _ => String c (TextUtils.remove_links lits r)
  end.
Proof.
  unfold TextUtils.remove_links at 1. cbn [TextUtils.remove_links_go].
  destruct (TextUtils.link_at lits (String c r)) as [[|m]|]; try reflexivity.
  cbn [JS.drop]. apply remove_links_go_skip.
Qed.

Section Links.

Variable lits : list string.
Hypothesis Hlits : Forall (fun l => Text.word l = true) lits.

Lemma link_at_not_plain (b : ascii) (r : string) :
  Text.plain b = false -> TextUtils.link_at lits (String b r) = None.
Proof.
  intros Hb. apply link_at_None.
  induction Hlits; constructor; auto using linked_not_plain.
Qed.

(** Bytes that are not plain are copied. *)
Lemma remove_links_not_plain (w y : string) :
  Spec.all_chars (fun c => negb (Text.plain c)) w = true ->
  TextUtils.remove_links lits (w +:+ y) = w +:+ TextUtils.remove_links lits y.
Proof.
  induction w as [|b w IH]; intros H; [reflexivity|].
  cbn [Spec.all_chars] in H. apply andb_true_iff in H. destruct H as [Hb H].
  apply negb_true_iff in Hb.
  rewrite app_cons, remove_links_cons, (link_at_not_plain b _ Hb), (IH H).
  reflexivity.
Qed.

(** White space at the head stays at the head. *)
Lemma remove_links_head_space (t : string) :
  Text.head_space t = true -> Text.head_space (TextUtils.remove_links lits t) = true.
Proof.
  destruct t as [|c r]; [reflexivity|]. intros H. cbn [Text.head_space] in H.
  destruct (JS.ws_len (String c r)) as [|k] eqn:E; [discriminate|].
  destruct (prefix_len_found _ _ _ E) as (w & y & Hw & Hy & Hl).
  rewrite Hy. pose proof white_space_not_plain as Hn. rewrite forallb_forall in Hn.
  rewrite (remove_links_not_plain w y (Hn w Hw)). now apply head_space_ws.
Qed.

(** A literal of plain bytes at the head of the result stood at the head
    of the text, and nothing of it was removed. *)
Lemma remove_links_word (w : string) :
  Spec.all_chars Text.plain w = true -> w <> "" ->
  forall s, JS.startsWith (TextUtils.remove_links lits s) w = true ->
    JS.startsWith s w = true /\
    TextUtils.link_at lits s = None /\
    JS.drop (String.length w) (TextUtils.remove_links lits s) =
    TextUtils.remove_links lits (JS.drop (String.length w) s).
Proof.
  induction w as [|x w IH]; intros Hw Hne s H; [congruence|].
  cbn [Spec.all_chars] in Hw. apply andb_true_iff in Hw. destruct Hw as [Hx Hw].
  destruct s as [|c r]; [discriminate|].
  rewrite remove_links_cons in *.
  destruct (TextUtils.link_at lits (String c r)) as [[|m]|] eqn:E.
  - destruct (link_at_Some _ _ _ E) as (m & Hm & _). discriminate.
  - destruct (link_at_Some _ _ _ E) as (_ & _ & Hs).
    rewrite (startsWith_head_space _ x w (remove_links_head_space _ Hs) Hx) in H.
    discriminate.
  - cbn [JS.startsWith] in *. destruct (Ascii.eqb x c); [|discriminate].
    cbn [String.length JS.drop].
    destruct w as [|y w']; [repeat split; reflexivity|].
    destruct (IH Hw ltac:(discriminate) r H) as (A & _ & C).
    repeat split; assumption.
Qed.

Lemma remove_links_linked (lit s : string) :
  Text.word lit = true ->
  Text.linked lit (TextUtils.remove_links lits s) = true ->
  Text.linked lit s = true /\ TextUtils.link_at lits s = None.
Proof.
  intros Hlit H. unfold Text.linked in *. apply andb_true_iff in H. destruct H as [H1 H2].
  destruct (word_chars lit Hlit) as [Hpl Hne].
  destruct (remove_links_word lit Hpl Hne s H1) as (A & B & C).
  split; [|exact B]. rewrite A. cbn [andb]. rewrite C in H2.
  destruct (Text.head_space (JS.drop (String.length lit) s)) eqn:E; [|reflexivity].
  rewrite (remove_links_head_space _ E) in H2. discriminate.
Qed.

(** No match of a pattern is left where its matches were removed. *)
Lemma remove_links_clean (lit : string) :
  In lit lits -> forall s, Text.has_link lit (TextUtils.remove_links lits s) = false.
Proof.
  intros Hin s.
  assert (Hlit : Text.word lit = true) by (exact (proj1 (List.Forall_forall _ _) Hlits lit Hin)).
  remember (String.length s) as n eqn:Hn. revert s Hn.
  induction n as [n IH] using lt_wf_ind. intros s Hn.
  destruct s as [|c r]; [apply has_link_nil|].
  pose proof (remove_links_linked lit (String c r) Hlit) as Hk.
  rewrite remove_links_cons in *.
  destruct (TextUtils.link_at lits (String c r)) as [[|m]|] eqn:E.
  - destruct (link_at_Some _ _ _ E) as (m & Hm & _). discriminate.
  - destruct (drop_length_lt m (String c r)) as [Hlt | Hlt]; [|discriminate].
    apply (IH _ ltac:(subst n; exact Hlt) _ eq_refl).
  - rewrite has_link_cons.
    rewrite (IH (String.length r) ltac:(subst n; simpl; lia) r eq_refl), orb_false_r.
    destruct (Text.linked lit (String c (TextUtils.remove_links lits r))) eqn:El;
      [|reflexivity].
    destruct (Hk eq_refl) as [L _]. apply link_at_None in E.
    rewrite (proj1 (List.Forall_forall _ _) E lit Hin) in L. discriminate.
Qed.

(** Removing the matches of one pattern creates no match of another. *)
Lemma remove_links_has_link (lit : string) :
  Text.word lit = true ->
  forall s, Text.has_link lit (TextUtils.remove_links lits s) = true ->
            Text.has_link lit s = true.
Proof.
  intros Hlit s.
  remember (String.length s) as n eqn:Hn. revert s Hn.
  induction n as [n IH] using lt_wf_ind. intros s Hn H.
  destruct s as [|c r]; [exact H|].
  pose proof (remove_links_linked lit (String c r) Hlit) as Hk.
  rewrite remove_links_cons in *.
  destruct (TextUtils.link_at lits (String c r)) as [[|m]|] eqn:E.
  - destruct (link_at_Some _ _ _ E) as (m & Hm & _). discriminate.
  - destruct (drop_length_lt m (String c r)) as [Hlt | Hlt]; [|discriminate].
    apply (has_link_drop (S m)).
    apply (IH _ ltac:(subst n; exact Hlt) _ eq_refl H).
  - rewrite has_link_cons in H. apply orb_true_iff in H. destruct H as [H | H].
    + apply has_link_linked. now apply Hk.
    + apply has_link_tail.
      apply (IH (String.length r) ltac:(subst n; simpl; lia) r eq_refl H).
Qed.

End Links.

Lemma linked_prefix (lit p b : string) :
  Spec.at_boundary b = true -> Text.linked lit p = true -> Text.linked lit (p +:+ b) = true.
Proof.
  unfold Text.linked. intros Hb H. apply andb_true_iff in H. destruct H as [H1 H2].
  apply startsWith_spec in H1. destruct H1 as [y ->].
  rewrite drop_app in H2. rewrite app_assoc, drop_app.
  rewrite (proj2 (startsWith_spec (lit +:+ y +:+ b) lit)) by (now exists (y +:+ b)).
  cbn [andb]. destruct y as [|d y]; [discriminate|].
  rewrite app_cons. cbn [Text.head_space] in *.
  rewrite <- app_cons, (ws_len_app (String d y) b ltac:(discriminate) Hb).
  exact H2.
Qed.

(** A match in what stands in front of a character boundary is a match
    in the whole text. *)
Lemma has_link_prefix (lit p b : string) :
  Spec.at_boundary b = true ->
  Text.has_link lit p = true -> Text.has_link lit (p +:+ b) = true.
Proof.
  intros Hb. induction p as [|c p IH]; intros H; [now rewrite has_link_nil in H|].
  rewrite has_link_cons in H. apply orb_true_iff in H. destruct H as [H | H].
  - apply has_link_linked. now apply linked_prefix.
  - rewrite app_cons. apply has_link_tail. now apply IH.
Qed.

Lemma has_link_trim (lit s : string) :
  Text.has_link lit (JS.trim s) = true -> Text.has_link lit s = true.
Proof.
  unfold JS.trim. intros H.
  destruct (trimEnd_split (JS.trimStart s)) as (q & Hq & Hs).
  apply (has_link_prefix lit _ q (all_space_boundary q Hs)) in H.
  rewrite <- Hq, <- trimStart_suffix in H. now apply has_link_drop in H.
Qed.

Lemma strip_trailing_ellipsis_eq (s : string) :
  TextUtils.strip_trailing_ellipsis s =
  if JS.startsWith s "…" && JS.all_space (JS.drop (String.length "…") s)
  then EmptyString
  else match s with
       | EmptyString => EmptyString
       | String c r => String c (TextUtils.strip_trailing_ellipsis r)
       end.
Proof. destruct s; reflexivity. Qed.

(** What is cut off starts with the ellipsis. *)
Lemma strip_trailing_ellipsis_split (s : string) :
  exists b, s = TextUtils.strip_trailing_ellipsis s +:+ b /\ Spec.at_boundary b = true.
Proof.
  induction s as [|c s (b & IH & Hb)]; [exists ""; split; reflexivity|].
  rewrite strip_trailing_ellipsis_eq.
  destruct (JS.startsWith (String c s) "…") eqn:E; cbn [andb].
  - destruct (JS.all_space _).
    + exists (String c s). split; [reflexivity|].
      apply startsWith_spec in E. destruct E as [y ->]. reflexivity.
    + exists b. split; [|exact Hb]. rewrite app_cons. now rewrite <- IH.
  - exists b. split; [|exact Hb]. rewrite app_cons. now rewrite <- IH.
Qed.

Lemma has_link_strip (lit s : string) :
  Text.has_link lit (TextUtils.strip_trailing_ellipsis s) = true -> Text.has_link lit s = true.
Proof.
  intros H. destruct (strip_trailing_ellipsis_split s) as (b & Hs & Hb). rewrite Hs.
  now apply has_link_prefix.
Qed.

(** One step of [collapse_spaces]: a byte that starts no white space is
    copied; white space gives one white-space character, and the rest is
    what is left of the text somewhere behind it. *)
Lemma collapse_step (c : ascii) (r : string) :
  (JS.ws_len (String c r) = O /\
   TextUtils.collapse_spaces (String c r) = String c (TextUtils.collapse_spaces r)) \/
  (exists w m, In w JS.white_space /\
     TextUtils.collapse_spaces (String c r) =
     w +:+ TextUtils.collapse_spaces (JS.drop (S m) (String c r))).
Proof.
  unfold TextUtils.collapse_spaces. rewrite collapse_spaces_go_eq.
  destruct (JS.ws_len (String c r)) as [|j] eqn:E; [left; split; reflexivity|]. right.
  destruct (0 <? JS.ws_len (JS.drop (S j) (String c r)))%nat eqn:En.
  - set (k := (String.length (String c r) - String.length (JS.trimStart (String c r)) - 1)%nat).
    exists " ", k. split; [vm_compute; tauto|].
    cbn [JS.drop]. rewrite (collapse_spaces_go_drop k r). reflexivity.
  - destruct (prefix_len_found _ _ _ E) as (w & t & Hw & Ht & Hl).
    pose proof white_space_chars as Hc. rewrite forallb_forall in Hc. specialize (Hc w Hw).
    destruct w as [|a w]; [discriminate|].
    cbn [Spec.one_char] in Hc. apply andb_true_iff in Hc. destruct Hc as [_ Hc].
    rewrite app_cons in Ht. injection Ht as <- ->.
    exists (String c w), (String.length w). split; [exact Hw|].
    pose proof (collapse_continuation w t Hc) as Hcol.
    unfold TextUtils.collapse_spaces in Hcol. rewrite Hcol.
    cbn [JS.drop]. now rewrite drop_app.
Qed.

Lemma collapse_head_space (s : string) :
  Text.head_space s = true -> Text.head_space (TextUtils.collapse_spaces s) = true.
Proof.
  destruct s as [|c r]; [reflexivity|]. intros H.
  destruct (collapse_step c r) as [[E _] | (w & m & Hw & ->)].
  - cbn [Text.head_space] in H. rewrite E in H. discriminate.
  - now apply head_space_ws.
Qed.

(** A literal of plain bytes at the head of the collapsed text stood at
    the head of the text. *)
Lemma collapse_word (w : string) :
  Spec.all_chars Text.plain w = true -> w <> "" ->
  forall s, JS.startsWith (TextUtils.collapse_spaces s) w = true ->
    JS.startsWith s w = true /\
    JS.drop (String.length w) (TextUtils.collapse_spaces s) =
    TextUtils.collapse_spaces (JS.drop (String.length w) s).
Proof.
  induction w as [|x w IH]; intros Hw Hne s H; [congruence|].
  cbn [Spec.all_chars] in Hw. apply andb_true_iff in Hw. destruct Hw as [Hx Hw].
  destruct s as [|c r]; [discriminate|].
  destruct (collapse_step c r) as [[_ Hc] | (w0 & m & Hw0 & Hc)]; rewrite Hc in *.
  - cbn [JS.startsWith] in *. destruct (Ascii.eqb x c); [|discriminate].
    cbn [String.length JS.drop].
    destruct w as [|y w']; [split; reflexivity|].
    apply (IH Hw ltac:(discriminate) r H).
  - rewrite (startsWith_head_space _ x w (head_space_ws w0 _ Hw0) Hx) in H.
    discriminate.
Qed.

Lemma collapse_linked (lit s : string) :
  Text.word lit = true ->
  Text.linked lit (TextUtils.collapse_spaces s) = true -> Text.linked lit s = true.
Proof.
  intros Hlit H. unfold Text.linked in *. apply andb_true_iff in H. destruct H as [H1 H2].
  destruct (word_chars lit Hlit) as [Hpl Hne].
  destruct (collapse_word lit Hpl Hne s H1) as (A & C).
  rewrite A. cbn [andb]. rewrite C in H2.
  destruct (Text.head_space (JS.drop (String.length lit) s)) eqn:E; [|reflexivity].
  rewrite (collapse_head_space _ E) in H2. discriminate.
Qed.

(** Collapsing the white space creates no match. *)
Lemma collapse_has_link (lit : string) :
  Text.word lit = true ->
  forall s, Text.has_link lit (TextUtils.collapse_spaces s) = true ->
            Text.has_link lit s = true.
Proof.
  intros Hlit s.
  remember (String.length s) as n eqn:Hn. revert s Hn.
  induction n as [n IH] using lt_wf_ind. intros s Hn H.
  destruct s as [|c r]; [exact H|].
  pose proof (collapse_linked lit (String c r) Hlit) as Hk.
  destruct (collapse_step c r) as [[_ Hc] | (w0 & m & Hw0 & Hc)]; rewrite Hc in *.
  - rewrite has_link_cons in H. apply orb_true_iff in H. destruct H as [H | H].
    + apply has_link_linked. now apply Hk.
    + apply has_link_tail.
      apply (IH (String.length r) ltac:(subst n; simpl; lia) r eq_refl H).
  - pose proof white_space_not_plain as Hn0. rewrite forallb_forall in Hn0.
    rewrite (has_link_not_plain lit w0 _ Hlit (Hn0 w0 Hw0)) in H.
    destruct (drop_length_lt m (String c r)) as [Hlt | Hlt]; [|discriminate].
    apply (has_link_drop (S m)).
    apply (IH _ ltac:(subst n; exact Hlt) _ eq_refl H).
Qed.

(** X23: the text [cleanupTweetContent] returns holds no link of the
    kinds it removes: wherever [https://], [http://], [t.co/], [x.com/] or
    [twitter.com/] stands in it, the text ends there or a white-space
    character follows. *)
Theorem X23_cleanup_no_links (text lit a b : string) :
  In lit Text.url_heads ->
  TextUtils.cleanupTweetContent text = a +:+ lit +:+ b ->
  Text.head_space b = true.
Proof.
  intros Hin Hab. apply (has_link_split lit a b). rewrite <- Hab. clear Hab.
  assert (Hlit : Text.word lit = true).
  { unfold Text.url_heads in Hin. cbn [In] in Hin.
    destruct Hin as [<-|[<-|[<-|[<-|[<-|[]]]]]]; reflexivity. }
  unfold TextUtils.cleanupTweetContent.
  destruct (negb (JS.truthy text)); [apply has_link_nil|].
  cbv zeta.
  set (s0 := if negb _ then _ else _).
  destruct (Text.has_link lit _) eqn:E; [|reflexivity]. exfalso.
  apply has_link_trim in E. apply (collapse_has_link lit Hlit) in E.
  apply has_link_strip in E.
  assert (H1 : Forall (fun l => Text.word l = true) ["https://"; "http://"])
    by (repeat constructor).
  assert (H2 : Forall (fun l => Text.word l = true) ["t.co/"])
    by (repeat constructor).
  assert (H3 : Forall (fun l => Text.word l = true) ["x.com/"])
    by (repeat constructor).
  assert (H4 : Forall (fun l => Text.word l = true) ["twitter.com/"])
    by (repeat constructor).
  unfold Text.url_heads in Hin. cbn [In] in Hin.
  destruct Hin as [Hl|[Hl|[Hl|[Hl|[Hl|[]]]]]].
  - apply (remove_links_has_link _ H4 lit Hlit) in E.
    apply (remove_links_has_link _ H3 lit Hlit) in E.
    apply (remove_links_has_link _ H2 lit Hlit) in E.
    rewrite (remove_links_clean _ H1 lit) in E; [discriminate | subst lit; now left].
  - apply (remove_links_has_link _ H4 lit Hlit) in E.
    apply (remove_links_has_link _ H3 lit Hlit) in E.
    apply (remove_links_has_link _ H2 lit Hlit) in E.
    rewrite (remove_links_clean _ H1 lit) in E; [discriminate | subst lit; right; now left].
  - apply (remove_links_has_link _ H4 lit Hlit) in E.
    apply (remove_links_has_link _ H3 lit Hlit) in E.
    rewrite (remove_links_clean _ H2 lit) in E; [discriminate | subst lit; now left].
  - apply (remove_links_has_link _ H4 lit Hlit) in E.
    rewrite (remove_links_clean _ H3 lit) in E; [discriminate | subst lit; now left].
  - rewrite (remove_links_clean _ H4 lit) in E; [discriminate | subst lit; now left].
Qed.

Lemma X23_cleanup_no_links_witness :
  TextUtils.cleanupTweetContent "RT: see https://a.example/1 or https:// then t.co/xyz …" =
    "see or " +:+ "https://" +:+ " then" /\
  Text.head_space " then" = true.
Proof.
  assert (H : TextUtils.cleanupTweetContent
                "RT: see https://a.example/1 or https:// then t.co/xyz …" =
              "see or " +:+ "https://" +:+ " then") by (vm_compute; reflexivity).
  split; [exact H|].
  apply (X23_cleanup_no_links "RT: see https://a.example/1 or https:// then t.co/xyz …"
           "https://" "see or " " then"); [now left | exact H].
Defined.

(** A no-break space behind the literal is white space too: there is no
    link to remove, and the text is kept. *)
Example link_head_before_nbsp :
  TextUtils.cleanupTweetContent ("see https://" +:+ nbsp +:+ "x end")
  = "see https://" +:+ nbsp +:+ "x end".
Proof. vm_compute. reflexivity. Qed.


(** ** The life cycle of a connection (X25 to X30) *)

(** X25: [cleanup()] marks the instance first, so the [disconnect()] it
    calls returns at once: the socket is left as it was, open if it was
    open.  From then on [connect], [disconnect], the error handler and the
    close handler do nothing, and a second [cleanup()] changes nothing. *)
Theorem X25_cleanup (w : Actor.WebSocketService) (bg : Background.Attempts) :
  let w' := fst (Lifecycle.cleanup w bg) in
  Actor.socket w' = Actor.socket w /\
  Actor.isCleaned w' = true /\
  Actor.reconnectTimeout w' = None /\
  Actor.heartbeatInterval w' = false /\
  Background.attempts_of (Actor.sourceType w) (snd (Lifecycle.cleanup w bg)) = 0 /\
  (forall u token thrown st, Lifecycle.connect u token thrown w' st = (w', st)) /\
  Lifecycle.disconnect w' = w' /\
  (forall st, Lifecycle.handleError w' st = (w', st, Actor.Ignored)) /\
  (forall ev st, Actor.handleClose ev w' st = (w', st, Actor.Ignored)) /\
  (forall bg', fst (Lifecycle.cleanup w' bg') = w').
Proof.
  destruct w as [sk tm hb u cn at' src tok was cl hd cd].
  lazy. repeat split; destruct src; reflexivity.
Qed.

(** X26: a failure that is reported by an error event and then by a close
    event counts once: the error handler schedules the reconnect, the close
    handler finds the timer pending and leaves counter and delay alone; the
    message of the close replaces that of the error. *)
Theorem X26_error_then_close (w : Actor.WebSocketService) (st : Store.NewsState)
    (ev : option Actor.CloseEvent) :
  Actor.isCleaned w = false ->
  Actor.isHandlingErrorOrClose w = false ->
  Actor.isCleanDisconnect w = false ->
  Actor.reconnectTimeout w = None ->
  Actor.url w <> "" ->
  let r1 := Lifecycle.handleError w st in
  let r2 := Actor.handleClose ev (fst (fst r1)) (snd (fst r1)) in
  let w2 := fst (fst r2) in
  snd r1 = Actor.Handled /\ snd r2 = Actor.Handled /\
  Actor.reconnectAttempts w2 = Spec.capped (Actor.reconnectAttempts w + 1) /\
  Actor.reconnectTimeout w2
    = Some (Actor.backoff_delay (Spec.capped (Actor.reconnectAttempts w + 1))) /\
  Actor.state_of w2 = Actor.ReconnectPending /\
  Store.error (snd (fst r2))
    = Some ("[" +:+ Actor.label (Actor.sourceType w) +:+ "] Connection closed: "
              +:+ Actor.close_reason ev).
Proof.
  intros Hcl Hhd Hcd Htm Hu. apply truthy_true in Hu.
  destruct w as [sk tm hb u cn at' src tok was cl hd cd].
  cbn [Actor.isCleaned Actor.isHandlingErrorOrClose Actor.isCleanDisconnect
       Actor.reconnectTimeout Actor.url Actor.reconnectAttempts Actor.sourceType] in *.
  subst cl hd cd tm.
  unfold Lifecycle.handleError, Actor.handleClose, Actor.scheduleReconnect, Spec.capped.
  cbn. rewrite Hu. cbn. repeat split; destruct src; reflexivity.
Qed.

Lemma X26_error_then_close_witness :
  Actor.reconnectAttempts
    (fst (fst (Actor.handleClose abnormal_close
                 (fst (fst (Lifecycle.handleError fresh_actor empty_store)))
                 (snd (fst (Lifecycle.handleError fresh_actor empty_store))))))
  = 1.
Proof.
  destruct (X26_error_then_close fresh_actor empty_store abnormal_close
              eq_refl eq_refl eq_refl eq_refl ltac:(discriminate))
    as (_ & _ & H & _).
  rewrite H. reflexivity.
Defined.

(** X27: when [new WebSocket(url)] throws inside the callback of the
    reconnect timer, the retries end: [connect] asks for a reconnect while
    the handle of the firing timer is still stored, so nothing is
    scheduled, and the callback then clears the handle.  The actor is left
    disconnected with no timer pending. *)
Theorem X27_timer_constructor_failure (w : Actor.WebSocketService) (st : Store.NewsState)
    (d : Q) (errorMessage : string) :
  Actor.isCleaned w = false ->
  Actor.isConnecting w = false ->
  Actor.isConnected w = false ->
  Actor.reconnectTimeout w = Some d ->
  let r := Lifecycle.reconnect_timer (Some errorMessage) w st in
  Actor.reconnectTimeout (fst r) = None /\
  Actor.state_of (fst r) = Actor.Disconnected /\
  Actor.reconnectAttempts (fst r) = Actor.reconnectAttempts w /\
  Store.error (snd r)
    = Some ("[" +:+ Actor.label (Actor.sourceType w) +:+ "] Failed to connect: "
              +:+ errorMessage).
Proof.
  intros Hcl Hcn Hopen Htm.
  destruct w as [sk tm hb u cn at' src tok was cl hd cd].
  cbn [Actor.isCleaned Actor.isConnecting Actor.reconnectTimeout] in *. subst cl cn tm.
  unfold Lifecycle.reconnect_timer, Lifecycle.connect.
  cbn [Actor.isCleaned Actor.isConnecting]. rewrite Hopen.
  unfold Actor.scheduleReconnect. cbn. repeat split; destruct src; reflexivity.
Qed.

Lemma X27_timer_constructor_failure_witness :
  Actor.state_of
    (fst (Lifecycle.reconnect_timer (Some "Invalid URL") waiting_actor empty_store))
  = Actor.Disconnected.
Proof.
  destruct (X27_timer_constructor_failure waiting_actor empty_store
              (Actor.backoff_delay 3) "Invalid URL" eq_refl eq_refl eq_refl eq_refl)
    as (_ & H & _).
  exact H.
Defined.

(** X28: [disconnect()] of a connected actor followed by the close event
    of its socket: the heartbeat and any reconnect timer are stopped, the
    counter is reset, the close is handled without an error message and
    without a new timer, and the flag of the clean disconnect is down
    again.  The actor ends disconnected. *)
Theorem X28_disconnect_then_close (w : Actor.WebSocketService) (st : Store.NewsState)
    (ev : option Actor.CloseEvent) :
  Actor.isCleaned w = false ->
  Actor.isHandlingErrorOrClose w = false ->
  Actor.socket w = Some Actor.OPEN ->
  Actor.isConnecting w = false ->
  let w1 := Lifecycle.disconnect w in
  let r := Lifecycle.close_event ev w1 st in
  let w2 := fst (fst r) in
  Actor.state_of w1 = Actor.Closing /\
  snd r = Actor.Handled /\
  Actor.state_of w2 = Actor.Disconnected /\
  Actor.reconnectTimeout w2 = None /\
  Actor.heartbeatInterval w2 = false /\
  Actor.reconnectAttempts w2 = 0 /\
  Actor.isCleanDisconnect w2 = false /\
  Store.error (snd (fst r)) = Store.error st /\
  Store.isLoading (snd (fst r)) = false.
Proof.
  intros Hcl Hhd Hsk Hcn.
  destruct w as [sk tm hb u cn at' src tok was cl hd cd].
  cbn [Actor.isCleaned Actor.isHandlingErrorOrClose Actor.socket Actor.isConnecting] in *.
  subst cl hd sk cn. lazy. repeat split; destruct src; reflexivity.
Qed.

Lemma X28_disconnect_then_close_witness :
  Actor.state_of
    (fst (fst (Lifecycle.close_event abnormal_close (Lifecycle.disconnect open_actor)
                 empty_store)))
  = Actor.Disconnected.
Proof.
  destruct (X28_disconnect_then_close open_actor empty_store abnormal_close
              eq_refl eq_refl eq_refl eq_refl) as (_ & _ & H & _).
  exact H.
Defined.

(** X29: [disconnect()] while the socket is still connecting wedges the
    actor when only the close event follows: the close handler skips
    [isConnecting = false] on a clean disconnect, so the flag stays up and
    every later [connect] returns at its second guard. *)
Theorem X29_disconnect_while_connecting (w : Actor.WebSocketService)
    (st : Store.NewsState) (ev : option Actor.CloseEvent) :
  Actor.isCleaned w = false ->
  Actor.isHandlingErrorOrClose w = false ->
  Actor.socket w = Some Actor.CONNECTING ->
  Actor.isConnecting w = true ->
  let r := Lifecycle.close_event ev (Lifecycle.disconnect w) st in
  let w2 := fst (fst r) in
  snd r = Actor.Handled /\
  Actor.socket w2 = None /\
  Actor.reconnectTimeout w2 = None /\
  Actor.isConnecting w2 = true /\
  (forall u token thrown st', Lifecycle.connect u token thrown w2 st' = (w2, st')).
Proof.
  intros Hcl Hhd Hsk Hcn.
  destruct w as [sk tm hb u cn at' src tok was cl hd cd].
  cbn [Actor.isCleaned Actor.isHandlingErrorOrClose Actor.socket Actor.isConnecting] in *.
  subst cl hd sk cn. lazy. repeat split; reflexivity.
Qed.

Lemma X29_disconnect_while_connecting_witness :
  let w := fst (Lifecycle.connect "wss://wss.phoenixnews.io" None None fresh_actor
                  empty_store) in
  let w2 := fst (fst (Lifecycle.close_event abnormal_close (Lifecycle.disconnect w)
                        empty_store)) in
  Lifecycle.connect "wss://wss.phoenixnews.io" None None w2 empty_store = (w2, empty_store).
Proof.
  intros w w2.
  destruct (X29_disconnect_while_connecting w empty_store abnormal_close
              eq_refl eq_refl eq_refl eq_refl) as (_ & _ & _ & _ & H).
  apply H.
Defined.

(** X30: the flag of a clean disconnect is lowered only by the close
    handler.  When the close event of a disconnect does not arrive within
    the second [disconnect()] waits for it, the flag stays up through the
    next [connect] and [open]; the close of that new connection, whatever
    its code, is then taken for a clean one: no error is shown and no
    reconnect is scheduled. *)
Theorem X30_stale_clean_flag (w : Actor.WebSocketService) (st : Store.NewsState)
    (u : string) (token : option string) (ev : option Actor.CloseEvent) :
  Actor.isCleaned w = false ->
  Actor.isHandlingErrorOrClose w = false ->
  Actor.socket w = Some Actor.OPEN ->
  Actor.isConnecting w = false ->
  let r1 := Lifecycle.disconnect_timer (Lifecycle.disconnect w) st in
  let r2 := Lifecycle.connect u token None (fst r1) (snd r1) in
  let r3 := Lifecycle.opened (fst r2) (snd r2) in
  let r4 := Actor.handleClose ev (fst (fst r3)) (snd (fst r3)) in
  Actor.state_of (fst (fst r3)) = Actor.Connected /\
  snd r4 = Actor.Handled /\
  Actor.state_of (fst (fst r4)) = Actor.Disconnected /\
  Actor.reconnectTimeout (fst (fst r4)) = None /\
  Store.error (snd (fst r4)) = None.
Proof.
  intros Hcl Hhd Hsk Hcn.
  destruct w as [sk tm hb u0 cn at' src tok was cl hd cd].
  cbn [Actor.isCleaned Actor.isHandlingErrorOrClose Actor.socket Actor.isConnecting] in *.
  subst cl hd sk cn. lazy. repeat split; destruct src; reflexivity.
Qed.

Lemma X30_stale_clean_flag_witness :
  let r1 := Lifecycle.disconnect_timer (Lifecycle.disconnect open_actor) empty_store in
  let r2 := Lifecycle.connect "wss://wss.phoenixnews.io" None None (fst r1) (snd r1) in
  let r3 := Lifecycle.opened (fst r2) (snd r2) in
  Actor.reconnectTimeout
    (fst (fst (Actor.handleClose abnormal_close (fst (fst r3)) (snd (fst r3))))) = None.
Proof.
  intros r1 r2 r3.
  destruct (X30_stale_clean_flag open_actor empty_store "wss://wss.phoenixnews.io" None
              abnormal_close eq_refl eq_refl eq_refl eq_refl) as (_ & _ & _ & H & _).
  exact H.
Defined.


(** X24: the error handler does not look at the flag of a clean
    disconnect.  An error event that follows [disconnect()], as when a
    socket is closed before it has opened, schedules a reconnect after
    1000 ms although the user asked for the disconnect. *)
Theorem X24_error_after_disconnect (w : Actor.WebSocketService) (st : Store.NewsState)
    (readyState : Actor.ReadyState) :
  Actor.isCleaned w = false ->
  Actor.isHandlingErrorOrClose w = false ->
  Actor.socket w = Some readyState ->
  Actor.url w <> "" ->
  let w1 := Lifecycle.disconnect w in
  let r := Lifecycle.handleError w1 st in
  Actor.isCleanDisconnect w1 = true /\
  Actor.reconnectTimeout w1 = None /\
  snd r = Actor.Handled /\
  Actor.reconnectTimeout (fst (fst r)) = Some (1000 # 1)%Q /\
  Actor.reconnectAttempts (fst (fst r)) = 1 /\
  Actor.isCleanDisconnect (fst (fst r)) = true.
Proof.
  intros Hcl Hhd Hsk Hu.
  destruct w as [sk tm hb u cn at' src tok was cl hd cd].
  cbn [Actor.isCleaned Actor.isHandlingErrorOrClose Actor.socket Actor.url] in *.
  subst cl hd sk. destruct u as [|c u]; [congruence|].
  destruct readyState; lazy; repeat split; reflexivity.
Qed.

Lemma X24_error_after_disconnect_witness :
  Actor.reconnectTimeout
    (fst (fst (Lifecycle.handleError (Lifecycle.disconnect open_actor) empty_store)))
  = Some (1000 # 1)%Q.
Proof.
  destruct (X24_error_after_disconnect open_actor empty_store Actor.OPEN
              eq_refl eq_refl eq_refl ltac:(discriminate)) as (_ & _ & _ & H & _).
  exact H.
Defined.
